(** * Templastic: the fetch cache, the trigger state machine and the
      content transformer of <templastic-import>

    A shallow embedding of [src/Templastic/templastic.js].  The component is
    one class, [TemplasticImport]; its methods are embedded as functions over
    an explicit [World] (the two static maps, the instances, the network
    requests in flight and the suspended continuations), and the DOM pass of
    [_processHTML] as functions over a small tree type.

    The browser primitives the class calls ([new URL(..).href], [DOMParser],
    [innerHTML], [document.baseURI], ['IntersectionObserver' in window]) are
    not code of the component: they are the fields of the class [Platform]. *)

From Stdlib Require Import Ascii String.
From stdpp Require Import gmap strings list fin_maps.

Open Scope string_scope.

(** ** JavaScript strings

    Strings are sequences of code units; the development works with code
    units below 256.  Among those the ECMAScript white space and line
    terminator code units, which [trim] and the class [\s] use, are
    TAB, LF, VT, FF, CR, SPACE and NBSP. *)

Module JsString.

Definition is_space (c : ascii) : bool :=
  let n := N_of_ascii c in
  ((9 <=? n)%N && (n <=? 13)%N) || (n =? 32)%N || (n =? 160)%N.

Fixpoint trimStart (s : string) : string :=
  match s with
  | EmptyString => EmptyString
  | String c s' => if is_space c then trimStart s' else s
  end.

Fixpoint trimEnd (s : string) : string :=
  match s with
  | EmptyString => EmptyString
  | String c s' =>
      match trimEnd s' with
      | EmptyString => if is_space c then EmptyString else String c EmptyString
      | t => String c t
      end
  end.

(** [s.trim()] *)
Definition trim (s : string) : string := trimEnd (trimStart s).

(** [s.startsWith(p)] *)
Fixpoint startsWith (p s : string) : bool :=
  match p, s with
  | EmptyString, _ => true
  | String a p', String b s' => if Ascii.eqb a b then startsWith p' s' else false
  | String _ _, EmptyString => false
  end.

(** [s.split(sep)] for a separator of one code unit.  The result is never
    empty: [''.split(',')] is [['']]. *)
Fixpoint split (sep : ascii) (s : string) : list string :=
  match s with
  | EmptyString => [EmptyString]
  | String c s' =>
      if Ascii.eqb c sep then EmptyString :: split sep s'
      else match split sep s' with
           | t :: ts => String c t :: ts
           | [] => [String c EmptyString]
           end
  end.

(** [s.split(/\s+/)]: every maximal run of white space is one separator.
    [in_run] says that the previous code unit belonged to a run, so that the
    run is not closed twice.  A leading or trailing run yields an empty first
    or last piece, as in JavaScript. *)
Fixpoint split_ws_from (in_run : bool) (s : string) : list string :=
  match s with
  | EmptyString => [EmptyString]
  | String c s' =>
      if is_space c then
        if in_run then split_ws_from true s'
        else EmptyString :: split_ws_from true s'
      else match split_ws_from false s' with
           | t :: ts => String c t :: ts
           | [] => [String c EmptyString]
           end
  end.

Definition split_ws (s : string) : list string := split_ws_from false s.

(** [parts.join(sep)] *)
Definition join (sep : string) (parts : list string) : string :=
  String.concat sep parts.

(** A code unit occurs in a string. *)
Fixpoint mem (c : ascii) (s : string) : bool :=
  match s with
  | EmptyString => false
  | String d s' => Ascii.eqb c d || mem c s'
  end.

Fixpoint has_space (s : string) : bool :=
  match s with
  | EmptyString => false
  | String c s' => is_space c || has_space s'
  end.

(** Nothing but white space. *)
Fixpoint blank (s : string) : bool :=
  match s with
  | EmptyString => true
  | String c s' => is_space c && blank s'
  end.

(** A piece that [split_ws] returns as it is. *)
Definition token (t : string) : Prop := has_space t = false /\ t <> "".

(** ASCII lower-casing, for the attribute values that selectors compare
    without regard to case. *)
Definition lower_char (c : ascii) : ascii :=
  let n := N_of_ascii c in
  if ((65 <=? n)%N && (n <=? 90)%N) then ascii_of_N (n + 32) else c.

Fixpoint lower (s : string) : string :=
  match s with
  | EmptyString => EmptyString
  | String c s' => String (lower_char c) (lower s')
  end.

End JsString.

(** ** The parsed document

    [DOMParser.parseFromString(.., 'text/html')] always yields a document
    with a head and a body; the tree below is what the component reads of
    it.  Attributes are kept in source order, one entry per name.

    The parser puts what is written inside a [template] element into the
    element's [content], a fragment of its own: the element has it, but it
    is no child of the element.  [Contents] stands for that fragment, at the
    place of the children: [querySelectorAll], [children] and [textContent]
    pass it by, and only [innerHTML] serialises it. *)

Module Dom.

Definition Attrs := list (string * string).

#[warnings="-register-all"]
Inductive Node :=
| Elem (tag : string) (attrs : Attrs) (children : list Node)
| Text (data : string)
| Comment (data : string)
| Contents (fragment : list Node).

Record Document := { head : list Node; body : list Node }.

(** [el.getAttribute(name)] *)
Fixpoint getAttribute (name : string) (a : Attrs) : option string :=
  match a with
  | [] => None
  | (k, v) :: a' => if String.eqb k name then Some v else getAttribute name a'
  end.

Definition hasAttribute (name : string) (a : Attrs) : bool :=
  match getAttribute name a with Some _ => true | None => false end.

(** [el.setAttribute(name, v)]: an existing attribute keeps its place. *)
Fixpoint setAttribute (name v : string) (a : Attrs) : Attrs :=
  match a with
  | [] => [(name, v)]
  | (k, w) :: a' =>
      if String.eqb k name then (k, v) :: a' else (k, w) :: setAttribute name v a'
  end.

(** [el.removeAttribute(name)] *)
Fixpoint removeAttribute (name : string) (a : Attrs) : Attrs :=
  match a with
  | [] => []
  | (k, w) :: a' =>
      if String.eqb k name then removeAttribute name a'
      else (k, w) :: removeAttribute name a'
  end.

(** [node.textContent] *)
Fixpoint textContent (n : Node) : string :=
  match n with
  | Elem _ _ ch => String.concat "" (List.map textContent ch)
  | Text s => s
  | Comment _ => ""
  | Contents _ => ""
  end.

(** A selector is a test on an element's name and attributes. *)
Definition Selector := string -> Attrs -> bool.

(** [querySelectorAll]: the matching elements in document order. *)
Fixpoint select (q : Selector) (n : Node) : list Node :=
  match n with
  | Elem t a ch => (if q t a then [n] else []) ++ List.flat_map (select q) ch
  | _ => []
  end.

Definition querySelectorAll (q : Selector) (d : Document) : list Node :=
  List.flat_map (select q) (head d) ++ List.flat_map (select q) (body d).

(** The tree once [el.remove()] has run on every element of
    [querySelectorAll(q)]. *)
Fixpoint prune (q : Selector) (n : Node) : list Node :=
  match n with
  | Elem t a ch => if q t a then [] else [Elem t a (List.flat_map (prune q) ch)]
  | _ => [n]
  end.

Definition removeAll (q : Selector) (d : Document) : Document :=
  {| head := List.flat_map (prune q) (head d);
     body := List.flat_map (prune q) (body d) |}.

(** The tree once [f] has rewritten the attributes of every element. *)
Fixpoint mapAttrs (f : string -> Attrs -> Attrs) (n : Node) : Node :=
  match n with
  | Elem t a ch => Elem t (f t a) (List.map (mapAttrs f) ch)
  | _ => n
  end.

Definition mapDocument (f : string -> Attrs -> Attrs) (d : Document) : Document :=
  {| head := List.map (mapAttrs f) (head d);
     body := List.map (mapAttrs f) (body d) |}.

(** [parent.children[0]]: the first child that is an element. *)
Fixpoint firstElement (ns : list Node) : option Node :=
  match ns with
  | [] => None
  | Elem t a ch :: _ => Some (Elem t a ch)
  | _ :: ns' => firstElement ns'
  end.

(** Rewrite the attributes of [children[0]]. *)
Fixpoint updateFirstElement (f : Attrs -> Attrs) (ns : list Node) : list Node :=
  match ns with
  | [] => []
  | Elem t a ch :: ns' => Elem t (f a) ch :: ns'
  | n :: ns' => n :: updateFirstElement f ns'
  end.

(** Name and attributes of every element of a subtree, in document order. *)
Fixpoint elements (n : Node) : list (string * Attrs) :=
  match n with
  | Elem t a ch => (t, a) :: List.flat_map elements ch
  | _ => []
  end.

Definition documentElements (d : Document) : list (string * Attrs) :=
  List.flat_map elements (head d) ++ List.flat_map elements (body d).

Definition nodeAttrs (n : Node) : Attrs :=
  match n with Elem _ a _ => a | _ => [] end.

(** The template contents of a subtree, in document order. *)
Fixpoint fragments (n : Node) : list (list Node) :=
  match n with
  | Elem _ _ ch => List.flat_map fragments ch
  | Contents ns => [ns]
  | _ => []
  end.

Definition documentFragments (d : Document) : list (list Node) :=
  List.flat_map fragments (head d) ++ List.flat_map fragments (body d).

End Dom.

(** ** The platform

    What the component takes from the browser.  [URL_href v base] is
    [new URL(v, base).href], [None] when the constructor throws its
    [TypeError]; [parseFromString] is the shared [DOMParser] at
    ['text/html']; [innerHTML] is the serialisation of a list of children. *)

Class Platform := {
  URL_href : string -> string -> option string;
  baseURI : string;
  hasIntersectionObserver : bool;
  parseFromString : string -> Dom.Document;
  innerHTML : list Dom.Node -> string
}.

(** ** Phase 3: parsing and style extraction ([_processHTML], the part that
    runs before the frame is requested) and [_resolveRelativeURLs] *)

Module Transform.
Import Dom.

(** ['style'] *)
Definition sel_style : Selector := fun t _ => String.eqb t "style".

(** ['link[rel="stylesheet"]']; in an HTML document the value of [rel] is
    compared without regard to ASCII case. *)
Definition sel_stylesheet_link : Selector := fun t a =>
  String.eqb t "link" &&
  match getAttribute "rel" a with
  | Some v => String.eqb (JsString.lower v) "stylesheet"
  | None => false
  end.

(** The table [selectors] of [_resolveRelativeURLs]: attribute and query. *)
Definition selectors : list (string * Selector) :=
  [ ("src",    fun _ a => hasAttribute "src" a);
    ("href",   fun t a => (String.eqb t "a" || String.eqb t "area") && hasAttribute "href" a);
    ("action", fun t a => String.eqb t "form" && hasAttribute "action" a);
    ("srcset", fun _ a => hasAttribute "srcset" a);
    ("poster", fun t a => String.eqb t "video" && hasAttribute "poster" a) ].

(** A candidate of a [srcset] as the page wrote it: white space, the URL,
    the descriptors, each behind white space, and white space again. *)
Record Written := {
  lead : string;
  url : string;
  descriptors : list (string * string);
  trail : string
}.

Fixpoint writeDescriptors (ds : list (string * string)) : string :=
  match ds with
  | [] => ""
  | (gap, d) :: ds' => gap ++ d ++ writeDescriptors ds'
  end.

Definition write (e : Written) : string :=
  lead e ++ url e ++ writeDescriptors (descriptors e) ++ trail e.

(** The value of the attribute: the candidates with commas in between. *)
Definition writeSrcset (es : list Written) : string :=
  JsString.join "," (List.map write es).

(** A URL or a descriptor: not empty, no white space, no comma. *)
Definition isToken (s : string) : bool :=
  negb (String.eqb s "") && negb (JsString.has_space s) && negb (JsString.mem "," s).

Definition wellWritten (e : Written) : bool :=
  JsString.blank (lead e) && JsString.blank (trail e) && isToken (url e) &&
  forallb (fun gd => JsString.blank gd.1 && negb (String.eqb gd.1 "") && isToken gd.2)
          (descriptors e).

(** A descriptor behind its white space, as [wellWritten] wants it. *)
Definition okDescriptor (gd : string * string) : Prop :=
  JsString.blank gd.1 = true /\ gd.1 <> "" /\ JsString.token gd.2.

(** A candidate as the transform writes it back: one space between the
    pieces, a comma and a space between candidates. *)
Definition Candidate : Type := string * list string.

Definition renderCandidate (c : Candidate) : string := JsString.join " " (c.1 :: c.2).

Definition renderSrcset (cs : list Candidate) : string :=
  JsString.join ", " (List.map renderCandidate cs).

(** The candidate [e] with [u] for its URL. *)
Definition rewritten (e : Written) (u : string) : Candidate :=
  (u, List.map snd (descriptors e)).

(** The links that step 3b clones: those with an [href] that is not
    empty. *)
Definition hasHref (l : Node) : bool :=
  match getAttribute "href" (nodeAttrs l) with
  | Some href => negb (String.eqb href "")
  | None => false
  end.

Definition linksWithHref (links : list Node) : list Node := List.filter hasHref links.

(** The attributes that the table of [_resolveRelativeURLs] names. *)
Definition rewrittenAttributes : list string :=
  ["src"; "href"; "action"; "srcset"; "poster"].

Record Extracted := {
  extractedCSS : list string;
  resolvedLinks : list Node;
  hostInlineStyle : option string;
  content : Document
}.

Section WithPlatform.
Context `{Platform}.

(** One entry of a [srcset]: the first piece is made absolute, the pieces
    are joined again with one space.  [split] never yields an empty array. *)
Definition resolveEntry (baseURL entry : string) : option string :=
  match JsString.split_ws (JsString.trim entry) with
  | p0 :: rest => h ← URL_href p0 baseURL; Some (JsString.join " " (h :: rest))
  | [] => None
  end.

(** The body of the [try]: the new value of the attribute, [None] when a
    [new URL] throws (the [catch] then leaves the attribute as it is). *)
Definition resolveValue (attr baseURL value : string) : option string :=
  if String.eqb attr "srcset" then
    entries ← mapM (resolveEntry baseURL) (JsString.split "," value);
    Some (JsString.join ", " entries)
  else URL_href value baseURL.

(** The guard before the [try]:
    [!value || value.startsWith('data:') || value.startsWith('#')]. *)
Definition skipped (value : string) : bool :=
  String.eqb value "" || JsString.startsWith "data:" value || JsString.startsWith "#" value.

(** The callback of the inner [forEach], on an element that matches. *)
Definition rewriteAttr (attr baseURL : string) (a : Attrs) : Attrs :=
  match getAttribute attr a with
  | None => a
  | Some value =>
      if skipped value then a
      else match resolveValue attr baseURL value with
           | Some v => setAttribute attr v a
           | None => a
           end
  end.

(** One row of the table applied to one element. *)
Definition rewriteElement (baseURL : string) (row : string * Selector)
    (t : string) (a : Attrs) : Attrs :=
  if row.2 t a then rewriteAttr row.1 baseURL a else a.

Definition _resolveRelativeURLs (doc : Document) (baseURL : string) : Document :=
  List.fold_left (fun d row => mapDocument (rewriteElement baseURL row) d) selectors doc.

(** All rows of the table, applied to one element. *)
Definition rewriteAll (baseURL t : string) (a : Attrs) : Attrs :=
  List.fold_left (fun a row => rewriteElement baseURL row t a) selectors a.

(** 3b, one link: a link without [href] (or with an empty one) is dropped,
    the others are cloned with a resolved [href].  [new URL] is not guarded
    here: [None] is its exception. *)
Definition resolveLink (resolvedURL : string) (linkEl : Node) : option (list Node) :=
  match linkEl with
  | Elem t a ch =>
      match getAttribute "href" a with
      | Some href =>
          if String.eqb href "" then Some []
          else resolvedHref ← URL_href href resolvedURL;
               Some [Elem t (setAttribute "href" resolvedHref a) ch]
      | None => Some []
      end
  | _ => Some []
  end.

Definition resolveLinks (resolvedURL : string) (links : list Node) : option (list Node) :=
  cloned ← mapM (resolveLink resolvedURL) links; Some (List.concat cloned).

(** 3c: the inline style of [doc.body.children[0]]. *)
Definition rootStyle (rootChildren : list Node) : option string :=
  match firstElement rootChildren with
  | Some rootElement =>
      match getAttribute "style" (nodeAttrs rootElement) with
      | Some inlineStyleAttr =>
          if negb (String.eqb inlineStyleAttr "") &&
             Nat.ltb 0 (String.length (JsString.trim inlineStyleAttr))
          then Some inlineStyleAttr else None
      | None => None
      end
  | None => None
  end.

(** [_processHTML] from the parsed document to the arguments of the frame
    callback, [doc.body.innerHTML] still as a tree. *)
Definition extract (doc : Document) (resolvedURL : string) : option Extracted :=
  (* 3a *)
  let styleElements := querySelectorAll sel_style doc in
  let css := List.map textContent styleElements in
  let doc := removeAll sel_style doc in
  (* 3b *)
  let linkElements := querySelectorAll sel_stylesheet_link doc in
  links ← resolveLinks resolvedURL linkElements;
  let doc := removeAll sel_stylesheet_link doc in
  (* 3c *)
  let host := rootStyle (body doc) in
  let doc :=
    match host with
    | Some _ => {| head := head doc;
                   body := updateFirstElement (removeAttribute "style") (body doc) |}
    | None => doc
    end in
  (* 3d *)
  let doc := _resolveRelativeURLs doc resolvedURL in
  Some {| extractedCSS := css; resolvedLinks := links;
          hostInlineStyle := host; content := doc |}.

End WithPlatform.
End Transform.

(** ** The component: static maps, instances, requests and continuations *)

Module Component.
Import Dom Transform.

(** The exceptions that reach [_beginLoad]'s [catch]; [error_name] is
    [error.name]. *)
Inductive JsError :=
| AbortError                                   (* the DOMException of an aborted fetch *)
| HttpError (status : N) (statusText : string) (* [new Error(`HTTP ${status} — ${statusText}`)] *)
| HttpStatus (status : N)                      (* [new Error(`HTTP ${r.status}`)], in [prefetch] *)
| TypeError (message : string).                (* network failure, [new URL] *)

Definition error_name (e : JsError) : string :=
  match e with
  | AbortError => "AbortError"
  | HttpError _ _ | HttpStatus _ => "Error"
  | TypeError _ => "TypeError"
  end.

(** What the network answers to a [fetch] that was not aborted. *)
Inductive Reply :=
| Response (status : N) (statusText : string) (text : string)
| NetworkFailure (message : string).

(** [response.ok] *)
Definition ok (status : N) : bool := ((200 <=? status) && (status <=? 299))%N.

Inductive Outcome :=
| Fulfilled (html : string)
| Rejected (error : JsError).

(** Who issued a [fetch]: tier 3 of [_fetchWithCache], or [prefetch]. *)
Inductive Origin := ViaCache | ViaPrefetch.

(** A [fetch] together with the promise built on it: in [_fetchWithCache]
    the promise [request] (the [then]/[then]/[catch] chain), in [prefetch]
    the promise that is awaited.  The request's index in [requests] names
    both the promise and, for [ViaCache], its [AbortController].
    [req_aborted] is [signal.aborted]. *)
Record Request := {
  req_url : string;
  req_origin : Origin;
  req_aborted : bool;
  req_result : option Outcome
}.

(** What [await this._fetchWithCache(url)] waits for: the cached text
    returned by tier 1, or the shared promise of tiers 2 and 3. *)
Inductive Awaited :=
| Ready (html : string)
| Shared (rid : nat).

(** [this.shadowRoot]'s content. *)
Inductive Shadow :=
| ShadowEmpty                                   (* after [attachShadow] *)
| ShadowPlaceholder                             (* [connectedCallback]'s style and slot *)
| ShadowInjected (scoped : option string) (links : list Node) (contentHTML : string).

Record Instance := {
  attributes : Attrs;
  shadowRoot : Shadow;
  _observer : option nat;
  _abortController : option nat;
  _hasLoaded : bool;
  _isConnected : bool
}.

(** Suspended code: [_beginLoad] at its [await], and the callback handed to
    [requestAnimationFrame]. *)
Inductive Task :=
| AwaitFetch (inst : nat) (src resolvedURL : string) (on : Awaited)
| Frame (inst : nat) (cssBlocks : list string) (linkElements : list Node)
        (contentHTML : string) (hostStyle : option string)
| Finished.

(** The two custom events, with their [detail]. *)
Inductive Signal :=
| Loaded (inst : nat) (src : option string) (stylesExtracted linksResolved : nat)
         (hostStyleApplied : bool)
| Errored (inst : nat) (error : JsError) (src : string).

(** An [IntersectionObserver]: the instance whose callback it holds, and
    whether it still observes (until [disconnect()]). *)
Record Observer := { obs_inst : nat; obs_active : bool }.

Record World := {
  _cache : gmap string string;
  _pending : gmap string nat;
  instances : list Instance;
  observers : list Observer;
  requests : list Request;
  tasks : list Task;
  signals : list Signal
}.

Definition initial : World :=
  {| _cache := ∅; _pending := ∅; instances := []; observers := [];
     requests := []; tasks := []; signals := [] |}.

(** *** Field updates *)

Definition set_cache (c : gmap string string) (w : World) : World :=
  {| _cache := c; _pending := _pending w; instances := instances w;
     observers := observers w; requests := requests w; tasks := tasks w;
     signals := signals w |}.

Definition set_pending (p : gmap string nat) (w : World) : World :=
  {| _cache := _cache w; _pending := p; instances := instances w;
     observers := observers w; requests := requests w; tasks := tasks w;
     signals := signals w |}.

Definition set_instances (l : list Instance) (w : World) : World :=
  {| _cache := _cache w; _pending := _pending w; instances := l;
     observers := observers w; requests := requests w; tasks := tasks w;
     signals := signals w |}.

Definition set_observers (l : list Observer) (w : World) : World :=
  {| _cache := _cache w; _pending := _pending w; instances := instances w;
     observers := l; requests := requests w; tasks := tasks w;
     signals := signals w |}.

Definition set_requests (l : list Request) (w : World) : World :=
  {| _cache := _cache w; _pending := _pending w; instances := instances w;
     observers := observers w; requests := l; tasks := tasks w;
     signals := signals w |}.

Definition set_tasks (l : list Task) (w : World) : World :=
  {| _cache := _cache w; _pending := _pending w; instances := instances w;
     observers := observers w; requests := requests w; tasks := l;
     signals := signals w |}.

Definition dispatchEvent (s : Signal) (w : World) : World :=
  {| _cache := _cache w; _pending := _pending w; instances := instances w;
     observers := observers w; requests := requests w; tasks := tasks w;
     signals := signals w ++ [s] |}.

Definition update (i : nat) (f : Instance -> Instance) (w : World) : World :=
  set_instances (alter f i (instances w)) w.

Definition with_attributes (a : Attrs) (x : Instance) : Instance :=
  {| attributes := a; shadowRoot := shadowRoot x; _observer := _observer x;
     _abortController := _abortController x; _hasLoaded := _hasLoaded x;
     _isConnected := _isConnected x |}.

Definition with_shadow (s : Shadow) (x : Instance) : Instance :=
  {| attributes := attributes x; shadowRoot := s; _observer := _observer x;
     _abortController := _abortController x; _hasLoaded := _hasLoaded x;
     _isConnected := _isConnected x |}.

Definition with_observer (o : option nat) (x : Instance) : Instance :=
  {| attributes := attributes x; shadowRoot := shadowRoot x; _observer := o;
     _abortController := _abortController x; _hasLoaded := _hasLoaded x;
     _isConnected := _isConnected x |}.

Definition with_abortController (c : option nat) (x : Instance) : Instance :=
  {| attributes := attributes x; shadowRoot := shadowRoot x; _observer := _observer x;
     _abortController := c; _hasLoaded := _hasLoaded x;
     _isConnected := _isConnected x |}.

Definition with_hasLoaded (b : bool) (x : Instance) : Instance :=
  {| attributes := attributes x; shadowRoot := shadowRoot x; _observer := _observer x;
     _abortController := _abortController x; _hasLoaded := b;
     _isConnected := _isConnected x |}.

Definition with_isConnected (b : bool) (x : Instance) : Instance :=
  {| attributes := attributes x; shadowRoot := shadowRoot x; _observer := _observer x;
     _abortController := _abortController x; _hasLoaded := _hasLoaded x;
     _isConnected := b |}.

(** [this.setAttribute(name, v)] by the component itself, on an attribute
    that is not observed. *)
Definition setOwnAttribute (i : nat) (name v : string) (w : World) : World :=
  update i (fun x => with_attributes (setAttribute name v (attributes x)) x) w.

Definition with_req_aborted (r : Request) : Request :=
  {| req_url := req_url r; req_origin := req_origin r; req_aborted := true;
     req_result := req_result r |}.

Definition with_req_result (o : Outcome) (r : Request) : Request :=
  {| req_url := req_url r; req_origin := req_origin r; req_aborted := req_aborted r;
     req_result := Some o |}.

(** The request that tier 3 of [_fetchWithCache] sends for [url]. *)
Definition freshRequest (url : string) : Request :=
  {| req_url := url; req_origin := ViaCache; req_aborted := false; req_result := None |}.

(** The constructor: a new instance, not yet connected. *)
Definition newInstance : Instance :=
  {| attributes := []; shadowRoot := ShadowEmpty; _observer := None;
     _abortController := None; _hasLoaded := false; _isConnected := false |}.

Definition construct (w : World) : World :=
  set_instances (instances w ++ [newInstance]) w.

(** A JavaScript string is truthy when it is not empty. *)
Definition truthy (s : option string) : option string :=
  match s with
  | Some v => if String.eqb v "" then None else Some v
  | None => None
  end.

Section WithPlatform.
Context `{Platform}.

(** *** Phase 1 and 2 *)

Definition _destroyObserver (i : nat) (w : World) : World :=
  match instances w !! i with
  | Some x =>
      match _observer x with
      | Some o =>
          update i (with_observer None)
            (set_observers
               (alter (fun ob => {| obs_inst := obs_inst ob; obs_active := false |}) o
                      (observers w)) w)
      | None => w
      end
  | None => w
  end.

Definition _abortFetch (i : nat) (w : World) : World :=
  match instances w !! i with
  | Some x =>
      match _abortController x with
      | Some rid =>
          update i (with_abortController None)
            (set_requests (alter with_req_aborted rid (requests w)) w)
      | None => w
      end
  | None => w
  end.

Definition _fetchWithCache (i : nat) (url : string) (w : World) : World * Awaited :=
  match _cache w !! url with
  | Some html => (w, Ready html)                               (* tier 1 *)
  | None =>
      match _pending w !! url with
      | Some rid => (w, Shared rid)                            (* tier 2 *)
      | None =>                                                (* tier 3 *)
          let rid := length (requests w) in
          let w := update i (with_abortController (Some rid)) w in
          let w := set_requests (requests w ++ [freshRequest url]) w in
          let w := set_pending (<[url := rid]> (_pending w)) w in
          (w, Shared rid)
      end
  end.

(** [_beginLoad] up to its [await].  The URL is resolved outside the [try]:
    when [new URL] throws, the call ends there, with the guard already set. *)
Definition _beginLoad (i : nat) (w : World) : World :=
  match instances w !! i with
  | Some x =>
      if _hasLoaded x then w
      else
        let w := update i (with_hasLoaded true) w in
        match truthy (getAttribute "src" (attributes x)) with
        | None => w
        | Some src =>
            match URL_href src baseURI with
            | None => w
            | Some resolvedURL =>
                let w := setOwnAttribute i "aria-busy" "true" w in
                let (w, on) := _fetchWithCache i resolvedURL w in
                set_tasks (tasks w ++ [AwaitFetch i src resolvedURL on]) w
            end
        end
  | None => w
  end.

Definition _initLoading (i : nat) (w : World) : World :=
  match instances w !! i with
  | Some x =>
      match truthy (getAttribute "src" (attributes x)) with
      | None => w
      | Some _ =>
          let mode := default "lazy" (truthy (getAttribute "loading" (attributes x))) in
          if String.eqb mode "eager" then _beginLoad i w
          else if hasIntersectionObserver then
            let o := length (observers w) in
            update i (with_observer (Some o))
              (set_observers (observers w ++ [{| obs_inst := i; obs_active := true |}]) w)
          else _beginLoad i w
      end
  | None => w
  end.

(** The observer's callback on an entry with [isIntersecting]. *)
Definition intersect (o : nat) (w : World) : World :=
  match observers w !! o with
  | Some ob => if obs_active ob then _beginLoad (obs_inst ob) (_destroyObserver (obs_inst ob) w)
               else w
  | None => w
  end.

(** *** Lifecycle *)

Definition connectedCallback (i : nat) (w : World) : World :=
  match instances w !! i with
  | Some x =>
      let w := update i (with_isConnected true) w in
      let w := if hasAttribute "role" (attributes x) then w
               else setOwnAttribute i "role" "presentation" w in
      let w := update i (with_shadow ShadowPlaceholder) w in
      _initLoading i w
  | None => w
  end.

Definition disconnectedCallback (i : nat) (w : World) : World :=
  _abortFetch i (_destroyObserver i (update i (with_isConnected false) w)).

Definition attributeChangedCallback (i : nat) (name : string)
    (oldValue newValue : option string) (w : World) : World :=
  if decide (oldValue = newValue) then w
  else match instances w !! i with
       | Some x =>
           let w := if String.eqb name "src" && _isConnected x
                    then _initLoading i (_abortFetch i (update i (with_hasLoaded false) w))
                    else w in
           if String.eqb name "loading" && _isConnected x
           then _initLoading i (_destroyObserver i w)
           else w
       | None => w
       end.

Definition observedAttributes : list string := ["src"; "loading"].

(** The page writes or removes an attribute of the host element; for an
    observed one the platform then calls [attributeChangedCallback]. *)
Definition changeAttribute (i : nat) (name : string) (v : option string) (w : World) : World :=
  match instances w !! i with
  | Some x =>
      let old := getAttribute name (attributes x) in
      let a := match v with
               | Some s => setAttribute name s (attributes x)
               | None => removeAttribute name (attributes x)
               end in
      let w := update i (with_attributes a) w in
      if bool_decide (name ∈ observedAttributes)
      then attributeChangedCallback i name old v w
      else w
  | None => w
  end.

(** *** The network answers

    The outcome of a request: [AbortError] once its signal is aborted,
    otherwise what the two [then] make of the reply. *)
Definition outcomeOf (r : Request) (reply : Reply) : Outcome :=
  if req_aborted r then Rejected AbortError
  else match reply with
       | Response status statusText text =>
           if ok status then Fulfilled text
           else Rejected (match req_origin r with
                          | ViaCache => HttpError status statusText
                          | ViaPrefetch => HttpStatus status
                          end)
       | NetworkFailure m => Rejected (TypeError m)
       end.

(** The handlers chained on the [fetch]: for [_fetchWithCache] the second
    [then] (store, drop the pending entry) or the [catch] (drop the pending
    entry, rethrow); for [prefetch] the code after its [await]. *)
Definition settle (rid : nat) (reply : Reply) (w : World) : World :=
  match requests w !! rid with
  | Some r =>
      match req_result r with
      | Some _ => w
      | None =>
          let o := outcomeOf r reply in
          let w := set_requests (alter (with_req_result o) rid (requests w)) w in
          match req_origin r, o with
          | ViaCache, Fulfilled html =>
              set_pending (delete (req_url r) (_pending w))
                (set_cache (<[req_url r := html]> (_cache w)) w)
          | ViaCache, Rejected _ =>
              set_pending (delete (req_url r) (_pending w)) w
          | ViaPrefetch, Fulfilled html =>
              set_cache (<[req_url r := html]> (_cache w)) w
          | ViaPrefetch, Rejected _ => w
          end
      end
  | None => w
  end.

(** What an [await] on [on] yields in [w]; [None] while the promise is
    pending. *)
Definition awaitOutcome (w : World) (on : Awaited) : option Outcome :=
  match on with
  | Ready html => Some (Fulfilled html)
  | Shared rid => r ← requests w !! rid; req_result r
  end.

(** *** Phase 3 and 4 *)

(** [_processHTML]: [None] when the extraction throws, otherwise the
    callback that was handed to [requestAnimationFrame]. *)
Definition _processHTML (i : nat) (rawHTML resolvedURL : string) : option Task :=
  let doc := parseFromString rawHTML in
  x ← extract doc resolvedURL;
  Some (Frame i (extractedCSS x) (resolvedLinks x) (innerHTML (body (content x)))
              (hostInlineStyle x)).

Definition newline2 : string := String "010" (String "010" EmptyString).

Definition _injectIntoShadow (i : nat) (cssBlocks : list string) (linkElements : list Node)
    (contentHTML : string) (hostStyle : option string) (w : World) : World :=
  match instances w !! i with
  | Some x =>
      let scoped := match cssBlocks with
                    | [] => None
                    | _ => Some (JsString.join newline2 cssBlocks)
                    end in
      let tag n := match n with
                   | Elem t a ch => Elem t (setAttribute "data-templastic" "external" a) ch
                   | _ => n
                   end in
      let w := update i (with_shadow (ShadowInjected scoped (List.map tag linkElements) contentHTML)) w in
      (* [this.style.cssText] is read and written through the [style] attribute *)
      let w := match truthy hostStyle with
               | Some hs =>
                   let merged := match truthy (getAttribute "style" (attributes x)) with
                                 | Some existing => existing ++ "; " ++ hs
                                 | None => hs
                                 end in
                   setOwnAttribute i "style" merged w
               | None => w
               end in
      let w := setOwnAttribute i "aria-busy" "false" w in
      let w := setOwnAttribute i "data-state" "loaded" w in
      dispatchEvent
        (Loaded i (getAttribute "src" (attributes x)) (length cssBlocks)
                (length linkElements)
                (match truthy hostStyle with Some _ => true | None => false end)) w
  | None => w
  end.

(** The [catch] of [_beginLoad]. *)
Definition failed (i : nat) (src : string) (error : JsError) (w : World) : World :=
  if String.eqb (error_name error) "AbortError" then w
  else
    let w := setOwnAttribute i "aria-busy" "false" w in
    let w := setOwnAttribute i "data-state" "error" w in
    dispatchEvent (Errored i error src) w.

(** [_beginLoad] from its [await] on. *)
Definition afterFetch (i : nat) (src resolvedURL : string) (o : Outcome) (w : World) : World :=
  match o with
  | Fulfilled rawHTML =>
      match instances w !! i with
      | Some x =>
          if negb (_isConnected x) then w
          else match _processHTML i rawHTML resolvedURL with
               | Some frame => set_tasks (tasks w ++ [frame]) w
               | None => failed i src (TypeError "Invalid URL") w
               end
      | None => w
      end
  | Rejected error => failed i src error w
  end.

(** A suspended [_beginLoad] resumes once what it awaits is settled. *)
Definition resume (tid : nat) (w : World) : World :=
  match tasks w !! tid with
  | Some (AwaitFetch i src resolvedURL on) =>
      match awaitOutcome w on with
      | Some o =>
          afterFetch i src resolvedURL o (set_tasks (<[tid := Finished]> (tasks w)) w)
      | None => w
      end
  | _ => w
  end.

(** The frame callback runs. *)
Definition animationFrame (tid : nat) (w : World) : World :=
  match tasks w !! tid with
  | Some (Frame i cssBlocks linkElements contentHTML hostStyle) =>
      let w := set_tasks (<[tid := Finished]> (tasks w)) w in
      match instances w !! i with
      | Some x =>
          if negb (_isConnected x) then w
          else _injectIntoShadow i cssBlocks linkElements contentHTML hostStyle w
      | None => w
      end
  | _ => w
  end.

(** *** Public API *)

Definition reload (i : nat) (w : World) : World :=
  match instances w !! i with
  | Some x =>
      match truthy (getAttribute "src" (attributes x)) with
      | None => w
      | Some src =>
          match URL_href src baseURI with
          | None => w
          | Some resolvedURL =>
              let w := set_cache (delete resolvedURL (_cache w)) w in
              let w := update i (with_hasLoaded false) w in
              let w := _destroyObserver i w in
              _beginLoad i w
          end
      end
  | None => w
  end.

Definition clearCache (w : World) : World :=
  set_pending ∅ (set_cache ∅ w).

(** [prefetch] up to its [await] (or to its [return] on a cache hit); the
    second component is what the caller's promise follows, [None] when
    [new URL] throws. *)
Definition prefetch (url : string) (w : World) : World * option Awaited :=
  match URL_href url baseURI with
  | None => (w, None)
  | Some resolvedURL =>
      match _cache w !! resolvedURL with
      | Some html => (w, Some (Ready html))
      | None =>
          let rid := length (requests w) in
          (set_requests
             (requests w ++
                [{| req_url := resolvedURL; req_origin := ViaPrefetch;
                    req_aborted := false; req_result := None |}]) w,
           Some (Shared rid))
      end
  end.

(** *** The scheduler

    One event is one run of component code to its next suspension: a call
    from the page or the platform, a network answer, or the resumption of a
    suspended continuation.  Events interleave in any order. *)
Inductive Event :=
| Construct
| SetAttribute (i : nat) (name value : string)
| RemoveAttribute (i : nat) (name : string)
| Connect (i : nat)
| Disconnect (i : nat)
| Intersect (o : nat)
| Reload (i : nat)
| ClearCache
| Prefetch (url : string)
| Settle (rid : nat) (reply : Reply)
| Resume (tid : nat)
| AnimationFrame (tid : nat).

Definition step (w : World) (e : Event) : World :=
  match e with
  | Construct => construct w
  | SetAttribute i name v => changeAttribute i name (Some v) w
  | RemoveAttribute i name => changeAttribute i name None w
  | Connect i => connectedCallback i w
  | Disconnect i => disconnectedCallback i w
  | Intersect o => intersect o w
  | Reload i => reload i w
  | ClearCache => clearCache w
  | Prefetch url => (prefetch url w).1
  | Settle rid reply => settle rid reply w
  | Resume tid => resume tid w
  | AnimationFrame tid => animationFrame tid w
  end.

Definition run (w : World) (es : list Event) : World := List.fold_left step es w.

(** Several instances call [_fetchWithCache] on one URL, one after the
    other, with nothing in between. *)
Fixpoint fetchAll (callers : list nat) (url : string) (w : World) : World * list Awaited :=
  match callers with
  | [] => (w, [])
  | i :: rest =>
      let (w1, on) := _fetchWithCache i url w in
      let (w2, ons) := fetchAll rest url w1 in
      (w2, on :: ons)
  end.

End WithPlatform.

(** An attribute of the host element of instance [i]. *)
Definition hostAttribute (i : nat) (name : string) (w : World) : option string :=
  x ← instances w !! i; getAttribute name (attributes x).

(** No URL is in both maps. *)
Definition exclusive (w : World) : Prop :=
  forall url, is_Some (_cache w !! url) -> _pending w !! url = None.

(** Every request of [_fetchWithCache] that is still in flight is the
    pending entry of its URL; so there is at most one per URL. *)
Definition singleFlight (w : World) : Prop :=
  forall rid r,
    requests w !! rid = Some r -> req_origin r = ViaCache -> req_result r = None ->
    _pending w !! req_url r = Some rid.

(** Request [rid] is one that [_fetchWithCache] sent for [url]. *)
Definition sentFor (w : World) (rid : nat) (url : string) : Prop :=
  exists r, requests w !! rid = Some r /\ req_url r = url /\ req_origin r = ViaCache.

(** Every pending entry, and every suspended [_beginLoad] that awaits a
    shared promise, holds a request that [_fetchWithCache] sent for its
    URL. *)
Definition linked (w : World) : Prop :=
  (forall url rid, _pending w !! url = Some rid -> sentFor w rid url) /\
  (forall tid i src url rid,
     tasks w !! tid = Some (AwaitFetch i src url (Shared rid)) -> sentFor w rid url).

(** The [templastic-loaded] events of instance [i]. *)
Definition isLoadedBy (i : nat) (s : Signal) : bool :=
  match s with
  | Loaded j _ _ _ _ => Nat.eqb i j
  | Errored _ _ _ => false
  end.

Definition loadedBy (i : nat) (l : list Signal) : list Signal :=
  List.filter (isLoadedBy i) l.

(** Whether instance [i] is connected, and what its shadow root shows. *)
Definition rendering (i : nat) (w : World) : option (bool * Shadow) :=
  (fun x => (_isConnected x, shadowRoot x)) <$> instances w !! i.

(** An update of an instance that leaves both alone. *)
Class Inert (f : Instance -> Instance) : Prop :=
  inert : forall x, _isConnected (f x) = _isConnected x /\ shadowRoot (f x) = shadowRoot x.

End Component.

(** ** A platform for the examples

    [exampleHref] rejects a scheme without a host, resolves any other
    reference that has a scheme to itself and the rest against the directory
    of the base, which is what the URL standard does for the plain file
    names the examples use; [exampleParse]
    reads text without markup; [exampleHTML] writes a tree without
    escaping. *)

Module Samples.
Import Dom.

Fixpoint dirname (s : string) : string :=
  match s with
  | EmptyString => EmptyString
  | String c s' =>
      match dirname s' with
      | EmptyString => if Ascii.eqb c "/" then String c EmptyString else EmptyString
      | d => String c d
      end
  end.

Definition exampleHref (v base : string) : option string :=
  if String.eqb v "https://" then None
  else if JsString.startsWith "https://" v then Some v
  else Some (dirname base ++ v).

Definition exampleParse (raw : string) : Document :=
  {| head := []; body := [Text raw] |}.

Fixpoint serialize (n : Node) : string :=
  match n with
  | Elem t a ch =>
      "<" ++ t ++
      String.concat "" (List.map (fun kv => " " ++ kv.1 ++ "='" ++ kv.2 ++ "'") a) ++
      ">" ++ String.concat "" (List.map serialize ch) ++ "</" ++ t ++ ">"
  | Text s => s
  | Comment s => "<!--" ++ s ++ "-->"
  | Contents ns => String.concat "" (List.map serialize ns)
  end.

Definition exampleHTML (ns : list Node) : string :=
  String.concat "" (List.map serialize ns).

Definition examplePlatform : Platform :=
  {| URL_href := exampleHref;
     baseURI := "https://x/";
     hasIntersectionObserver := true;
     parseFromString := exampleParse;
     innerHTML := exampleHTML |}.

(** Scenarios.  [oneLoading]: an eager instance is connected and waits for
    the request it sent.  [twoLoading]: a second eager instance with the same
    source is connected and waits for the same request. *)

Import Component.

Definition pageURL : string := "https://x/a.html".

Definition oneLoading : World :=
  @run examplePlatform initial
    [Construct; SetAttribute 0 "src" "a.html"; SetAttribute 0 "loading" "eager"; Connect 0].

Definition twoLoading : World :=
  @run examplePlatform oneLoading
    [Construct; SetAttribute 1 "src" "a.html"; SetAttribute 1 "loading" "eager"; Connect 1].

Definition answer : Reply := Response 200 "OK" "hello".

Definition notFound : Reply := Response 404 "Not Found" "".

(** Two instances that were constructed and nothing else; one instance
    with a source that was never connected. *)
Definition twoIdle : World := @run examplePlatform initial [Construct; Construct].

Definition idleWithSource : World :=
  @run examplePlatform initial [Construct; SetAttribute 0 "src" "a.html"].

Definition imgDocument : Document :=
  {| head := [];
     body := [Elem "img" [("srcset", "img.png 1x, img2.png 2x")] []] |}.

(** The two candidates of [imgDocument] as they are written there. *)
Definition imgCandidates : list Transform.Written :=
  [ {| Transform.lead := ""; Transform.url := "img.png";
       Transform.descriptors := [(" ", "1x")]; Transform.trail := "" |};
    {| Transform.lead := " "; Transform.url := "img2.png";
       Transform.descriptors := [(" ", "2x")]; Transform.trail := "" |} ].

Definition divDocument : Document :=
  {| head := [];
     body := [Elem "div" [("style", "color:red")] [Elem "p" [] [Text "hi"]]] |}.

(** A fragment with a style block in the head, one in the body, two
    stylesheet links (one without [href]), an image and a link. *)
Definition styledDocument : Document :=
  {| head := [Elem "style" [] [Text "p{}"]];
     body := [Elem "link" [("rel", "stylesheet"); ("href", "a.css")] [];
              Elem "div" [("class", "box")]
                [Elem "style" [] [Text "b{}"];
                 Elem "link" [("rel", "Stylesheet")] [];
                 Elem "img" [("src", "pic.png"); ("alt", "")] [];
                 Elem "a" [("href", "#top")] [Text "up"]]] |}.

(** A fragment with a [template] element: a style block, a stylesheet link
    and an image are inside its contents, an image is beside it. *)
Definition templateDocument : Document :=
  {| head := [];
     body := [Elem "div" []
                [Elem "template" []
                   [Contents [Elem "style" [] [Text "p{}"];
                              Elem "link" [("rel", "stylesheet"); ("href", "a.css")] [];
                              Elem "img" [("src", "in.png")] []]];
                 Elem "img" [("src", "out.png")] []]] |}.

(** A fragment with a stylesheet link whose [href] [new URL] rejects. *)
Definition brokenDocument : Document :=
  {| head := [];
     body := [Elem "link" [("rel", "stylesheet"); ("href", "https://")] [];
              Elem "p" [] [Text "hi"]] |}.

(** A platform whose parser knows two texts: "styled" is [styledDocument]
    and "broken" is [brokenDocument]. *)
Definition fragmentParse (raw : string) : Document :=
  if String.eqb raw "styled" then styledDocument
  else if String.eqb raw "broken" then brokenDocument
  else exampleParse raw.

Definition fragmentPlatform : Platform :=
  {| URL_href := exampleHref;
     baseURI := "https://x/";
     hasIntersectionObserver := true;
     parseFromString := fragmentParse;
     innerHTML := exampleHTML |}.

(** More scenarios.  [eagerIdle]: an eager instance with a source, not yet
    connected.  [lazyObserving]: a lazy instance is connected and observed.
    [oneFailed], [oneCached], [oneAnswered text]: the request of
    [oneLoading] was answered, with 404, with [answer], with [text].
    [withRole]: the page gave the instance a role.  [twoRequesters],
    [twoSources]: the events that connect two eager instances with the same
    source, with different sources. *)
Definition eagerIdle : World :=
  @run examplePlatform initial
    [Construct; SetAttribute 0 "src" "a.html"; SetAttribute 0 "loading" "eager"].

Definition lazyObserving : World := @run examplePlatform idleWithSource [Connect 0].

Definition oneFailed : World := @run examplePlatform oneLoading [Settle 0 notFound].

Definition oneCached : World := @run examplePlatform oneLoading [Settle 0 answer].

Definition oneAnswered (text : string) : World :=
  @run fragmentPlatform oneLoading [Settle 0 (Response 200 "OK" text)].

Definition withRole : World :=
  @run examplePlatform initial [Construct; SetAttribute 0 "role" "region"].

Definition twoRequesters : list Event :=
  [Construct; SetAttribute 0 "src" "a.html"; SetAttribute 0 "loading" "eager"; Connect 0;
   Construct; SetAttribute 1 "src" "a.html"; SetAttribute 1 "loading" "eager"; Connect 1].

Definition twoSources : list Event :=
  [Construct; SetAttribute 0 "src" "a.html"; SetAttribute 0 "loading" "eager"; Connect 0;
   Construct; SetAttribute 1 "src" "b.html"; SetAttribute 1 "loading" "eager"; Connect 1].

End Samples.

(** * Properties *)

(** ** Strings *)

Section StringFacts.
Import JsString.

Example trim_ex : trim "  a b  " = "a b".
Proof. reflexivity. Qed.

Example split_ex : split "," "a, b,," = ["a"; " b"; ""; ""].
Proof. reflexivity. Qed.

Example split_ws_ex : split_ws "img.png   1x" = ["img.png"; "1x"].
Proof. reflexivity. Qed.

Example split_ws_lead : split_ws " a " = [""; "a"; ""].
Proof. reflexivity. Qed.

Example split_ws_empty : split_ws "" = [""].
Proof. reflexivity. Qed.

Lemma append_empty_r s : s ++ "" = s.
Proof. induction s as [|c s IH]; [reflexivity|]. change (String c (s ++ "") = String c s). by rewrite IH. Qed.

Lemma append_assoc x y z : (x ++ y) ++ z = x ++ (y ++ z).
Proof.
  induction x as [|c x IH]; [reflexivity|].
  change (String c ((x ++ y) ++ z) = String c (x ++ (y ++ z))). by rewrite IH.
Qed.

Lemma split_nonempty sep s : split sep s <> [].
Proof.
  destruct s as [|c s]; simpl; [discriminate|].
  destruct (Ascii.eqb c sep); [discriminate|].
  destruct (split sep s); discriminate.
Qed.

Lemma split_ws_from_nonempty b s : split_ws_from b s <> [].
Proof.
  revert b; induction s as [|c s IH]; intros b; simpl; [discriminate|].
  destruct (is_space c).
  - destruct b; [apply IH | discriminate].
  - destruct (split_ws_from false s); discriminate.
Qed.

(** A string without the separator is one piece. *)
Lemma split_free sep s : mem sep s = false -> split sep s = [s].
Proof.
  induction s as [|c s IH]; simpl; [reflexivity|].
  rewrite Ascii.eqb_sym. intros Hm. apply orb_false_iff in Hm as [Hc Hs].
  rewrite Hc, (IH Hs). reflexivity.
Qed.

(** The first separator ends the first piece. *)
Lemma split_app sep x y :
  mem sep x = false -> split sep (x ++ String sep y) = x :: split sep y.
Proof.
  induction x as [|c x IH]; simpl.
  - intros _. rewrite Ascii.eqb_refl. reflexivity.
  - rewrite Ascii.eqb_sym. intros Hm. apply orb_false_iff in Hm as [Hc Hx].
    rewrite Hc, (IH Hx). reflexivity.
Qed.

Lemma mem_app c x y : mem c (x ++ y) = mem c x || mem c y.
Proof. induction x as [|d x IH]; simpl; [reflexivity|]. rewrite IH, orb_assoc. reflexivity. Qed.

Lemma has_space_app x y : has_space (x ++ y) = has_space x || has_space y.
Proof. induction x as [|d x IH]; simpl; [reflexivity|]. rewrite IH, orb_assoc. reflexivity. Qed.

(** Pieces without white space go through [split(/\s+/)] unchanged. *)
Lemma split_ws_from_token b t s :
  has_space t = false -> t <> "" ->
  split_ws_from b (t ++ s) =
    match split_ws_from false s with
    | h :: tl => (t ++ h) :: tl
    | [] => [t]
    end.
Proof.
  revert b. induction t as [|c t IH]; intros b Hs Hne; [congruence|].
  simpl in Hs. apply orb_false_iff in Hs as [Hc Ht]. simpl. rewrite Hc.
  destruct t as [|d t].
  - change ("" ++ s) with s. destruct (split_ws_from false s) eqn:E; [|reflexivity].
    exfalso; exact (split_ws_from_nonempty _ _ E).
  - rewrite (IH false Ht ltac:(discriminate)).
    destruct (split_ws_from false s) eqn:E; [|reflexivity].
    exfalso; exact (split_ws_from_nonempty _ _ E).
Qed.

Lemma split_ws_token t : has_space t = false -> t <> "" -> split_ws t = [t].
Proof.
  intros Hs Hne. unfold split_ws.
  rewrite <- (append_empty_r t) at 1.
  rewrite (split_ws_from_token false t "" Hs Hne). simpl.
  rewrite append_empty_r. reflexivity.
Qed.

End StringFacts.

Section SrcsetFacts.
Import JsString.

Lemma trimStart_token t s : has_space t = false -> t <> "" -> trimStart (t ++ s) = t ++ s.
Proof.
  destruct t as [|c t]; [congruence|]. simpl. intros Hs _.
  apply orb_false_iff in Hs as [Hc _].
  change (String c t ++ s) with (String c (t ++ s)). simpl. by rewrite Hc.
Qed.

Lemma trimEnd_token t : has_space t = false -> trimEnd t = t.
Proof.
  induction t as [|c t IH]; [reflexivity|]. simpl. intros Hs.
  apply orb_false_iff in Hs as [Hc Ht]. rewrite (IH Ht), Hc. by destruct t.
Qed.

(** What ends with a trimmed, non-empty string is trimmed at its end. *)
Lemma trimEnd_app x y : trimEnd y = y -> y <> "" -> trimEnd (x ++ y) = x ++ y.
Proof.
  intros Hy Hne. induction x as [|c x IH]; [exact Hy|].
  change (String c x ++ y) with (String c (x ++ y)). simpl. rewrite IH.
  destruct (x ++ y) eqn:E; [|reflexivity].
  destruct x; [change ("" ++ y) with y in E; congruence | discriminate].
Qed.

(** White space at either end goes away, and is no comma. *)
Lemma trimStart_blank g s : blank g = true -> trimStart (g ++ s) = trimStart s.
Proof.
  induction g as [|c g IH]; [done|]. simpl. intros Hg.
  apply andb_true_iff in Hg as [Hc Hg].
  change (String c g ++ s) with (String c (g ++ s)). simpl. rewrite Hc. by apply IH.
Qed.

Lemma trimEnd_blank_only g : blank g = true -> trimEnd g = "".
Proof.
  induction g as [|c g IH]; [done|]. simpl. intros Hg.
  apply andb_true_iff in Hg as [Hc Hg]. by rewrite (IH Hg), Hc.
Qed.

Lemma trimEnd_blank s g : blank g = true -> trimEnd (s ++ g) = trimEnd s.
Proof.
  intros Hg. induction s as [|c s IH]; [by apply trimEnd_blank_only|].
  change (String c s ++ g) with (String c (s ++ g)). simpl. by rewrite IH.
Qed.

Lemma space_not_comma c : is_space c = true -> Ascii.eqb "," c = false.
Proof. intros Hc. destruct (Ascii.eqb_spec "," c) as [<-|]; [discriminate Hc | done]. Qed.

Lemma blank_no_comma g : blank g = true -> mem "," g = false.
Proof.
  induction g as [|c g IH]; [done|]. cbn [mem blank]. intros Hg.
  apply andb_true_iff in Hg as [Hc Hg]. by rewrite (space_not_comma c Hc), (IH Hg).
Qed.

(** Inside a run of white space [split(/\s+/)] skips; a run that starts
    closes the piece before it. *)
Lemma split_ws_skip g s : blank g = true -> split_ws_from true (g ++ s) = split_ws_from true s.
Proof.
  induction g as [|c g IH]; [done|]. simpl. intros Hg.
  apply andb_true_iff in Hg as [Hc Hg].
  change (String c g ++ s) with (String c (g ++ s)). simpl. rewrite Hc. by apply IH.
Qed.

Lemma split_ws_gap g s :
  blank g = true -> g <> "" ->
  split_ws_from false (g ++ s) = "" :: split_ws_from true s.
Proof.
  destruct g as [|c g]; [done|]. simpl. intros Hg _.
  apply andb_true_iff in Hg as [Hc Hg].
  change (String c g ++ s) with (String c (g ++ s)). simpl. rewrite Hc.
  by rewrite split_ws_skip.
Qed.

(** Pieces joined by commas come apart at the commas. *)
Lemma split_comma_join (items : list string) :
  items <> [] -> Forall (fun x => mem "," x = false) items ->
  split "," (String.concat "," items) = items.
Proof.
  induction items as [|x items IH]; [congruence|]. intros _ Hall.
  apply Forall_cons in Hall as [Hx Hall]. destruct items as [|y items].
  - simpl. by apply split_free.
  - change (String.concat "," (x :: y :: items))
      with (x ++ String "," (String.concat "," (y :: items))).
    rewrite split_app by done. f_equal. by apply IH.
Qed.

End SrcsetFacts.

(** ** The document tree *)

Section DomFacts.
Import Dom.

Lemma Node_forest_ind (P : Node -> Prop) :
  (forall t a ch, Forall P ch -> P (Elem t a ch)) ->
  (forall s, P (Text s)) -> (forall s, P (Comment s)) ->
  (forall ns, P (Contents ns)) ->
  forall n, P n.
Proof.
  intros He Ht Hc Hf. fix IH 1. intros [t a ch|s|s|ns]; [|apply Ht|apply Hc|apply Hf].
  apply He. induction ch as [|c ch IHch]; constructor; [apply IH | exact IHch].
Qed.

Lemma getAttribute_set_eq name v a : getAttribute name (setAttribute name v a) = Some v.
Proof.
  induction a as [|[k w] a IH]; simpl.
  - by rewrite String.eqb_refl.
  - destruct (String.eqb k name) eqn:E; simpl; rewrite E; [reflexivity | exact IH].
Qed.

Lemma getAttribute_set_ne name other v a :
  other <> name -> getAttribute name (setAttribute other v a) = getAttribute name a.
Proof.
  intros Hne. induction a as [|[k w] a IH]; simpl.
  - destruct (String.eqb_spec other name); [congruence | reflexivity].
  - destruct (String.eqb_spec k other) as [->|Hk]; simpl.
    + destruct (String.eqb_spec other name); [congruence | reflexivity].
    + destruct (String.eqb k name); [reflexivity | exact IH].
Qed.

Lemma getAttribute_remove name a : getAttribute name (removeAttribute name a) = None.
Proof.
  induction a as [|[k w] a IH]; simpl; [reflexivity|].
  destruct (String.eqb k name) eqn:E; simpl; [exact IH | by rewrite E].
Qed.

Lemma firstElement_prune q ns t a ch :
  firstElement ns = Some (Elem t a ch) -> q t a = false ->
  firstElement (List.flat_map (prune q) ns) = Some (Elem t a (List.flat_map (prune q) ch)).
Proof.
  intros Hf Hq. induction ns as [|n ns IH]; [discriminate|].
  destruct n as [t' a' ch'|s|s|s]; simpl in *; [|by apply IH..].
  injection Hf as -> -> ->. by rewrite Hq.
Qed.

Lemma firstElement_update f ns t a ch :
  firstElement ns = Some (Elem t a ch) ->
  firstElement (updateFirstElement f ns) = Some (Elem t (f a) ch).
Proof.
  intros Hf. induction ns as [|n ns IH]; [discriminate|].
  destruct n as [t' a' ch'|s|s|s]; simpl in *; [|by apply IH..].
  by injection Hf as -> -> ->.
Qed.

Lemma firstElement_map f ns t a ch :
  firstElement ns = Some (Elem t a ch) ->
  firstElement (List.map (mapAttrs f) ns) =
    Some (Elem t (f t a) (List.map (mapAttrs f) ch)).
Proof.
  intros Hf. induction ns as [|n ns IH]; [discriminate|].
  destruct n as [t' a' ch'|s|s|s]; simpl in *; [|by apply IH..].
  by injection Hf as -> -> ->.
Qed.

(** Rewriting attributes keeps the elements where they are. *)
Lemma elements_mapAttrs f n :
  elements (mapAttrs f n) = List.map (fun ta => (ta.1, f ta.1 ta.2)) (elements n).
Proof.
  induction n as [t a ch IH|s|s|s] using Node_forest_ind; [|reflexivity..].
  simpl. f_equal. induction IH as [|c ch Hc _ IHch]; [reflexivity|].
  simpl. rewrite List.map_app, Hc, IHch. reflexivity.
Qed.

Lemma elements_map_forest f ns :
  List.flat_map elements (List.map (mapAttrs f) ns) =
  List.map (fun ta => (ta.1, f ta.1 ta.2)) (List.flat_map elements ns).
Proof.
  induction ns as [|n ns IH]; [reflexivity|].
  simpl. by rewrite List.map_app, elements_mapAttrs, IH.
Qed.

Lemma documentElements_map f d :
  documentElements (mapDocument f d) =
  List.map (fun ta => (ta.1, f ta.1 ta.2)) (documentElements d).
Proof.
  unfold documentElements, mapDocument. simpl.
  by rewrite List.map_app, !elements_map_forest.
Qed.

End DomFacts.

(** ** The content transformer *)

Section TransformFacts.
Import Dom Transform.
Context `{Platform}.

Lemma resolve_elements_rows rows doc baseURL :
  documentElements
    (List.fold_left (fun d row => mapDocument (rewriteElement baseURL row) d) rows doc) =
  List.map (fun ta => (ta.1, List.fold_left (fun a row => rewriteElement baseURL row ta.1 a) rows ta.2))
           (documentElements doc).
Proof.
  revert doc. induction rows as [|row rows IH]; intros doc; simpl.
  - rewrite <- (List.map_id (documentElements doc)) at 1.
    apply List.map_ext. by intros [].
  - rewrite IH, documentElements_map, List.map_map. reflexivity.
Qed.

(** [_resolveRelativeURLs] visits every element once per row and changes
    nothing but attributes. *)
Lemma resolve_elements doc baseURL :
  documentElements (_resolveRelativeURLs doc baseURL) =
  List.map (fun ta => (ta.1, rewriteAll baseURL ta.1 ta.2)) (documentElements doc).
Proof. apply resolve_elements_rows. Qed.

Lemma rewriteAttr_other name attr baseURL a :
  attr <> name -> getAttribute name (rewriteAttr attr baseURL a) = getAttribute name a.
Proof.
  intros Hne. unfold rewriteAttr.
  destruct (getAttribute attr a); [|reflexivity].
  destruct (skipped s); [reflexivity|].
  destruct (resolveValue attr baseURL s); [|reflexivity].
  by apply getAttribute_set_ne.
Qed.

Lemma rewriteElement_other name baseURL row t a :
  row.1 <> name -> getAttribute name (rewriteElement baseURL row t a) = getAttribute name a.
Proof.
  intros Hne. unfold rewriteElement. destruct (row.2 t a); [|reflexivity].
  by apply rewriteAttr_other.
Qed.

Lemma token_of_isToken s : isToken s = true -> JsString.token s /\ JsString.mem "," s = false.
Proof.
  unfold isToken. intros Hs.
  apply andb_true_iff in Hs as [Hs Hc]. apply andb_true_iff in Hs as [Hs1 Hs2].
  apply negb_true_iff in Hs1, Hs2, Hc. split; [split; [exact Hs2|] | exact Hc].
  by destruct (String.eqb_spec s "").
Qed.

Lemma core_trimmed t ds :
  JsString.token t -> Forall okDescriptor ds ->
  JsString.trimEnd (t ++ writeDescriptors ds) = t ++ writeDescriptors ds /\
  t ++ writeDescriptors ds <> "".
Proof.
  intros Ht Hds. revert t Ht. induction Hds as [|[g d] ds (Hg & Hne & Hd) _ IH]; intros t [Hs Ht].
  - simpl. rewrite append_empty_r. split; [by apply trimEnd_token | done].
  - cbn [writeDescriptors]. destruct (IH d Hd) as [IH1 IH2]. split.
    + rewrite <- (append_assoc t g). by apply trimEnd_app.
    + destruct t; [done | discriminate].
Qed.

Lemma core_pieces b t ds :
  JsString.token t -> Forall okDescriptor ds ->
  JsString.split_ws_from b (t ++ writeDescriptors ds) = t :: List.map snd ds.
Proof.
  intros Ht Hds. revert b t Ht.
  induction Hds as [|[g d] ds (Hg & Hne & Hd) _ IH]; intros b t [Hs Ht].
  - simpl. rewrite split_ws_from_token by done. simpl. by rewrite append_empty_r.
  - cbn [writeDescriptors List.map snd]. rewrite split_ws_from_token by done.
    rewrite split_ws_gap by done. rewrite (IH true d Hd). by rewrite append_empty_r.
Qed.

Lemma wellWritten_inv e :
  wellWritten e = true ->
  JsString.blank (lead e) = true /\ JsString.blank (trail e) = true /\
  JsString.token (url e) /\ JsString.mem "," (url e) = false /\
  Forall okDescriptor (descriptors e) /\
  Forall (fun gd => JsString.mem "," gd.1 = false /\ JsString.mem "," gd.2 = false)
         (descriptors e).
Proof.
  unfold wellWritten. intros Hw.
  apply andb_true_iff in Hw as [Hw Hds]. apply andb_true_iff in Hw as [Hw Hu].
  apply andb_true_iff in Hw as [Hl Ht].
  destruct (token_of_isToken _ Hu) as [Hu1 Hu2].
  repeat (split; [done|]).
  rewrite forallb_forall in Hds.
  split; apply Forall_forall; intros gd Hin; apply list_elem_of_In, Hds in Hin;
    apply andb_true_iff in Hin as [Hin Hd]; apply andb_true_iff in Hin as [Hg Hne];
    destruct (token_of_isToken _ Hd) as [Hd1 Hd2].
  - split; [done|]. split; [|done]. apply negb_true_iff in Hne.
    by destruct (String.eqb_spec gd.1 "").
  - split; [by apply blank_no_comma | done].
Qed.

Lemma writeDescriptors_no_comma ds :
  Forall (fun gd => JsString.mem "," gd.1 = false /\ JsString.mem "," gd.2 = false) ds ->
  JsString.mem "," (writeDescriptors ds) = false.
Proof.
  induction 1 as [|[g d] ds [Hg Hd] _ IH]; [done|]. cbn [writeDescriptors].
  simpl in Hg, Hd. by rewrite !mem_app, Hg, Hd, IH.
Qed.

Lemma write_no_comma e : wellWritten e = true -> JsString.mem "," (write e) = false.
Proof.
  intros Hw. destruct (wellWritten_inv e Hw) as (Hl & Ht & _ & Hu & _ & Hds).
  unfold write. rewrite !mem_app, (blank_no_comma _ Hl), (blank_no_comma _ Ht), Hu.
  by rewrite writeDescriptors_no_comma.
Qed.

Lemma trim_write e :
  wellWritten e = true ->
  JsString.trim (write e) = url e ++ writeDescriptors (descriptors e).
Proof.
  intros Hw. destruct (wellWritten_inv e Hw) as (Hl & Ht & Hu & _ & Hds & _).
  unfold write, JsString.trim. rewrite trimStart_blank by done.
  rewrite <- append_assoc. destruct Hu as [Hu1 Hu2].
  rewrite append_assoc, trimStart_token by done. rewrite <- append_assoc.
  rewrite trimEnd_blank by done. by apply core_trimmed.
Qed.

(** One entry: the URL becomes absolute, the descriptors follow after one
    space each. *)
Lemma resolveEntry_write baseURL e u :
  wellWritten e = true -> URL_href (url e) baseURL = Some u ->
  resolveEntry baseURL (write e) = Some (renderCandidate (rewritten e u)).
Proof.
  intros Hw Hu. destruct (wellWritten_inv e Hw) as (_ & _ & Ht & _ & Hds & _).
  unfold resolveEntry. rewrite trim_write by done.
  unfold JsString.split_ws. rewrite core_pieces by done.
  cbn beta iota. rewrite Hu. reflexivity.
Qed.

(** The [srcset] branch on a list of candidates: every URL is replaced by
    its absolute form; descriptors and order stay. *)
Lemma resolveValue_srcset baseURL (es : list Written) abs :
  es <> [] ->
  Forall (fun e => wellWritten e = true) es ->
  Forall2 (fun e u => URL_href (url e) baseURL = Some u) es abs ->
  resolveValue "srcset" baseURL (writeSrcset es) =
    Some (renderSrcset (zip_with rewritten es abs)).
Proof.
  intros Hne Hwf Habs. unfold resolveValue, writeSrcset, JsString.join.
  change (String.eqb "srcset" "srcset") with true. cbn iota.
  rewrite split_comma_join.
  2:{ by destruct es. }
  2:{ apply Forall_forall. intros x Hx.
      apply list_elem_of_In, List.in_map_iff in Hx as (e & <- & He).
      apply write_no_comma. rewrite Forall_forall in Hwf. apply Hwf.
      by apply list_elem_of_In. }
  assert (E : mapM (resolveEntry baseURL) (List.map write es) =
              Some (List.map renderCandidate (zip_with rewritten es abs))).
  { apply mapM_Some_2. clear Hne.
    induction Habs as [|e u es abs Hu _ IH]; [constructor|].
    apply Forall_cons in Hwf as [He Hwf]. simpl. constructor; [|by apply IH].
    by apply resolveEntry_write. }
  rewrite E. reflexivity.
Qed.

Lemma rewriteAll_srcset baseURL t a (es : list Written) abs :
  getAttribute "srcset" a = Some (writeSrcset es) ->
  skipped (writeSrcset es) = false ->
  Forall (fun e => wellWritten e = true) es ->
  Forall2 (fun e u => URL_href (url e) baseURL = Some u) es abs ->
  getAttribute "srcset" (rewriteAll baseURL t a) =
    Some (renderSrcset (zip_with rewritten es abs)).
Proof.
  intros Hget Hskip Hwf Habs.
  assert (Hne : es <> []) by (intros ->; discriminate Hskip).
  unfold rewriteAll, selectors. cbn [List.fold_left].
  rewrite rewriteElement_other by discriminate.
  match goal with |- getAttribute _ (rewriteElement _ _ _ ?x) = _ => set (a3 := x) end.
  assert (H3 : getAttribute "srcset" a3 = Some (writeSrcset es)).
  { unfold a3. by rewrite !rewriteElement_other by discriminate. }
  clearbody a3.
  unfold rewriteElement at 1. cbn [fst snd]. unfold hasAttribute. rewrite H3.
  unfold rewriteAttr. rewrite H3, Hskip.
  rewrite (resolveValue_srcset baseURL es abs) by done.
  apply getAttribute_set_eq.
Qed.

(** C9. Take any element of the parsed document whose [srcset] is a list
    of candidates separated by commas, each a URL followed by descriptors,
    with any white space around and between the pieces (the pieces
    themselves hold no white space and no comma).  If the value is not held
    back by the guard on empty, [data:] and [#] values and [new URL]
    accepts every URL, the element leaves [_resolveRelativeURLs] at the same
    place with each candidate's URL made absolute against the base, its
    descriptors kept, and the candidates in the same order.  With [img.png]
    and [img2.png] resolving against [https://x/dir/page.html] as the URL
    standard says, [srcset="img.png 1x, img2.png 2x"] becomes
    ["https://x/dir/img.png 1x, https://x/dir/img2.png 2x"]. *)
Theorem srcset_candidates_made_absolute :
  (forall doc baseURL k t a (es : list Written) abs,
     documentElements doc !! k = Some (t, a) ->
     getAttribute "srcset" a = Some (writeSrcset es) ->
     skipped (writeSrcset es) = false ->
     Forall (fun e => wellWritten e = true) es ->
     Forall2 (fun e u => URL_href (url e) baseURL = Some u) es abs ->
     exists a',
       documentElements (_resolveRelativeURLs doc baseURL) !! k = Some (t, a') /\
       getAttribute "srcset" a' = Some (renderSrcset (zip_with rewritten es abs))) /\
  (URL_href "img.png" "https://x/dir/page.html" = Some "https://x/dir/img.png" ->
   URL_href "img2.png" "https://x/dir/page.html" = Some "https://x/dir/img2.png" ->
   _resolveRelativeURLs
     {| head := []; body := [Elem "img" [("srcset", "img.png 1x, img2.png 2x")] []] |}
     "https://x/dir/page.html" =
     {| head := [];
        body := [Elem "img" [("srcset", "https://x/dir/img.png 1x, https://x/dir/img2.png 2x")] []] |}).
Proof.
  split.
  - intros doc baseURL k t a es abs Hk Hget Hskip Hwf Habs.
    exists (rewriteAll baseURL t a). split.
    + rewrite resolve_elements.
      change (List.map ?f ?l) with (f <$> l).
      rewrite list_lookup_fmap, Hk. reflexivity.
    + by apply (rewriteAll_srcset baseURL t a es abs).
  - intros H1 H2. unfold _resolveRelativeURLs, selectors, mapDocument.
    cbn [List.fold_left head body List.map mapAttrs].
    unfold rewriteElement. cbn [fst snd]. cbn -[URL_href].
    assert (E1 : resolveEntry "https://x/dir/page.html" "img.png 1x" =
                 Some "https://x/dir/img.png 1x").
    { unfold resolveEntry.
      change (JsString.split_ws (JsString.trim "img.png 1x")) with ["img.png"; "1x"].
      cbn beta iota. by rewrite H1. }
    assert (E2 : resolveEntry "https://x/dir/page.html" " img2.png 2x" =
                 Some "https://x/dir/img2.png 2x").
    { unfold resolveEntry.
      change (JsString.split_ws (JsString.trim " img2.png 2x")) with ["img2.png"; "2x"].
      cbn beta iota. by rewrite H2. }
    rewrite E1, E2. reflexivity.
Qed.

Lemma resolve_body_rows rows doc baseURL :
  body (List.fold_left (fun d row => mapDocument (rewriteElement baseURL row) d) rows doc) =
  List.fold_left (fun b row => List.map (mapAttrs (rewriteElement baseURL row)) b) rows (body doc).
Proof. revert doc. induction rows as [|row rows IH]; intros doc; [reflexivity|]. simpl. by rewrite IH. Qed.

Lemma firstElement_rows rows baseURL ns t a ch :
  firstElement ns = Some (Elem t a ch) ->
  exists ch',
    firstElement (List.fold_left (fun b row => List.map (mapAttrs (rewriteElement baseURL row)) b) rows ns) =
    Some (Elem t (List.fold_left (fun a row => rewriteElement baseURL row t a) rows a) ch').
Proof.
  revert ns a ch. induction rows as [|row rows IH]; intros ns a ch Hf; simpl.
  - by exists ch.
  - eapply IH. by apply firstElement_map.
Qed.

Lemma rewriteAll_style baseURL t a :
  getAttribute "style" (rewriteAll baseURL t a) = getAttribute "style" a.
Proof.
  unfold rewriteAll, selectors. cbn [List.fold_left].
  by rewrite !rewriteElement_other by discriminate.
Qed.

Lemma resolveLinks_total resolvedURL links :
  Forall (fun l => forall href, getAttribute "href" (nodeAttrs l) = Some href ->
                                href <> "" -> is_Some (URL_href href resolvedURL)) links ->
  is_Some (resolveLinks resolvedURL links).
Proof.
  intros Hall. unfold resolveLinks.
  assert (Hm : is_Some (mapM (resolveLink resolvedURL) links)).
  { apply mapM_is_Some_2. eapply Forall_impl; [exact Hall|]. intros l Hl. simpl.
    destruct l as [t a ch|s|s|s]; simpl; [|done..].
    simpl in Hl. destruct (getAttribute "href" a) as [href|]; [|done].
    destruct (String.eqb_spec href ""); [done|].
    destruct (Hl href eq_refl n) as [u ->]. done. }
  destruct Hm as [k ->]. done.
Qed.

Lemma rootStyle_first ns t a ch s :
  firstElement ns = Some (Elem t a ch) ->
  getAttribute "style" a = Some s -> JsString.trim s <> "" ->
  rootStyle ns = Some s.
Proof.
  intros Hf Hs Ht. unfold rootStyle. rewrite Hf. simpl. rewrite Hs.
  destruct (String.eqb_spec s "") as [->|_]; [by destruct Ht|].
  destruct (JsString.trim s); [done|reflexivity].
Qed.

Lemma mapAttrs_compose f g n :
  mapAttrs g (mapAttrs f n) = mapAttrs (fun t a => g t (f t a)) n.
Proof.
  induction n as [t a ch IH|s|s|s] using Node_forest_ind; [|reflexivity..].
  cbn [mapAttrs]. f_equal. rewrite List.map_map.
  induction IH as [|c ch Hc _ IHch]; [reflexivity|]. cbn [List.map]. by rewrite Hc, IHch.
Qed.

Lemma mapAttrs_id n : mapAttrs (fun _ a => a) n = n.
Proof.
  induction n as [t a ch IH|s|s|s] using Node_forest_ind; [|reflexivity..].
  cbn [mapAttrs]. f_equal.
  induction IH as [|c ch Hc _ IHch]; [reflexivity|]. cbn [List.map]. by rewrite Hc, IHch.
Qed.

Lemma rows_on_forest baseURL rows g ns :
  List.fold_left (fun b row => List.map (mapAttrs (rewriteElement baseURL row)) b) rows
                 (List.map (mapAttrs g) ns) =
  List.map (mapAttrs (fun t a =>
                        List.fold_left (fun a row => rewriteElement baseURL row t a) rows (g t a)))
           ns.
Proof.
  revert g. induction rows as [|row rows IH]; intros g; [reflexivity|].
  cbn [List.fold_left]. rewrite List.map_map.
  rewrite (List.map_ext _ _ (mapAttrs_compose g (rewriteElement baseURL row))).
  apply (IH (fun t a => rewriteElement baseURL row t (g t a))).
Qed.

(** Step 3d on the body: every element gets all rows of the table. *)
Lemma resolve_body doc baseURL :
  body (_resolveRelativeURLs doc baseURL) = List.map (mapAttrs (rewriteAll baseURL)) (body doc).
Proof.
  unfold _resolveRelativeURLs. rewrite resolve_body_rows.
  rewrite <- (List.map_id (body doc)) at 1.
  rewrite <- (List.map_ext _ _ mapAttrs_id). apply rows_on_forest.
Qed.

(** C8. Step 3c reads [doc.body.children[0]] of the tree that steps 3a and
    3b left.  When that first element child carries a style attribute that
    is not blank, and the stylesheet links of the document resolve, the
    extraction succeeds and records the declaration as [hostInlineStyle];
    the body that is handed on is the body of that tree with the style
    attribute removed from its first element child and from nothing else,
    and step 3d applied: its first element child is that same element, with
    the same children, and has no style attribute.  For a parsed body whose
    first element child is neither a style block nor a stylesheet link,
    that child is the element step 3c reads.  Only that element is looked
    at: when it has no style attribute, or a blank one, there is no host
    style and no style attribute is removed, whatever its siblings carry.
    For the body <div style="color:red"><p>hi</p></div> the host style is
    "color:red" and the content is <div><p>hi</p></div>. *)
Theorem root_inline_style_moves_to_host :
  (forall doc resolvedURL t a ch s,
     let cleaned := removeAll sel_stylesheet_link (removeAll sel_style doc) in
     Forall (fun l => forall href, getAttribute "href" (nodeAttrs l) = Some href ->
                                   href <> "" -> is_Some (URL_href href resolvedURL))
            (querySelectorAll sel_stylesheet_link (removeAll sel_style doc)) ->
     firstElement (body cleaned) = Some (Elem t a ch) ->
     getAttribute "style" a = Some s -> JsString.trim s <> "" ->
     exists x,
       extract doc resolvedURL = Some x /\
       hostInlineStyle x = Some s /\
       body (content x) =
         List.map (mapAttrs (rewriteAll resolvedURL))
                  (updateFirstElement (removeAttribute "style") (body cleaned)) /\
       firstElement (body (content x)) =
         Some (Elem t (rewriteAll resolvedURL t (removeAttribute "style" a))
                    (List.map (mapAttrs (rewriteAll resolvedURL)) ch)) /\
       getAttribute "style" (rewriteAll resolvedURL t (removeAttribute "style" a)) = None) /\
  (forall doc t a ch,
     firstElement (body doc) = Some (Elem t a ch) ->
     sel_style t a = false -> sel_stylesheet_link t a = false ->
     firstElement (body (removeAll sel_stylesheet_link (removeAll sel_style doc))) =
       Some (Elem t a (List.flat_map (prune sel_stylesheet_link)
                         (List.flat_map (prune sel_style) ch)))) /\
  (forall doc resolvedURL t a ch x,
     let cleaned := removeAll sel_stylesheet_link (removeAll sel_style doc) in
     firstElement (body cleaned) = Some (Elem t a ch) ->
     (forall s, getAttribute "style" a = Some s -> JsString.trim s = "") ->
     extract doc resolvedURL = Some x ->
     hostInlineStyle x = None /\
     content x = _resolveRelativeURLs cleaned resolvedURL) /\
  (forall resolvedURL,
     extract {| head := [];
                body := [Elem "div" [("style", "color:red")] [Elem "p" [] [Text "hi"]]] |}
             resolvedURL =
     Some {| extractedCSS := []; resolvedLinks := [];
             hostInlineStyle := Some "color:red";
             content := {| head := [];
                           body := [Elem "div" [] [Elem "p" [] [Text "hi"]]] |} |}).
Proof.
  split; [|split; [|split]].
  - intros doc resolvedURL t a ch s cleaned Hlinks Hf Hs Ht.
    unfold extract.
    destruct (resolveLinks_total _ _ Hlinks) as [links ->]. cbn [mbind option_bind].
    fold cleaned. rewrite (rootStyle_first _ _ _ _ _ Hf Hs Ht).
    eexists. split; [reflexivity|]. split; [reflexivity|].
    cbn [content]. rewrite resolve_body. cbn [body].
    split; [reflexivity|]. split.
    + apply (firstElement_map (rewriteAll resolvedURL)).
      by apply firstElement_update.
    + rewrite rewriteAll_style. apply getAttribute_remove.
  - intros doc t a ch Hf Hst Hln. unfold removeAll. cbn [body].
    apply firstElement_prune; [|done]. by apply firstElement_prune.
  - intros doc resolvedURL t a ch x cleaned Hf Hs Hx.
    unfold extract in Hx.
    destruct (resolveLinks _ _) as [links|]; [|discriminate]. cbn [mbind option_bind] in Hx.
    fold cleaned in Hx.
    assert (Hroot : rootStyle (body cleaned) = None).
    { unfold rootStyle. rewrite Hf. cbn [nodeAttrs].
      destruct (getAttribute "style" a) as [s|]; [|done].
      rewrite (Hs s eq_refl). by rewrite andb_false_r. }
    rewrite Hroot in Hx. by injection Hx as <-.
  - intros resolvedURL. reflexivity.
Qed.

End TransformFacts.

(** ** The component *)

Section ComponentFacts.
Import Dom Transform Component.
Context `{Platform}.
#[local] Open Scope list_scope.

#[local] Instance with_attributes_inert a : Inert (with_attributes a).
Proof. by intros []. Qed.
#[local] Instance with_observer_inert o : Inert (with_observer o).
Proof. by intros []. Qed.
#[local] Instance with_abortController_inert c : Inert (with_abortController c).
Proof. by intros []. Qed.
#[local] Instance with_hasLoaded_inert b : Inert (with_hasLoaded b).
Proof. by intros []. Qed.
#[local] Instance own_attribute_inert name v :
  Inert (fun x => with_attributes (setAttribute name v (attributes x)) x).
Proof. by intros []. Qed.

Lemma lookup_update i j f w :
  instances (update j f w) !! i =
    if decide (j = i) then f <$> instances w !! i else instances w !! i.
Proof.
  unfold update. simpl. rewrite list_lookup_alter.
  case_decide; [by subst | done].
Qed.

Lemma rendering_update i j f w `{!Inert f} : rendering i (update j f w) = rendering i w.
Proof.
  unfold rendering. rewrite lookup_update. case_decide; [|done].
  destruct (instances w !! i) as [x|]; [|done]. simpl.
  by destruct (inert x) as [-> ->].
Qed.

Lemma rendering_update_ne i j f w : j <> i -> rendering i (update j f w) = rendering i w.
Proof. intros Hne. unfold rendering. rewrite lookup_update. by case_decide. Qed.

Lemma rendering_own_attribute i j name v w :
  rendering i (setOwnAttribute j name v w) = rendering i w.
Proof. unfold setOwnAttribute. by rewrite rendering_update. Qed.

Lemma rendering_frame i w w' : instances w' = instances w -> rendering i w' = rendering i w.
Proof. unfold rendering. by intros ->. Qed.

(** The methods that never touch [_isConnected], the shadow root or the
    event log. *)

Lemma destroyObserver_rendering i j w : rendering i (_destroyObserver j w) = rendering i w.
Proof. unfold _destroyObserver. repeat case_match; try done. by rewrite rendering_update. Qed.

Lemma destroyObserver_signals j w : signals (_destroyObserver j w) = signals w.
Proof. unfold _destroyObserver. by repeat case_match. Qed.

Lemma abortFetch_rendering i j w : rendering i (_abortFetch j w) = rendering i w.
Proof. unfold _abortFetch. repeat case_match; try done. by rewrite rendering_update. Qed.

Lemma abortFetch_signals j w : signals (_abortFetch j w) = signals w.
Proof. unfold _abortFetch. by repeat case_match. Qed.

Lemma fetchWithCache_rendering i j url w :
  rendering i (_fetchWithCache j url w).1 = rendering i w.
Proof.
  unfold _fetchWithCache. repeat case_match; try done. cbn [fst].
  rewrite (rendering_frame i (update j (with_abortController (Some (length (requests w)))) w))
    by done.
  by rewrite rendering_update.
Qed.

Lemma fetchWithCache_signals j url w : signals (_fetchWithCache j url w).1 = signals w.
Proof. unfold _fetchWithCache. by repeat case_match. Qed.

Lemma beginLoad_rendering i j w : rendering i (_beginLoad j w) = rendering i w.
Proof.
  unfold _beginLoad. repeat case_match; try done; try by rewrite rendering_update.
  match goal with E : _fetchWithCache _ _ _ = (?w1, ?a) |- _ =>
    rewrite (rendering_frame i w1) by done;
    change w1 with (w1, a).1; rewrite <- E end.
  by rewrite fetchWithCache_rendering, rendering_own_attribute, rendering_update.
Qed.

Lemma beginLoad_signals j w : signals (_beginLoad j w) = signals w.
Proof.
  unfold _beginLoad. repeat case_match; try done.
  match goal with E : _fetchWithCache _ _ _ = (?w1, ?a) |- _ =>
    cbn [signals set_tasks]; change w1 with (w1, a).1; rewrite <- E end.
  by rewrite fetchWithCache_signals.
Qed.

Lemma initLoading_rendering i j w : rendering i (_initLoading j w) = rendering i w.
Proof.
  unfold _initLoading. repeat case_match; try done;
    try apply beginLoad_rendering. by rewrite rendering_update.
Qed.

Lemma initLoading_signals j w : signals (_initLoading j w) = signals w.
Proof. unfold _initLoading. repeat case_match; try done; apply beginLoad_signals. Qed.

Lemma intersect_rendering i o w : rendering i (intersect o w) = rendering i w.
Proof.
  unfold intersect. repeat case_match; try done.
  by rewrite beginLoad_rendering, destroyObserver_rendering.
Qed.

Lemma intersect_signals o w : signals (intersect o w) = signals w.
Proof.
  unfold intersect. repeat case_match; try done.
  by rewrite beginLoad_signals, destroyObserver_signals.
Qed.

Lemma attributeChanged_rendering i j name old new w :
  rendering i (attributeChangedCallback j name old new w) = rendering i w.
Proof.
  unfold attributeChangedCallback. repeat case_match; try done;
    rewrite ?initLoading_rendering, ?destroyObserver_rendering, ?initLoading_rendering,
      ?abortFetch_rendering, ?rendering_update; done.
Qed.

Lemma attributeChanged_signals j name old new w :
  signals (attributeChangedCallback j name old new w) = signals w.
Proof.
  unfold attributeChangedCallback. repeat case_match; try done;
    rewrite ?initLoading_signals, ?destroyObserver_signals, ?initLoading_signals,
      ?abortFetch_signals; done.
Qed.

Lemma changeAttribute_rendering i j name v w :
  rendering i (changeAttribute j name v w) = rendering i w.
Proof.
  unfold changeAttribute. repeat case_match; try done;
    rewrite ?attributeChanged_rendering, ?rendering_update; done.
Qed.

Lemma changeAttribute_signals j name v w : signals (changeAttribute j name v w) = signals w.
Proof.
  unfold changeAttribute. repeat case_match; try done; by rewrite ?attributeChanged_signals.
Qed.

Lemma reload_rendering i j w : rendering i (reload j w) = rendering i w.
Proof.
  unfold reload. repeat case_match; try done.
  by rewrite beginLoad_rendering, destroyObserver_rendering, rendering_update.
Qed.

Lemma reload_signals j w : signals (reload j w) = signals w.
Proof.
  unfold reload. repeat case_match; try done.
  by rewrite beginLoad_signals, destroyObserver_signals.
Qed.

Lemma prefetch_rendering i url w : rendering i (prefetch url w).1 = rendering i w.
Proof. unfold prefetch. by repeat case_match. Qed.

Lemma prefetch_signals url w : signals (prefetch url w).1 = signals w.
Proof. unfold prefetch. by repeat case_match. Qed.

Lemma settle_rendering i rid reply w : rendering i (settle rid reply w) = rendering i w.
Proof. unfold settle. by repeat case_match. Qed.

Lemma settle_signals rid reply w : signals (settle rid reply w) = signals w.
Proof. unfold settle. by repeat case_match. Qed.

Lemma loadedBy_dispatch i s w :
  loadedBy i (signals (dispatchEvent s w)) =
    (loadedBy i (signals w) ++ (if isLoadedBy i s then [s] else []))%list.
Proof. unfold loadedBy. simpl. rewrite List.filter_app. simpl. by destruct (isLoadedBy i s). Qed.

Lemma failed_rendering i j src e w : rendering i (failed j src e w) = rendering i w.
Proof.
  unfold failed. case_match; [done|].
  rewrite (rendering_frame i (setOwnAttribute j "data-state" "error"
                                (setOwnAttribute j "aria-busy" "false" w))) by done.
  by rewrite !rendering_own_attribute.
Qed.

Lemma failed_loadedBy i j src e w :
  loadedBy i (signals (failed j src e w)) = loadedBy i (signals w).
Proof.
  unfold failed. case_match; [done|].
  rewrite loadedBy_dispatch. simpl. by rewrite app_nil_r.
Qed.

Lemma afterFetch_rendering i j src url o w :
  rendering i (afterFetch j src url o w) = rendering i w.
Proof. unfold afterFetch. repeat case_match; try done; apply failed_rendering. Qed.

Lemma afterFetch_loadedBy i j src url o w :
  loadedBy i (signals (afterFetch j src url o w)) = loadedBy i (signals w).
Proof. unfold afterFetch. repeat case_match; try done; apply failed_loadedBy. Qed.

Lemma resume_rendering i tid w : rendering i (resume tid w) = rendering i w.
Proof. unfold resume. repeat case_match; try done. by rewrite afterFetch_rendering. Qed.

Lemma resume_loadedBy i tid w : loadedBy i (signals (resume tid w)) = loadedBy i (signals w).
Proof. unfold resume. repeat case_match; try done. by rewrite afterFetch_loadedBy. Qed.

(** Only [connectedCallback] and [_injectIntoShadow] write the shadow
    root, and [_injectIntoShadow] runs behind the guard on [_isConnected]. *)

Lemma connected_other_rendering i j w :
  j <> i -> rendering i (connectedCallback j w) = rendering i w.
Proof.
  intros Hne. unfold connectedCallback. repeat case_match; try done;
    rewrite initLoading_rendering, !rendering_update_ne, ?rendering_own_attribute,
      ?rendering_update_ne; done.
Qed.

Lemma connected_signals j w : signals (connectedCallback j w) = signals w.
Proof. unfold connectedCallback. repeat case_match; try done; by rewrite initLoading_signals. Qed.

Lemma disconnected_rendering i j w sh :
  rendering i w = Some (false, sh) ->
  rendering i (disconnectedCallback j w) = Some (false, sh).
Proof.
  intros Hr. unfold disconnectedCallback.
  rewrite abortFetch_rendering, destroyObserver_rendering.
  unfold rendering in *. rewrite lookup_update. case_decide; [|done].
  destruct (instances w !! i) as [x|]; [|done]. simpl in *. congruence.
Qed.

Lemma disconnected_signals j w : signals (disconnectedCallback j w) = signals w.
Proof.
  unfold disconnectedCallback. by rewrite abortFetch_signals, destroyObserver_signals.
Qed.

Lemma inject_other_rendering i j css links html host w :
  j <> i -> rendering i (_injectIntoShadow j css links html host w) = rendering i w.
Proof.
  intros Hne. unfold _injectIntoShadow. case_match; [|done].
  rewrite (rendering_frame i
             (setOwnAttribute j "data-state" "loaded"
                (setOwnAttribute j "aria-busy" "false"
                   match truthy host with
                   | Some hs => setOwnAttribute j "style" _ _
                   | None => _
                   end))) by done.
  rewrite !rendering_own_attribute. case_match.
  - by rewrite rendering_own_attribute, rendering_update_ne.
  - by rewrite rendering_update_ne.
Qed.

Lemma inject_other_loadedBy i j css links html host w :
  j <> i ->
  loadedBy i (signals (_injectIntoShadow j css links html host w)) = loadedBy i (signals w).
Proof.
  intros Hne. unfold _injectIntoShadow. case_match; [|done].
  rewrite loadedBy_dispatch. cbn [isLoadedBy].
  destruct (Nat.eqb_spec i j); [congruence|]. rewrite app_nil_r.
  by case_match.
Qed.

Lemma animationFrame_quiet i tid w sh :
  rendering i w = Some (false, sh) ->
  rendering i (animationFrame tid w) = Some (false, sh) /\
  loadedBy i (signals (animationFrame tid w)) = loadedBy i (signals w).
Proof.
  intros Hr. unfold animationFrame. repeat case_match; try done.
  destruct (decide (inst = i)) as [->|Hne].
  - exfalso. unfold rendering in Hr. cbn [instances set_tasks] in *.
    match goal with E : instances w !! i = Some ?x |- _ => rewrite E in Hr end.
    simpl in Hr. match goal with E : negb _ = false |- _ => apply negb_false_iff in E end.
    congruence.
  - rewrite inject_other_rendering, inject_other_loadedBy by done. done.
Qed.

Lemma construct_rendering i w r : rendering i w = Some r -> rendering i (construct w) = Some r.
Proof.
  unfold rendering, construct. simpl. intros Hr.
  destruct (instances w !! i) as [x|] eqn:E; [|done].
  by rewrite (lookup_app_l_Some _ _ _ _ E).
Qed.

(** One event other than its own [connectedCallback] leaves a disconnected
    instance disconnected, with the same shadow root and no new
    [templastic-loaded]. *)
Lemma step_quiet i e w sh :
  e <> Connect i ->
  rendering i w = Some (false, sh) ->
  rendering i (step w e) = Some (false, sh) /\
  loadedBy i (signals (step w e)) = loadedBy i (signals w).
Proof.
  intros He Hr. destruct e; cbn [step].
  - split; [by apply construct_rendering | done].
  - by rewrite changeAttribute_rendering, changeAttribute_signals.
  - by rewrite changeAttribute_rendering, changeAttribute_signals.
  - rewrite connected_other_rendering, connected_signals; [done|congruence].
  - rewrite disconnected_signals. split; [by apply disconnected_rendering | done].
  - by rewrite intersect_rendering, intersect_signals.
  - by rewrite reload_rendering, reload_signals.
  - done.
  - by rewrite prefetch_rendering, prefetch_signals.
  - by rewrite settle_rendering, settle_signals.
  - by rewrite resume_rendering, resume_loadedBy.
  - by apply animationFrame_quiet.
Qed.

Lemma run_quiet i es w sh :
  Connect i ∉ es ->
  rendering i w = Some (false, sh) ->
  rendering i (run w es) = Some (false, sh) /\
  loadedBy i (signals (run w es)) = loadedBy i (signals w).
Proof.
  revert w. induction es as [|e es IH]; intros w Hes Hr; [done|].
  apply not_elem_of_cons in Hes as [He Hes].
  destruct (step_quiet i e w sh) as [Hr1 Hl1]; [congruence|done|].
  destruct (IH (step w e) Hes Hr1) as [Hr2 Hl2].
  cbn [run List.fold_left]. fold (run (step w e) es). by rewrite Hl2.
Qed.

(** C7. An instance that is disconnected, and stays so, never has its
    shadow root written and never dispatches [templastic-loaded], whatever
    happens meanwhile: the retrieval it awaits settles, its continuation
    resumes, its frame callback runs, other instances load. *)
Theorem disconnected_instance_never_injects i x w es :
  instances w !! i = Some x ->
  _isConnected x = false ->
  Connect i ∉ es ->
  (exists x', instances (run w es) !! i = Some x' /\
              _isConnected x' = false /\ shadowRoot x' = shadowRoot x) /\
  loadedBy i (signals (run w es)) = loadedBy i (signals w).
Proof.
  intros Hx Hd Hes.
  destruct (run_quiet i es w (shadowRoot x) Hes) as [Hr Hl].
  { unfold rendering. rewrite Hx. simpl. by rewrite Hd. }
  split; [|exact Hl].
  unfold rendering in Hr. destruct (instances (run w es) !! i) as [x'|]; [|done].
  simpl in Hr. exists x'. split; [done|]. by injection Hr as -> ->.
Qed.

(** *** The fetch cache *)

(** Tier 3: nothing cached, nothing pending. *)
Lemma fetchWithCache_issues i url w :
  _cache w !! url = None -> _pending w !! url = None ->
  exists w',
    _fetchWithCache i url w = (w', Shared (length (requests w))) /\
    requests w' = requests w ++ [freshRequest url] /\
    _pending w' = <[url := length (requests w)]> (_pending w) /\
    _cache w' = _cache w.
Proof. intros Hc Hp. unfold _fetchWithCache. rewrite Hc, Hp. eexists. split; [reflexivity|]. done. Qed.

(** Tier 2: the pending promise is handed out, nothing else happens. *)
Lemma fetchWithCache_joins i url w rid :
  _cache w !! url = None -> _pending w !! url = Some rid ->
  _fetchWithCache i url w = (w, Shared rid).
Proof. intros Hc Hp. unfold _fetchWithCache. by rewrite Hc, Hp. Qed.

Lemma fetchAll_joins callers url w rid :
  _cache w !! url = None -> _pending w !! url = Some rid ->
  fetchAll callers url w = (w, List.map (fun _ => Shared rid) callers).
Proof.
  intros Hc Hp. induction callers as [|i callers IH]; [done|].
  simpl. by rewrite (fetchWithCache_joins i url w rid Hc Hp), IH.
Qed.

Lemma settle_outcome rid reply w r :
  requests w !! rid = Some r -> req_result r = None ->
  awaitOutcome (settle rid reply w) (Shared rid) = Some (outcomeOf r reply).
Proof.
  intros Hr Hn. unfold settle. rewrite Hr, Hn.
  assert (E : requests (set_requests (alter (with_req_result (outcomeOf r reply)) rid (requests w)) w)
              !! rid = Some (with_req_result (outcomeOf r reply) r)).
  { simpl. by rewrite list_lookup_alter_eq, Hr. }
  unfold awaitOutcome. repeat case_match; simpl in *; by rewrite E.
Qed.

(** Back to back: when two or more instances call [_fetchWithCache] for a
    URL that is neither cached nor pending, one after the other with
    nothing in between, exactly one request goes to the network, every
    caller holds the same promise, and whatever the network answers every
    caller's [await] yields that one outcome. *)
Lemma back_to_back_requesters_share_one_request callers url w :
  2 <= length callers ->
  _cache w !! url = None -> _pending w !! url = None ->
  let rid := length (requests w) in
  let w' := (fetchAll callers url w).1 in
  let ons := (fetchAll callers url w).2 in
  requests w' = requests w ++ [freshRequest url] /\
  length ons = length callers /\
  Forall (fun on => on = Shared rid) ons /\
  forall reply,
    Forall (fun on => awaitOutcome (settle rid reply w') on =
                        Some (outcomeOf (freshRequest url) reply)) ons.
Proof.
  intros Hlen Hc Hp rid w' ons. subst w' ons.
  destruct callers as [|i callers]; [simpl in Hlen; lia|].
  destruct (fetchWithCache_issues i url w Hc Hp) as (w1 & E1 & Hreq & Hpend & Hcache).
  cbn [fetchAll]. rewrite E1.
  rewrite (fetchAll_joins callers url w1 rid).
  2:{ by rewrite Hcache. }
  2:{ rewrite Hpend. apply lookup_insert_eq. }
  cbn [fst snd].
  assert (Hall : Forall (fun on => on = Shared rid) (Shared rid :: List.map (fun _ => Shared rid) callers)).
  { constructor; [done|]. apply Forall_forall. intros on Hon.
    apply list_elem_of_In, List.in_map_iff in Hon as (? & <- & _). done. }
  split; [done|]. split; [simpl; by rewrite List.length_map|]. split; [done|].
  intros reply. eapply Forall_impl; [exact Hall|]. intros on ->.
  apply settle_outcome; [|done].
  rewrite Hreq. by apply list_lookup_middle.
Qed.

(** C6, amended. When a retrieval that [_fetchWithCache] sent fails, the
    [catch] drops the pending entry of its URL and leaves the cache as it
    was; the promise is rejected with the error, so every continuation that
    awaits it resumes in [_beginLoad]'s [catch] with that error.
    Afterwards the URL is not pending.  It is cached exactly if it was cached before the
    failure, which is the case when a [prefetch] stored it meanwhile: if it
    is not, the next [_fetchWithCache] for it, by any instance, sends a new
    request; if it is, the next [_fetchWithCache] returns the cached text
    and sends nothing. *)
Theorem failed_retrieval_leaves_url_retryable w rid r reply e :
  requests w !! rid = Some r -> req_origin r = ViaCache -> req_result r = None ->
  outcomeOf r reply = Rejected e ->
  let w' := settle rid reply w in
  _pending w' !! req_url r = None /\
  _cache w' = _cache w /\
  awaitOutcome w' (Shared rid) = Some (Rejected e) /\
  (forall tid i src url,
     tasks w' !! tid = Some (AwaitFetch i src url (Shared rid)) ->
     resume tid w' = failed i src e (set_tasks (<[tid := Finished]> (tasks w')) w')) /\
  (_cache w !! req_url r = None ->
   forall j,
     (_fetchWithCache j (req_url r) w').2 = Shared (length (requests w')) /\
     requests (_fetchWithCache j (req_url r) w').1 = requests w' ++ [freshRequest (req_url r)]) /\
  (forall html, _cache w !! req_url r = Some html ->
   forall j, _fetchWithCache j (req_url r) w' = (w', Ready html)).
Proof.
  intros Hr Ho Hn He w'.
  assert (Hout : awaitOutcome w' (Shared rid) = Some (Rejected e)).
  { subst w'. by rewrite (settle_outcome rid reply w r), He. }
  assert (Hw' : w' = set_pending (delete (req_url r) (_pending w))
                       (set_requests (alter (with_req_result (Rejected e)) rid (requests w)) w)).
  { subst w'. unfold settle. by rewrite Hr, Hn, Ho, He. }
  assert (Hcache : _cache w' = _cache w) by (by rewrite Hw').
  assert (Hpend : _pending w' !! req_url r = None).
  { rewrite Hw'. simpl. apply lookup_delete_eq. }
  split; [done|]. split; [done|]. split; [done|]. split.
  { intros tid i src url Ht. unfold resume. by rewrite Ht, Hout. }
  split.
  - intros Hc j. rewrite <- Hcache in Hc.
    destruct (fetchWithCache_issues j (req_url r) w' Hc Hpend) as (w2 & -> & Hreq & _).
    done.
  - intros html Hc j. unfold _fetchWithCache. by rewrite Hcache, Hc.
Qed.

(** C10. [prefetch] neither reads nor writes [_pending]: it gives the same
    result whatever [_pending] holds and leaves it as it found it, when it
    is called and when its retrieval completes.  On a cache hit it returns
    the cached text and sends nothing; otherwise it sends a request of its
    own, also when [_fetchWithCache] has one in flight for the same URL. *)
Theorem prefetch_races_independently url resolvedURL w :
  URL_href url baseURI = Some resolvedURL ->
  (forall p, prefetch url (set_pending p w) =
               (set_pending p (prefetch url w).1, (prefetch url w).2)) /\
  _pending (prefetch url w).1 = _pending w /\
  (forall html, _cache w !! resolvedURL = Some html ->
                prefetch url w = (w, Some (Ready html))) /\
  (_cache w !! resolvedURL = None ->
   prefetch url w =
     (set_requests (requests w ++
                      [{| req_url := resolvedURL; req_origin := ViaPrefetch;
                          req_aborted := false; req_result := None |}]) w,
      Some (Shared (length (requests w))))) /\
  (forall rid r reply,
     requests w !! rid = Some r -> req_origin r = ViaPrefetch ->
     _pending (settle rid reply w) = _pending w).
Proof.
  intros Hu. unfold prefetch. rewrite Hu. cbn [_cache set_pending].
  split; [|split; [|split; [|split]]].
  - intros p. by destruct (_cache w !! resolvedURL).
  - by destruct (_cache w !! resolvedURL).
  - by intros html ->.
  - by intros ->.
  - intros rid r reply Hr Ho. unfold settle. rewrite Hr, Ho. by repeat case_match.
Qed.

(** *** The two maps *)

Lemma exclusive_frame w w' :
  _cache w' = _cache w -> _pending w' = _pending w -> exclusive w -> exclusive w'.
Proof. unfold exclusive. by intros -> ->. Qed.

Lemma destroyObserver_maps j w :
  _cache (_destroyObserver j w) = _cache w /\ _pending (_destroyObserver j w) = _pending w.
Proof. unfold _destroyObserver. by repeat case_match. Qed.

Lemma abortFetch_maps j w :
  _cache (_abortFetch j w) = _cache w /\ _pending (_abortFetch j w) = _pending w.
Proof. unfold _abortFetch. by repeat case_match. Qed.

Lemma destroyObserver_exclusive j w : exclusive w -> exclusive (_destroyObserver j w).
Proof. destruct (destroyObserver_maps j w). by apply (exclusive_frame w). Qed.

Lemma abortFetch_exclusive j w : exclusive w -> exclusive (_abortFetch j w).
Proof. destruct (abortFetch_maps j w). by apply (exclusive_frame w). Qed.

(** Tier 3 registers a URL as pending only after tier 1 found it absent
    from the cache. *)
Lemma fetchWithCache_exclusive j url w : exclusive w -> exclusive (_fetchWithCache j url w).1.
Proof.
  intros Hex. unfold _fetchWithCache.
  destruct (_cache w !! url) eqn:Hc; [done|].
  destruct (_pending w !! url) eqn:Hp; [done|].
  intros u Hu. simpl in *.
  destruct (decide (url = u)) as [<-|Hne].
  - rewrite Hc in Hu. by destruct Hu.
  - rewrite lookup_insert_ne by done. by apply Hex.
Qed.

Lemma beginLoad_exclusive j w : exclusive w -> exclusive (_beginLoad j w).
Proof.
  intros Hex. unfold _beginLoad. repeat case_match; try done.
  match goal with E : _fetchWithCache ?i ?u ?w0 = (?w1, ?a) |- _ =>
    apply (exclusive_frame w1); [done..|];
    change w1 with (w1, a).1; rewrite <- E; apply fetchWithCache_exclusive end.
  done.
Qed.

Lemma initLoading_exclusive j w : exclusive w -> exclusive (_initLoading j w).
Proof.
  intros Hex. unfold _initLoading. repeat case_match; try done; by apply beginLoad_exclusive.
Qed.

Lemma attributeChanged_exclusive j name old new w :
  exclusive w -> exclusive (attributeChangedCallback j name old new w).
Proof.
  intros Hex. unfold attributeChangedCallback. repeat case_match; try done;
    repeat first [ apply initLoading_exclusive | apply destroyObserver_exclusive
                 | apply abortFetch_exclusive ]; done.
Qed.

Lemma changeAttribute_exclusive j name v w : exclusive w -> exclusive (changeAttribute j name v w).
Proof.
  intros Hex. unfold changeAttribute. repeat case_match; try done;
    by apply attributeChanged_exclusive.
Qed.

Lemma connected_exclusive j w : exclusive w -> exclusive (connectedCallback j w).
Proof.
  intros Hex. unfold connectedCallback. repeat case_match; try done;
    by apply initLoading_exclusive.
Qed.

Lemma disconnected_exclusive j w : exclusive w -> exclusive (disconnectedCallback j w).
Proof. intros Hex. by apply abortFetch_exclusive, destroyObserver_exclusive. Qed.

Lemma intersect_exclusive o w : exclusive w -> exclusive (intersect o w).
Proof.
  intros Hex. unfold intersect. repeat case_match; try done.
  by apply beginLoad_exclusive, destroyObserver_exclusive.
Qed.

(** Eviction takes from the cache only. *)
Lemma reload_exclusive j w : exclusive w -> exclusive (reload j w).
Proof.
  intros Hex. unfold reload. repeat case_match; try done.
  apply beginLoad_exclusive, destroyObserver_exclusive.
  intros u [v Hu]. simpl in *.
  apply lookup_delete_Some in Hu as [_ Hu]. apply Hex. by rewrite Hu.
Qed.

Lemma clearCache_exclusive w : exclusive (clearCache w).
Proof. intros u [v Hu]. simpl in Hu. by rewrite lookup_empty in Hu. Qed.

Lemma failed_maps j src e w :
  _cache (failed j src e w) = _cache w /\ _pending (failed j src e w) = _pending w.
Proof. unfold failed. by case_match. Qed.

Lemma resume_maps tid w :
  _cache (resume tid w) = _cache w /\ _pending (resume tid w) = _pending w.
Proof.
  unfold resume, afterFetch. repeat case_match; try done;
    match goal with |- context [failed ?j ?s ?e ?w0] => by destruct (failed_maps j s e w0) as [-> ->] end.
Qed.

Lemma animationFrame_maps tid w :
  _cache (animationFrame tid w) = _cache w /\ _pending (animationFrame tid w) = _pending w.
Proof. unfold animationFrame, _injectIntoShadow. by repeat case_match. Qed.

(** The handlers of [_fetchWithCache]'s request keep the maps apart; the
    code after [prefetch]'s [await] writes the cache without a look at
    [_pending]. *)
Lemma settle_exclusive rid reply w :
  exclusive w ->
  (forall r html,
     requests w !! rid = Some r -> req_origin r = ViaPrefetch -> req_result r = None ->
     outcomeOf r reply = Fulfilled html -> _pending w !! req_url r = None) ->
  exclusive (settle rid reply w).
Proof.
  intros Hex Hpre. unfold settle.
  destruct (requests w !! rid) as [r|] eqn:Hr; [|done].
  destruct (req_result r) eqn:Hn; [done|].
  destruct (req_origin r) eqn:Ho, (outcomeOf r reply) as [html|e] eqn:Hout; try done.
  - intros u Hu. simpl in *. destruct (decide (req_url r = u)) as [<-|Hne].
    + apply lookup_delete_eq.
    + rewrite lookup_delete_ne by done. rewrite lookup_insert_ne in Hu by done. by apply Hex.
  - intros u Hu. simpl in *. destruct (decide (req_url r = u)) as [<-|Hne].
    + apply lookup_delete_eq.
    + rewrite lookup_delete_ne by done. by apply Hex.
  - intros u Hu. simpl in *. destruct (decide (req_url r = u)) as [<-|Hne].
    + by apply (Hpre r html).
    + rewrite lookup_insert_ne in Hu by done. by apply Hex.
Qed.

(** C2, amended. Every run of component code keeps the two maps apart
    (tier 3 of [_fetchWithCache], the handlers of its request, the eviction
    of [reload], [clearCache], and everything that leaves the maps alone),
    with one exception: the completion of a [prefetch], which stores into
    the cache without consulting [_pending] and so keeps them apart only
    when the URL has no retrieval pending. *)
Theorem maps_exclusive_unless_prefetch_completes w e :
  exclusive w ->
  (forall rid reply r html,
     e = Settle rid reply ->
     requests w !! rid = Some r -> req_origin r = ViaPrefetch -> req_result r = None ->
     outcomeOf r reply = Fulfilled html ->
     _pending w !! req_url r = None) ->
  exclusive (step w e).
Proof.
  intros Hex Hpre. destruct e; cbn [step].
  - done.
  - by apply changeAttribute_exclusive.
  - by apply changeAttribute_exclusive.
  - by apply connected_exclusive.
  - by apply disconnected_exclusive.
  - by apply intersect_exclusive.
  - by apply reload_exclusive.
  - apply clearCache_exclusive.
  - unfold prefetch. by repeat case_match.
  - apply settle_exclusive; [done|]. intros r html. by apply Hpre.
  - destruct (resume_maps tid w). by apply (exclusive_frame w).
  - destruct (animationFrame_maps tid w). by apply (exclusive_frame w).
Qed.

(** *** Restarting the pipeline *)

Lemma lookup_update_eq i f w x :
  instances w !! i = Some x -> instances (update i f w) !! i = Some (f x).
Proof. intros Hx. rewrite lookup_update, decide_True by done. by rewrite Hx. Qed.

Lemma destroyObserver_instance j w x :
  instances w !! j = Some x ->
  instances (_destroyObserver j w) !! j = Some (with_observer None x).
Proof.
  intros Hx. unfold _destroyObserver. rewrite Hx.
  destruct (_observer x) eqn:Ho.
  - by apply lookup_update_eq.
  - rewrite Hx. f_equal. destruct x. simpl in Ho. by subst.
Qed.

Lemma destroyObserver_rest j w :
  requests (_destroyObserver j w) = requests w /\ tasks (_destroyObserver j w) = tasks w.
Proof. unfold _destroyObserver. by repeat case_match. Qed.

Lemma abortFetch_instance j w x :
  instances w !! j = Some x ->
  instances (_abortFetch j w) !! j = Some (with_abortController None x).
Proof.
  intros Hx. unfold _abortFetch. rewrite Hx.
  destruct (_abortController x) eqn:Ho.
  - by apply lookup_update_eq.
  - rewrite Hx. f_equal. destruct x. simpl in Ho. by subst.
Qed.

Lemma abortFetch_requests j w x :
  instances w !! j = Some x ->
  requests (_abortFetch j w) =
    match _abortController x with
    | Some rid => alter with_req_aborted rid (requests w)
    | None => requests w
    end /\
  tasks (_abortFetch j w) = tasks w.
Proof. intros Hx. unfold _abortFetch. rewrite Hx. by destruct (_abortController x). Qed.

(** With the guard set, [_beginLoad] returns at once. *)
Lemma beginLoad_guarded i w x :
  instances w !! i = Some x -> _hasLoaded x = true -> _beginLoad i w = w.
Proof. intros Hx Hl. unfold _beginLoad. by rewrite Hx, Hl. Qed.

(** With the guard clear, a source and a URL that resolves, it reaches its
    [await]. *)
Lemma beginLoad_runs i w x src url :
  instances w !! i = Some x -> _hasLoaded x = false ->
  truthy (getAttribute "src" (attributes x)) = Some src ->
  URL_href src baseURI = Some url ->
  _beginLoad i w =
    let r := _fetchWithCache i url
               (setOwnAttribute i "aria-busy" "true" (update i (with_hasLoaded true) w)) in
    set_tasks (tasks r.1 ++ [AwaitFetch i src url r.2]) r.1.
Proof.
  intros Hx Hl Hs Hu. unfold _beginLoad. rewrite Hx, Hl, Hs, Hu.
  by destruct (_fetchWithCache _ _ _).
Qed.

Lemma fetchWithCache_tasks j url w : tasks (_fetchWithCache j url w).1 = tasks w.
Proof. unfold _fetchWithCache. by repeat case_match. Qed.

(** C4, amended. On an instance whose [src] is not empty and resolves,
    [reload()] sends a new request for the URL whenever no retrieval for
    it is pending, cached or not; when one is pending, [reload()] sends
    nothing and awaits the pending promise. *)
Theorem reload_retrieves_unless_pending i x src url w :
  instances w !! i = Some x ->
  truthy (getAttribute "src" (attributes x)) = Some src ->
  URL_href src baseURI = Some url ->
  (_pending w !! url = None ->
   requests (reload i w) = requests w ++ [freshRequest url] /\
   _pending (reload i w) !! url = Some (length (requests w)) /\
   tasks (reload i w) = tasks w ++ [AwaitFetch i src url (Shared (length (requests w)))]) /\
  (forall rid,
     _pending w !! url = Some rid ->
     requests (reload i w) = requests w /\
     tasks (reload i w) = tasks w ++ [AwaitFetch i src url (Shared rid)]).
Proof.
  intros Hx Hs Hu. unfold reload. rewrite Hx, Hs, Hu.
  set (w0 := _destroyObserver i
               (update i (with_hasLoaded false) (set_cache (delete url (_cache w)) w))).
  assert (Hx0 : instances w0 !! i = Some (with_observer None (with_hasLoaded false x))).
  { apply destroyObserver_instance, lookup_update_eq. exact Hx. }
  destruct (destroyObserver_maps i
              (update i (with_hasLoaded false) (set_cache (delete url (_cache w)) w)))
    as [Hc0 Hp0].
  destruct (destroyObserver_rest i
              (update i (with_hasLoaded false) (set_cache (delete url (_cache w)) w)))
    as [Hr0 Ht0].
  fold w0 in Hc0, Hp0, Hr0, Ht0. simpl in Hc0, Hp0, Hr0, Ht0.
  rewrite (beginLoad_runs i w0 _ src url Hx0) by done.
  set (w1 := setOwnAttribute i "aria-busy" "true" (update i (with_hasLoaded true) w0)).
  assert (Hc1 : _cache w1 !! url = None).
  { unfold w1. simpl. rewrite Hc0. apply lookup_delete_eq. }
  assert (Ht1 : tasks (_fetchWithCache i url w1).1 = tasks w).
  { rewrite fetchWithCache_tasks. unfold w1. simpl. exact Ht0. }
  split.
  - intros Hp. revert Ht1.
    destruct (fetchWithCache_issues i url w1 Hc1) as (w2 & -> & Hreq & Hpend & _).
    { unfold w1. simpl. by rewrite Hp0. }
    simpl. intros ->. rewrite Hreq, Hpend. unfold w1. simpl. rewrite Hr0.
    split; [done|]. split; [apply lookup_insert_eq|done].
  - intros rid Hp. revert Ht1.
    rewrite (fetchWithCache_joins i url w1 rid Hc1).
    2:{ unfold w1. simpl. by rewrite Hp0. }
    simpl. intros ->. unfold w1. simpl. by rewrite Hr0.
Qed.

Lemma initLoading_guarded i w x :
  instances w !! i = Some x -> _hasLoaded x = true ->
  requests (_initLoading i w) = requests w /\
  tasks (_initLoading i w) = tasks w /\
  (exists x', instances (_initLoading i w) !! i = Some x' /\
              _hasLoaded x' = true /\ _abortController x' = _abortController x) /\
  (forall o ob, observers w !! o = Some ob -> observers (_initLoading i w) !! o = Some ob).
Proof.
  intros Hx Hl. unfold _initLoading. rewrite Hx.
  repeat case_match; rewrite ?(beginLoad_guarded i w x Hx Hl);
    try (split; [done|]; split; [done|]; split; [by exists x|done]).
  split; [done|]. split; [done|]. split.
  - eexists. split; [by apply lookup_update_eq|]. done.
  - intros o ob Ho. simpl. by apply lookup_app_l_Some.
Qed.

(** What [attributeChangedCallback] does on a connected instance.  A
    change of [src] clears [_hasLoaded] and aborts the request the instance
    itself sent, if any, and then evaluates the trigger again; a change of
    [loading] disconnects the visibility observer and evaluates the trigger
    again, but keeps [_hasLoaded] and cancels nothing: after a load has
    started no request is aborted, none is sent and no pipeline starts. *)
Lemma attribute_change_rearms_src_only :
  (forall i x w v,
     instances w !! i = Some x -> _isConnected x = true ->
     getAttribute "src" (attributes x) <> v ->
     exists w1 x1,
       changeAttribute i "src" v w = _initLoading i w1 /\
       instances w1 !! i = Some x1 /\
       _hasLoaded x1 = false /\ _abortController x1 = None /\
       getAttribute "src" (attributes x1) = v /\
       forall rid r,
         _abortController x = Some rid -> requests w !! rid = Some r ->
         requests w1 !! rid = Some (with_req_aborted r)) /\
  (forall i x w v,
     instances w !! i = Some x -> _isConnected x = true ->
     getAttribute "loading" (attributes x) <> v ->
     _hasLoaded x = true ->
     let w' := changeAttribute i "loading" v w in
     requests w' = requests w /\
     tasks w' = tasks w /\
     (exists x', instances w' !! i = Some x' /\
                 _hasLoaded x' = true /\ _abortController x' = _abortController x) /\
     (forall o ob, _observer x = Some o -> observers w !! o = Some ob ->
                   exists ob', observers w' !! o = Some ob' /\ obs_active ob' = false)).
Proof.
  split.
  - intros i x w v Hx Hc Hne. unfold changeAttribute. rewrite Hx.
    rewrite bool_decide_eq_true_2 by set_solver.
    set (a := match v with
              | Some s => setAttribute "src" s (attributes x)
              | None => removeAttribute "src" (attributes x)
              end).
    set (w0 := update i (with_attributes a) w).
    assert (Hx0 : instances w0 !! i = Some (with_attributes a x)) by by apply lookup_update_eq.
    unfold attributeChangedCallback. rewrite decide_False by done. rewrite Hx0.
    cbn [_isConnected with_attributes]. rewrite Hc. cbn [String.eqb Ascii.eqb Bool.eqb andb].
    set (w1 := _abortFetch i (update i (with_hasLoaded false) w0)).
    assert (Hx1 : instances w1 !! i =
                  Some (with_abortController None (with_hasLoaded false (with_attributes a x)))).
    { apply abortFetch_instance. by apply lookup_update_eq. }
    eexists w1, _. split; [reflexivity|]. split; [exact Hx1|].
    split; [done|]. split; [done|]. split.
    { simpl. unfold a. destruct v; [apply getAttribute_set_eq | apply getAttribute_remove]. }
    intros rid r Hrid Hr.
    destruct (abortFetch_requests i (update i (with_hasLoaded false) w0)
                (with_hasLoaded false (with_attributes a x))) as [Hreq _].
    { by apply lookup_update_eq. }
    fold w1 in Hreq. rewrite Hreq. simpl. rewrite Hrid.
    by rewrite list_lookup_alter_eq, Hr.
  - intros i x w v Hx Hc Hne Hl w'. subst w'. unfold changeAttribute. rewrite Hx.
    rewrite bool_decide_eq_true_2 by set_solver.
    set (a := match v with
              | Some s => setAttribute "loading" s (attributes x)
              | None => removeAttribute "loading" (attributes x)
              end).
    set (w0 := update i (with_attributes a) w).
    assert (Hx0 : instances w0 !! i = Some (with_attributes a x)) by by apply lookup_update_eq.
    unfold attributeChangedCallback. rewrite decide_False by done. rewrite Hx0.
    cbn [_isConnected with_attributes]. rewrite Hc. cbn [String.eqb Ascii.eqb Bool.eqb andb].
    pose proof (destroyObserver_instance i w0 _ Hx0) as Hx1.
    destruct (destroyObserver_rest i w0) as [Hr1 Ht1].
    destruct (initLoading_guarded i (_destroyObserver i w0) _ Hx1 Hl)
      as (Hr2 & Ht2 & (x' & Hx' & Hl' & Hc') & Hobs).
    rewrite Hr2, Ht2, Hr1, Ht1.
    split; [done|]. split; [done|]. split; [by exists x'|].
    intros o ob Ho Hob. eexists. split; [|shelve].
    apply Hobs. unfold _destroyObserver. rewrite Hx0. cbn [_observer with_attributes].
    rewrite Ho. simpl. rewrite list_lookup_alter_eq. unfold w0. simpl. rewrite Hob. reflexivity.
    Unshelve. reflexivity.
Qed.

(** *** One retrieval per URL at a time *)

Lemma singleFlight_frame w w' :
  requests w' = requests w -> _pending w' = _pending w -> singleFlight w -> singleFlight w'.
Proof. unfold singleFlight. by intros -> ->. Qed.

Lemma destroyObserver_singleFlight j w : singleFlight w -> singleFlight (_destroyObserver j w).
Proof.
  destruct (destroyObserver_maps j w) as [_ Hp]. destruct (destroyObserver_rest j w) as [Hr _].
  by apply (singleFlight_frame w).
Qed.

(** Aborting marks a request; it stays in flight until the rejection is
    delivered. *)
Lemma abortFetch_singleFlight j w : singleFlight w -> singleFlight (_abortFetch j w).
Proof.
  intros Hsf. unfold _abortFetch. repeat case_match; try done.
  intros rid r Hr Ho Hn. simpl in *.
  rewrite list_lookup_alter in Hr. case_decide; [subst|by apply Hsf].
  destruct (requests w !! rid) as [r0|] eqn:E; [|done]. simpl in Hr. injection Hr as <-.
  by apply (Hsf rid r0).
Qed.

Lemma fetchWithCache_singleFlight j url w :
  singleFlight w -> singleFlight (_fetchWithCache j url w).1.
Proof.
  intros Hsf. unfold _fetchWithCache.
  destruct (_cache w !! url) eqn:Hc; [done|].
  destruct (_pending w !! url) eqn:Hp; [done|].
  intros rid r Hr Ho Hn. simpl in *.
  apply lookup_snoc_Some in Hr as [[Hlt Hr]|[-> <-]].
  - destruct (decide (url = req_url r)) as [->|Hne].
    + rewrite (Hsf rid r Hr Ho Hn) in Hp. done.
    + rewrite lookup_insert_ne by done. by apply Hsf.
  - apply lookup_insert_eq.
Qed.

Lemma beginLoad_singleFlight j w : singleFlight w -> singleFlight (_beginLoad j w).
Proof.
  intros Hsf. unfold _beginLoad. repeat case_match; try done.
  match goal with E : _fetchWithCache ?i ?u ?w0 = (?w1, ?a) |- _ =>
    apply (singleFlight_frame w1); [done..|];
    change w1 with (w1, a).1; rewrite <- E; apply fetchWithCache_singleFlight end.
  done.
Qed.

Lemma initLoading_singleFlight j w : singleFlight w -> singleFlight (_initLoading j w).
Proof.
  intros Hsf. unfold _initLoading. repeat case_match; try done; by apply beginLoad_singleFlight.
Qed.

Lemma attributeChanged_singleFlight j name old new w :
  singleFlight w -> singleFlight (attributeChangedCallback j name old new w).
Proof.
  intros Hsf. unfold attributeChangedCallback. repeat case_match; try done;
    repeat first [ apply initLoading_singleFlight | apply destroyObserver_singleFlight
                 | apply abortFetch_singleFlight ]; done.
Qed.

Lemma settle_singleFlight rid reply w : singleFlight w -> singleFlight (settle rid reply w).
Proof.
  intros Hsf. unfold settle.
  destruct (requests w !! rid) as [r|] eqn:Hr; [|done].
  destruct (req_result r) eqn:Hn; [done|].
  assert (Hothers : forall rid' r' (p : gmap string nat),
            alter (with_req_result (outcomeOf r reply)) rid (requests w) !! rid' = Some r' ->
            req_origin r' = ViaCache -> req_result r' = None ->
            (req_origin r = ViaCache -> p = delete (req_url r) (_pending w)) ->
            (req_origin r = ViaPrefetch -> p = _pending w) ->
            p !! req_url r' = Some rid').
  { intros rid' r' p Hr' Ho' Hn' Hp1 Hp2.
    rewrite list_lookup_alter in Hr'. case_decide as Hd.
    - subst rid'. rewrite Hr in Hr'. simpl in Hr'. injection Hr' as <-. done.
    - pose proof (Hsf rid' r' Hr' Ho' Hn') as Hp'.
      destruct (req_origin r) eqn:Ho.
      + rewrite Hp1 by done. rewrite lookup_delete_ne; [done|].
        intros Hu. rewrite <- Hu in Hp'. rewrite (Hsf rid r Hr Ho Hn) in Hp'. congruence.
      + by rewrite Hp2. }
  destruct (req_origin r) eqn:Ho, (outcomeOf r reply) eqn:Hout;
    intros rid' r' Hr' Ho' Hn'; simpl in *; by eapply Hothers.
Qed.

(** Every run of component code other than [clearCache] keeps the
    invariant: whatever the interleaving, a URL never has two requests of
    [_fetchWithCache] in flight. *)
Lemma step_singleFlight w e :
  e <> ClearCache -> singleFlight w -> singleFlight (step w e).
Proof.
  intros He Hsf. destruct e; cbn [step]; try done.
  - unfold changeAttribute. repeat case_match; try done; by apply attributeChanged_singleFlight.
  - unfold changeAttribute. repeat case_match; try done; by apply attributeChanged_singleFlight.
  - unfold connectedCallback. repeat case_match; try done; by apply initLoading_singleFlight.
  - by apply abortFetch_singleFlight, destroyObserver_singleFlight.
  - unfold intersect. repeat case_match; try done.
    by apply beginLoad_singleFlight, destroyObserver_singleFlight.
  - unfold reload. repeat case_match; try done.
    by apply beginLoad_singleFlight, destroyObserver_singleFlight.
  - unfold prefetch. repeat case_match; try done. cbn [fst].
    intros rid r Hr Ho Hn. simpl in *.
    apply lookup_snoc_Some in Hr as [[_ Hr]|[_ <-]]; [by apply Hsf | done].
  - by apply settle_singleFlight.
  - apply (singleFlight_frame w); [|by destruct (resume_maps tid w)|done].
    unfold resume, afterFetch, failed. by repeat case_match.
  - apply (singleFlight_frame w); [|by destruct (animationFrame_maps tid w)|done].
    unfold animationFrame, _injectIntoShadow. by repeat case_match.
Qed.

Lemma run_singleFlight es w :
  ClearCache ∉ es -> singleFlight w -> singleFlight (run w es).
Proof.
  revert w. induction es as [|e es IH]; intros w Hes Hsf; [done|].
  apply not_elem_of_cons in Hes as [He Hes].
  cbn [run List.fold_left]. apply IH; [done|]. apply step_singleFlight; [congruence|done].
Qed.

(** Two requests of [_fetchWithCache] in flight are for different URLs. *)
Lemma singleFlight_unique w rid1 rid2 r1 r2 :
  singleFlight w ->
  requests w !! rid1 = Some r1 -> req_origin r1 = ViaCache -> req_result r1 = None ->
  requests w !! rid2 = Some r2 -> req_origin r2 = ViaCache -> req_result r2 = None ->
  req_url r1 = req_url r2 -> rid1 = rid2.
Proof.
  intros Hsf H1 Ho1 Hn1 H2 Ho2 Hn2 Hu.
  pose proof (Hsf rid1 r1 H1 Ho1 Hn1) as Hp1. pose proof (Hsf rid2 r2 H2 Ho2 Hn2) as Hp2.
  rewrite Hu in Hp1. congruence.
Qed.

(** *** Requesters over whole runs *)

Lemma sentFor_alter f rid0 w rid url :
  (forall r, req_url (f r) = req_url r /\ req_origin (f r) = req_origin r) ->
  (exists r, requests w !! rid = Some r /\ req_url r = url /\ req_origin r = ViaCache) ->
  exists r, alter f rid0 (requests w) !! rid = Some r /\ req_url r = url /\ req_origin r = ViaCache.
Proof.
  intros Hf (r & Hr & Hu & Ho). rewrite list_lookup_alter. case_decide as Hd.
  - subst rid0. rewrite Hr. exists (f r). destruct (Hf r) as [-> ->]. done.
  - by exists r.
Qed.

Lemma sentFor_snoc r0 w rid url :
  (exists r, requests w !! rid = Some r /\ req_url r = url /\ req_origin r = ViaCache) ->
  exists r, (requests w ++ [r0]) !! rid = Some r /\ req_url r = url /\ req_origin r = ViaCache.
Proof.
  intros (r & Hr & Hu & Ho). exists r. split; [|done].
  apply lookup_app_l_Some. done.
Qed.

(** What keeps the requests that were sent, adds no pending entry and no
    awaiting continuation, keeps the invariant. *)
Lemma linked_weaken w w' :
  (forall rid url, sentFor w rid url -> sentFor w' rid url) ->
  (forall url rid, _pending w' !! url = Some rid -> _pending w !! url = Some rid) ->
  (forall tid i src url rid,
     tasks w' !! tid = Some (AwaitFetch i src url (Shared rid)) ->
     tasks w !! tid = Some (AwaitFetch i src url (Shared rid))) ->
  linked w -> linked w'.
Proof.
  intros Hs Hp Ht [Lp Lt]. split.
  - intros url rid Hu. apply Hs, Lp, Hp, Hu.
  - intros tid i src url rid Hu. apply Hs, (Lt tid i src), Ht, Hu.
Qed.

Lemma linked_frame w w' :
  requests w' = requests w -> _pending w' = _pending w -> tasks w' = tasks w ->
  linked w -> linked w'.
Proof.
  intros Hr Hp Ht. apply linked_weaken.
  - intros rid url (r & Hrr & Hu). exists r. by rewrite Hr.
  - intros url rid. by rewrite Hp.
  - intros tid i src url rid. by rewrite Ht.
Qed.

Lemma destroyObserver_linked j w : linked w -> linked (_destroyObserver j w).
Proof.
  destruct (destroyObserver_maps j w) as [_ Hp]. destruct (destroyObserver_rest j w) as [Hr Ht].
  by apply linked_frame.
Qed.

Lemma abortFetch_linked j w : linked w -> linked (_abortFetch j w).
Proof.
  unfold _abortFetch. repeat case_match; try done.
  apply linked_weaken; try done.
  intros rid url Hs. unfold sentFor. cbn [requests update set_instances set_requests].
  by apply sentFor_alter.
Qed.

(** [_fetchWithCache] keeps the invariant, and the promise it hands out is
    that of a request it sent for the URL. *)
Lemma fetchWithCache_linked j url w :
  linked w ->
  linked (_fetchWithCache j url w).1 /\
  forall rid, (_fetchWithCache j url w).2 = Shared rid ->
              sentFor (_fetchWithCache j url w).1 rid url.
Proof.
  intros [Lp Lt]. unfold _fetchWithCache.
  destruct (_cache w !! url) eqn:Hc; [by split|].
  destruct (_pending w !! url) as [rid0|] eqn:Hp.
  { split; [done|]. cbn [fst snd]. intros rid [= <-]. by apply Lp. }
  cbn [fst snd].
  assert (Hnew : sentFor (set_pending (<[url := length (requests w)]> (_pending w))
                   (set_requests (requests w ++ [freshRequest url])
                      (update j (with_abortController (Some (length (requests w)))) w)))
                   (length (requests w)) url).
  { exists (freshRequest url). split; [|done]. cbn. by apply list_lookup_middle. }
  split; [split|].
  - intros url' rid. cbn [_pending set_pending]. intros Hu.
    apply lookup_insert_Some in Hu as [[<- <-]|[_ Hu]]; [exact Hnew|].
    unfold sentFor. cbn. apply sentFor_snoc. by apply Lp.
  - intros tid i src url' rid Ht. unfold sentFor. cbn. apply sentFor_snoc.
    by apply (Lt tid i src).
  - intros rid [= <-]. exact Hnew.
Qed.

Lemma linked_update i f w : linked w -> linked (update i f w).
Proof. by apply linked_frame. Qed.

Lemma beginLoad_linked j w : linked w -> linked (_beginLoad j w).
Proof.
  intros Hl. unfold _beginLoad.
  destruct (instances w !! j) as [x|]; [|done].
  destruct (_hasLoaded x); [done|].
  destruct (truthy _) as [src|]; [|by apply linked_update].
  destruct (URL_href src baseURI) as [url|]; [|by apply linked_update].
  set (w1 := setOwnAttribute j "aria-busy" "true" (update j (with_hasLoaded true) w)).
  assert (Hl1 : linked w1) by (by apply linked_update, linked_update).
  destruct (fetchWithCache_linked j url w1 Hl1) as [[Lp Lt] Hon].
  destruct (_fetchWithCache j url w1) as [w2 on]. cbn [fst snd] in *.
  split.
  - intros url' rid Hu. by apply Lp.
  - intros tid i src' url' rid Ht. cbn [tasks set_tasks] in Ht.
    unfold sentFor. cbn [requests set_tasks].
    apply lookup_snoc_Some in Ht as [[_ Ht]|[_ Ht]]; [by apply (Lt tid i src')|].
    injection Ht as <- <- <- ->. by apply Hon.
Qed.

Lemma initLoading_linked j w : linked w -> linked (_initLoading j w).
Proof.
  intros Hl. unfold _initLoading. repeat case_match; try done;
    by apply beginLoad_linked.
Qed.

Lemma attributeChanged_linked j name old new w :
  linked w -> linked (attributeChangedCallback j name old new w).
Proof.
  intros Hl. unfold attributeChangedCallback. repeat case_match; try done;
    repeat first [ apply initLoading_linked | apply destroyObserver_linked
                 | apply abortFetch_linked | apply linked_update ]; done.
Qed.

Lemma insert_finished_await (l : list Task) tid tid' i src url on :
  <[tid := Finished]> l !! tid' = Some (AwaitFetch i src url on) ->
  l !! tid' = Some (AwaitFetch i src url on).
Proof.
  intros Hl. apply list_lookup_insert_Some in Hl as [(_ & Hl & _)|[_ Hl]]; [discriminate|done].
Qed.

Lemma settle_linked rid reply w : linked w -> linked (settle rid reply w).
Proof.
  unfold settle.
  destruct (requests w !! rid) as [r|]; [|done].
  destruct (req_result r); [done|].
  assert (Hs : forall w', requests w' = alter (with_req_result (outcomeOf r reply)) rid (requests w) ->
                          forall rid' url, sentFor w rid' url -> sentFor w' rid' url).
  { intros w' Hw' rid' url Hsent. unfold sentFor. rewrite Hw'. by apply sentFor_alter. }
  destruct (req_origin r), (outcomeOf r reply); apply linked_weaken; try (by apply Hs); try done;
    cbn [_pending set_pending set_cache set_requests]; intros url rid' Hu;
    by apply lookup_delete_Some in Hu as [_ Hu].
Qed.

(** Every run of component code keeps the invariant. *)
Lemma step_linked w e : linked w -> linked (step w e).
Proof.
  intros Hl. destruct e; cbn [step].
  - by apply (linked_frame w).
  - unfold changeAttribute. repeat case_match; try done;
      repeat first [ apply attributeChanged_linked | apply linked_update ]; done.
  - unfold changeAttribute. repeat case_match; try done;
      repeat first [ apply attributeChanged_linked | apply linked_update ]; done.
  - unfold connectedCallback. repeat case_match; try done;
      repeat first [ apply initLoading_linked | apply linked_update ]; done.
  - by apply abortFetch_linked, destroyObserver_linked, linked_update.
  - unfold intersect. repeat case_match; try done.
    by apply beginLoad_linked, destroyObserver_linked.
  - unfold reload. repeat case_match; try done.
    apply beginLoad_linked, destroyObserver_linked, linked_update.
    by apply (linked_frame w).
  - destruct Hl as [_ Lt]. split.
    + intros url rid Hu. cbn in Hu. by rewrite lookup_empty in Hu.
    + exact Lt.
  - unfold prefetch. repeat case_match; try done. cbn [fst].
    revert Hl. apply linked_weaken; try done.
    intros rid url Hs. unfold sentFor. cbn. by apply sentFor_snoc.
  - by apply settle_linked.
  - revert Hl. apply linked_weaken.
    + intros rid url (r & Hr & Hu). exists r. split; [|done].
      replace (requests (resume tid w)) with (requests w); [done|].
      unfold resume, afterFetch, failed. by repeat case_match.
    + intros url rid. by rewrite (proj2 (resume_maps tid w)).
    + intros tid' i src url rid. unfold resume, afterFetch, failed. repeat case_match; try done;
        cbn [tasks set_tasks dispatchEvent setOwnAttribute update set_instances];
        intros Ht;
        try apply lookup_snoc_Some in Ht as [[_ Ht]|[_ Ht]];
        try (by eapply insert_finished_await);
        unfold _processHTML in *; repeat case_match; simplify_eq;
        match goal with E : extract ?d ?u ≫= _ = Some _ |- _ =>
          destruct (extract d u); discriminate E end.
  - revert Hl. apply linked_weaken.
    + intros rid url (r & Hr & Hu). exists r. split; [|done].
      replace (requests (animationFrame tid w)) with (requests w); [done|].
      unfold animationFrame, _injectIntoShadow. by repeat case_match.
    + intros url rid. by rewrite (proj2 (animationFrame_maps tid w)).
    + intros tid' i src url rid. unfold animationFrame, _injectIntoShadow.
      repeat case_match; try done;
        cbn [tasks set_tasks dispatchEvent setOwnAttribute update set_instances];
        intros Ht; by eapply insert_finished_await.
Qed.

Lemma run_linked es w : linked w -> linked (run w es).
Proof.
  revert w. induction es as [|e es IH]; intros w Hl; [done|].
  cbn [run List.fold_left]. by apply IH, step_linked.
Qed.

Lemma linked_initial : linked initial.
Proof.
  split.
  - intros url rid Hu. cbn in Hu. by rewrite lookup_empty in Hu.
  - intros tid i src url rid Ht. cbn in Ht. by rewrite lookup_nil in Ht.
Qed.

Lemma singleFlight_initial : singleFlight initial.
Proof. intros rid r Hr. cbn in Hr. by rewrite lookup_nil in Hr. Qed.

(** C1, amended. In every run of the component from the empty page in
    which [clearCache] is not called, whatever the interleaving of
    lifecycle callbacks, attribute changes, prefetches, network answers and
    continuations: two suspended [_beginLoad] on the same URL whose
    retrieval is still unanswered await the same promise, that of one
    request that [_fetchWithCache] sent for the URL; no other unanswered
    request of [_fetchWithCache] for that URL exists; and whatever the
    network answers to it, both observe the same outcome. *)
Theorem concurrent_requesters_share_one_retrieval es :
  ClearCache ∉ es ->
  let w := run initial es in
  forall tid1 tid2 i1 i2 src1 src2 url on1 on2,
    tasks w !! tid1 = Some (AwaitFetch i1 src1 url on1) ->
    tasks w !! tid2 = Some (AwaitFetch i2 src2 url on2) ->
    awaitOutcome w on1 = None -> awaitOutcome w on2 = None ->
    exists rid r,
      on1 = Shared rid /\ on2 = Shared rid /\
      requests w !! rid = Some r /\ req_url r = url /\ req_origin r = ViaCache /\
      req_result r = None /\
      (forall rid' r',
         requests w !! rid' = Some r' -> req_origin r' = ViaCache -> req_url r' = url ->
         req_result r' = None -> rid' = rid) /\
      (forall reply,
         awaitOutcome (settle rid reply w) on1 = Some (outcomeOf r reply) /\
         awaitOutcome (settle rid reply w) on2 = Some (outcomeOf r reply)).
Proof.
  intros Hes w tid1 tid2 i1 i2 src1 src2 url on1 on2 Ht1 Ht2 Ha1 Ha2.
  assert (Hsf : singleFlight w) by (by apply run_singleFlight, singleFlight_initial).
  assert (Hl : linked w) by apply run_linked, linked_initial.
  destruct Hl as [_ Lt].
  assert (Hawait : forall tid i src on,
            tasks w !! tid = Some (AwaitFetch i src url on) -> awaitOutcome w on = None ->
            exists rid r, on = Shared rid /\ requests w !! rid = Some r /\ req_url r = url /\
                          req_origin r = ViaCache /\ req_result r = None).
  { intros tid i src on Ht Ha. destruct on as [html|rid]; [discriminate|].
    destruct (Lt tid i src url rid Ht) as (r & Hr & Hu & Ho).
    exists rid, r. repeat (split; [done|]).
    unfold awaitOutcome in Ha. rewrite Hr in Ha. exact Ha. }
  destruct (Hawait tid1 i1 src1 on1 Ht1 Ha1) as (rid1 & r1 & -> & Hr1 & Hu1 & Ho1 & Hn1).
  destruct (Hawait tid2 i2 src2 on2 Ht2 Ha2) as (rid2 & r2 & -> & Hr2 & Hu2 & Ho2 & Hn2).
  assert (rid2 = rid1) as ->.
  { apply (singleFlight_unique w rid2 rid1 r2 r1); try done. by rewrite Hu1, Hu2. }
  exists rid1, r1. repeat (split; [done|]). split.
  - intros rid' r' Hr' Ho' Hu' Hn'.
    apply (singleFlight_unique w rid' rid1 r' r1); try done. by rewrite Hu1, Hu'.
  - intros reply. by rewrite (settle_outcome rid1 reply w r1).
Qed.

End ComponentFacts.

(** ** Scenarios *)

Section Scenarios.
Import Dom Transform Component Samples.
#[local] Existing Instance examplePlatform.
#[local] Open Scope list_scope.

Example oneLoading_state :
  requests oneLoading = [freshRequest pageURL] /\
  tasks oneLoading = [AwaitFetch 0 "a.html" pageURL (Shared 0)] /\
  _pending oneLoading !! pageURL = Some 0 /\
  _cache oneLoading !! pageURL = None.
Proof. vm_compute. done. Qed.

(** C3, as the code runs it.  Instance 0 sent the request, instance 1
    borrowed its promise.  Instance 0 is disconnected: its controller aborts
    the shared request.  Whatever the network would have answered, the
    promise is rejected with [AbortError]; instance 1, still connected,
    resumes in the [catch], which takes the error for its own cancellation:
    no event is dispatched, its shadow root keeps the placeholder,
    [aria-busy] stays "true" and [_hasLoaded] stays set.  Without the
    disconnection the same answer makes instance 1 load. *)
Theorem abort_by_owner_reaches_borrower :
  tasks twoLoading =
    [AwaitFetch 0 "a.html" pageURL (Shared 0); AwaitFetch 1 "a.html" pageURL (Shared 0)] /\
  (let w := run twoLoading [Disconnect 0; Settle 0 answer; Resume 0; Resume 1] in
   awaitOutcome w (Shared 0) = Some (Rejected AbortError) /\
   signals w = [] /\
   tasks w = [Finished; Finished] /\
   instances w !! 1 =
     Some {| attributes := [("src", "a.html"); ("loading", "eager");
                            ("role", "presentation"); ("aria-busy", "true")];
             shadowRoot := ShadowPlaceholder; _observer := None;
             _abortController := None; _hasLoaded := true; _isConnected := true |}) /\
  (let w := run twoLoading [Settle 0 answer; Resume 1; AnimationFrame 2] in
   signals w = [Loaded 1 (Some "a.html") 0 0 false] /\
   (shadowRoot <$> instances w !! 1) = Some (ShadowInjected None [] "hello")).
Proof. vm_compute. done. Qed.

(** C2, counterexample.  While instance 0 waits for its request, the page
    calls [prefetch] for the same URL and the network answers the prefetch
    first: the URL is now in the cache and still pending. *)
Lemma prefetch_completion_puts_url_in_both_maps :
  let w := run oneLoading [Prefetch "a.html"] in
  let w' := step w (Settle 1 answer) in
  exclusive w /\
  _cache w' !! pageURL = Some "hello" /\
  _pending w' !! pageURL = Some 0 /\
  ~ exclusive w'.
Proof.
  assert (Hc : _cache (step (run oneLoading [Prefetch "a.html"]) (Settle 1 answer)) !! pageURL
               = Some "hello") by (vm_compute; done).
  assert (Hp : _pending (step (run oneLoading [Prefetch "a.html"]) (Settle 1 answer)) !! pageURL
               = Some 0) by (vm_compute; done).
  cbv zeta. split; [|split; [done|split; [done|]]].
  - intros url [v Hv]. exfalso. revert Hv.
    change (_cache (run oneLoading [Prefetch "a.html"])) with (∅ : gmap string string).
    by rewrite lookup_empty.
  - intros Hex. specialize (Hex pageURL). rewrite Hc, Hp in Hex.
    by specialize (Hex (ltac:(eexists; reflexivity))).
Qed.

(** C4, counterexample.  Instance 0 has a source and its retrieval is
    pending; [reload()] sends nothing. *)
Lemma reload_joins_pending_retrieval :
  (getAttribute "src" ∘ attributes <$> instances oneLoading !! 0) = Some (Some "a.html") /\
  _pending oneLoading !! pageURL = Some 0 /\
  requests (step oneLoading (Reload 0)) = requests oneLoading /\
  length (requests (step oneLoading (Reload 0))) = 1.
Proof. vm_compute. done. Qed.

(** C5, as the code runs it.  Instance 0 sent the request for a.html,
    instance 1 borrowed its promise and holds no controller.  The [src] of
    instance 1 changes to b.html: [_abortFetch] finds nothing to abort, the
    continuation that waits for a.html stays suspended beside the new one,
    and the request is not aborted.  When a.html is answered the stale
    continuation resumes on the connected instance and injects the text of
    a.html into the shadow root of an instance whose [src] is b.html, with
    a [templastic-loaded] that names b.html; the answer for b.html injects
    a second time.  The [src] branch does not disconnect the visibility
    observer either: on an instance that is still observing, the old
    observer stays registered beside the new one.  A change of [loading]
    after a load has started keeps [_hasLoaded] set, aborts nothing and
    leaves the stale continuation waiting. *)
Theorem stale_pipeline_survives_attribute_change :
  (let w := run twoLoading [SetAttribute 1 "src" "b.html"] in
   let w' := run w [Settle 0 answer; Resume 1; AnimationFrame 3] in
   let w'' := run w' [Settle 1 (Response 200 "OK" "bye"); Resume 2; AnimationFrame 4] in
   tasks twoLoading =
     [AwaitFetch 0 "a.html" pageURL (Shared 0); AwaitFetch 1 "a.html" pageURL (Shared 0)] /\
   (_abortController <$> instances twoLoading !! 1) = Some None /\
   tasks w =
     [AwaitFetch 0 "a.html" pageURL (Shared 0); AwaitFetch 1 "a.html" pageURL (Shared 0);
      AwaitFetch 1 "b.html" "https://x/b.html" (Shared 1)] /\
   (req_aborted <$> requests w !! 0) = Some false /\
   hostAttribute 1 "src" w' = Some "b.html" /\
   (shadowRoot <$> instances w' !! 1) = Some (ShadowInjected None [] "hello") /\
   signals w' = [Loaded 1 (Some "b.html") 0 0 false] /\
   (shadowRoot <$> instances w'' !! 1) = Some (ShadowInjected None [] "bye") /\
   signals w'' = [Loaded 1 (Some "b.html") 0 0 false; Loaded 1 (Some "b.html") 0 0 false]) /\
  (let w := run lazyObserving [SetAttribute 0 "src" "b.html"] in
   observers lazyObserving = [{| obs_inst := 0; obs_active := true |}] /\
   observers w = [{| obs_inst := 0; obs_active := true |};
                  {| obs_inst := 0; obs_active := true |}] /\
   (_observer <$> instances w !! 0) = Some (Some 1)) /\
  (let w := step oneLoading (SetAttribute 0 "loading" "lazy") in
   ((fun x => (_isConnected x, _hasLoaded x)) <$> instances oneLoading !! 0) = Some (true, true) /\
   ((fun x => (_isConnected x, _hasLoaded x)) <$> instances w !! 0) = Some (true, true) /\
   (req_aborted <$> requests w !! 0) = Some false /\
   tasks w = [AwaitFetch 0 "a.html" pageURL (Shared 0)]).
Proof. vm_compute. done. Qed.

Lemma exclusive_oneLoading : exclusive oneLoading.
Proof.
  intros url [v Hv]. exfalso. revert Hv.
  change (_cache oneLoading) with (∅ : gmap string string). by rewrite lookup_empty.
Defined.

Example back_to_back_twoIdle :
  2 <= length [0; 1] /\
  _cache twoIdle !! pageURL = None /\ _pending twoIdle !! pageURL = None /\
  requests (fetchAll [0; 1] pageURL twoIdle).1 = requests twoIdle ++ [freshRequest pageURL] /\
  Forall (fun on => on = Shared 0) (fetchAll [0; 1] pageURL twoIdle).2.
Proof.
  assert (H1 : 2 <= length [0; 1]) by (simpl; lia).
  assert (H2 : _cache twoIdle !! pageURL = None) by reflexivity.
  assert (H3 : _pending twoIdle !! pageURL = None) by reflexivity.
  pose proof (back_to_back_requesters_share_one_request [0; 1] pageURL twoIdle H1 H2 H3)
    as (Ha & _ & Hb & _).
  repeat split; assumption.
Qed.

Lemma concurrent_requesters_share_one_retrieval_witness :
  tasks (run initial twoRequesters) =
    [AwaitFetch 0 "a.html" pageURL (Shared 0); AwaitFetch 1 "a.html" pageURL (Shared 0)] /\
  requests (run initial twoRequesters) = [freshRequest pageURL] /\
  awaitOutcome (settle 0 notFound (run initial twoRequesters)) (Shared 0) =
    Some (Rejected (HttpError 404 "Not Found")).
Proof.
  split; [reflexivity|]. split; [reflexivity|].
  assert (Hes : ClearCache ∉ twoRequesters).
  { intros Hin. repeat (apply elem_of_cons in Hin as [Hin|Hin]; [discriminate Hin|]).
    by apply elem_of_nil in Hin. }
  destruct (@concurrent_requesters_share_one_retrieval examplePlatform twoRequesters Hes
              0 1 0 1 "a.html" "a.html" pageURL (Shared 0) (Shared 0)
              ltac:(reflexivity) ltac:(reflexivity) ltac:(reflexivity) ltac:(reflexivity))
    as (rid & r & Hon & _ & Hr & _ & _ & _ & _ & Hout).
  injection Hon as <-. vm_compute in Hr. injection Hr as <-.
  exact (proj1 (Hout notFound)).
Defined.

Lemma maps_exclusive_unless_prefetch_completes_witness :
  exclusive oneLoading /\ exclusive (step oneLoading (Settle 0 answer)).
Proof.
  split; [exact exclusive_oneLoading|].
  apply (@maps_exclusive_unless_prefetch_completes examplePlatform); [exact exclusive_oneLoading|].
  intros rid reply r html He Hr Ho _ _. injection He as <- <-.
  vm_compute in Hr. injection Hr as <-. discriminate Ho.
Defined.

Lemma reload_retrieves_unless_pending_witness :
  _pending idleWithSource !! pageURL = None /\
  requests (reload 0 idleWithSource) = requests idleWithSource ++ [freshRequest pageURL].
Proof.
  split; [reflexivity|].
  eapply (proj1 (@reload_retrieves_unless_pending examplePlatform 0 _ "a.html" pageURL idleWithSource
                   ltac:(reflexivity) ltac:(reflexivity) ltac:(reflexivity))).
  reflexivity.
Defined.

Lemma attribute_change_rearms_src_only_witness :
  let w := changeAttribute 0 "loading" (Some "lazy") oneLoading in
  requests w = requests oneLoading /\ tasks w = tasks oneLoading.
Proof.
  destruct (proj2 (@attribute_change_rearms_src_only examplePlatform) 0 _ oneLoading (Some "lazy")
              ltac:(reflexivity) ltac:(reflexivity) ltac:(discriminate) ltac:(reflexivity))
    as (Hr & Ht & _).
  split; assumption.
Defined.

Lemma failed_retrieval_leaves_url_retryable_witness :
  let w := settle 0 notFound oneLoading in
  _pending w !! pageURL = None /\ _cache w = _cache oneLoading /\
  awaitOutcome w (Shared 0) = Some (Rejected (HttpError 404 "Not Found")) /\
  requests (_fetchWithCache 1 pageURL w).1 = requests w ++ [freshRequest pageURL].
Proof.
  destruct (@failed_retrieval_leaves_url_retryable examplePlatform oneLoading 0 (freshRequest pageURL) notFound
              (HttpError 404 "Not Found")
              ltac:(reflexivity) ltac:(reflexivity) ltac:(reflexivity) ltac:(reflexivity))
    as (Hp & Hc & Ho & _ & Hfresh & _).
  split; [exact Hp|]. split; [exact Hc|]. split; [exact Ho|].
  exact (proj2 (Hfresh ltac:(reflexivity) 1)).
Defined.

Lemma disconnected_instance_never_injects_witness :
  let w := run twoLoading [Disconnect 1] in
  let es := [Settle 0 answer; Resume 0; Resume 1; AnimationFrame 2; AnimationFrame 3] in
  (_isConnected <$> instances w !! 1) = Some false /\
  loadedBy 1 (signals (run w es)) = loadedBy 1 (signals w).
Proof.
  split; [reflexivity|].
  eapply (proj2 (@disconnected_instance_never_injects examplePlatform 1 _ (run twoLoading [Disconnect 1])
                   [Settle 0 answer; Resume 0; Resume 1; AnimationFrame 2; AnimationFrame 3]
                   ltac:(reflexivity) ltac:(reflexivity) _)).
  Unshelve.
  intros Hin. repeat (apply elem_of_cons in Hin as [Hin|Hin]; [discriminate Hin|]).
  by apply elem_of_nil in Hin.
Defined.

Lemma root_inline_style_moves_to_host_witness :
  exists x,
    extract divDocument pageURL = Some x /\
    hostInlineStyle x = Some "color:red" /\
    firstElement (body (content x)) = Some (Elem "div" [] [Elem "p" [] [Text "hi"]]).
Proof.
  destruct (proj1 (@root_inline_style_moves_to_host examplePlatform) divDocument pageURL "div"
              [("style", "color:red")] [Elem "p" [] [Text "hi"]] "color:red"
              ltac:(constructor) ltac:(reflexivity) ltac:(reflexivity) ltac:(discriminate))
    as (x & Hx & Hs & _ & Hf & _).
  exists x. split; [exact Hx|]. split; [exact Hs|exact Hf].
Defined.

Lemma srcset_candidates_made_absolute_witness :
  (exists a',
     documentElements (_resolveRelativeURLs imgDocument "https://x/dir/page.html") !! 0 =
       Some ("img", a') /\
     getAttribute "srcset" a' =
       Some "https://x/dir/img.png 1x, https://x/dir/img2.png 2x") /\
  _resolveRelativeURLs imgDocument "https://x/dir/page.html" =
    {| head := [];
       body := [Elem "img" [("srcset", "https://x/dir/img.png 1x, https://x/dir/img2.png 2x")] []] |}.
Proof.
  split.
  - apply (proj1 (@srcset_candidates_made_absolute examplePlatform) imgDocument
             "https://x/dir/page.html" 0 "img"
             [("srcset", "img.png 1x, img2.png 2x")] imgCandidates
             ["https://x/dir/img.png"; "https://x/dir/img2.png"]).
    + reflexivity.
    + reflexivity.
    + reflexivity.
    + repeat constructor.
    + repeat constructor.
  - apply (proj2 (@srcset_candidates_made_absolute examplePlatform)); reflexivity.
Defined.

Lemma prefetch_races_independently_witness :
  _pending oneLoading !! pageURL = Some 0 /\
  (prefetch "a.html" oneLoading).2 = Some (Shared 1) /\
  _pending (prefetch "a.html" oneLoading).1 = _pending oneLoading.
Proof.
  destruct (@prefetch_races_independently examplePlatform "a.html" pageURL oneLoading ltac:(reflexivity))
    as (_ & Hp & _ & Hmiss & _).
  split; [reflexivity|]. split; [|exact Hp].
  rewrite (Hmiss ltac:(reflexivity)). reflexivity.
Defined.

(** *** Where the hypotheses of the theorems end *)

(** Any white space around the pieces of a [srcset] is accepted; the value
    is written back with single spaces. *)
Example srcset_loose_layout :
  resolveValue "srcset" "https://x/dir/page.html"
    (String.concat "" ["  a.png   1x ,"; String "009" "b.png 2x"; String "010" ""]) =
  Some "https://x/dir/a.png 1x, https://x/dir/b.png 2x".
Proof. reflexivity. Qed.

(** The guard looks at the start of the whole value: a [srcset] that begins
    with a fragment or a [data:] URL is left as it is, other candidates
    included; so is one with a URL that [new URL] rejects. *)
Example srcset_held_back_by_guard :
  rewriteAttr "srcset" "https://x/dir/page.html" [("srcset", "#top 1x, img.png 2x")] =
    [("srcset", "#top 1x, img.png 2x")] /\
  rewriteAttr "srcset" "https://x/dir/page.html" [("srcset", "img.png 1x, https:// 2x")] =
    [("srcset", "img.png 1x, https:// 2x")].
Proof. split; reflexivity. Qed.

(** Step 3c looks at the body after steps 3a and 3b: a style block that
    comes first is gone by then.  A stylesheet link that [new URL] rejects
    makes the whole extraction throw. *)
Example root_style_is_read_after_extraction :
  (hostInlineStyle <$>
     extract {| head := [];
                body := [Text "x"; Elem "style" [("style", "color:red")] [Text "p{}"];
                         Elem "div" [] []] |} pageURL) = Some None /\
  extract {| head := [];
             body := [Elem "div" [("style", "color:red")]
                        [Elem "link" [("rel", "stylesheet"); ("href", "https://")] []]] |}
          pageURL = None.
Proof. split; reflexivity. Qed.

(** An instance that is connected again before the retrieval it borrowed
    settles is connected when its continuation resumes, and loads. *)
Example reconnected_instance_loads :
  signals (run twoLoading
             [Disconnect 1; Connect 1; Settle 0 answer; Resume 1; AnimationFrame 2]) =
    [Loaded 1 (Some "a.html") 0 0 false].
Proof. vm_compute. reflexivity. Qed.

(** C1, counterexample.  [clearCache] between two requesters drops the
    pending entry while the first retrieval is in flight: the second
    requester sends a request of its own for the same URL, and the two
    observe what the network answers to each. *)
Lemma clearCache_splits_requesters :
  let w := run oneLoading
             [ClearCache; Construct; SetAttribute 1 "src" "a.html";
              SetAttribute 1 "loading" "eager"; Connect 1] in
  let w' := run w [Settle 0 notFound; Settle 1 answer] in
  requests w = [freshRequest pageURL; freshRequest pageURL] /\
  tasks w = [AwaitFetch 0 "a.html" pageURL (Shared 0);
             AwaitFetch 1 "a.html" pageURL (Shared 1)] /\
  awaitOutcome w' (Shared 0) = Some (Rejected (HttpError 404 "Not Found")) /\
  awaitOutcome w' (Shared 1) = Some (Fulfilled "hello").
Proof. vm_compute. done. Qed.

(** A [prefetch] of the same URL that is answered between two requesters
    puts the text in the cache: the second requester is served from the
    cache and shares nothing with the first, whose retrieval can still
    fail. *)
Example prefetch_answer_splits_requesters :
  let w := run oneLoading
             [Prefetch "a.html"; Settle 1 answer; Construct; SetAttribute 1 "src" "a.html";
              SetAttribute 1 "loading" "eager"; Connect 1; Settle 0 notFound] in
  tasks w = [AwaitFetch 0 "a.html" pageURL (Shared 0);
             AwaitFetch 1 "a.html" pageURL (Ready "hello")] /\
  awaitOutcome w (Shared 0) = Some (Rejected (HttpError 404 "Not Found")) /\
  awaitOutcome w (Ready "hello") = Some (Fulfilled "hello").
Proof. vm_compute. done. Qed.

(** C6, counterexample.  When a [prefetch] for the same URL was answered
    first, a failure of the pending retrieval leaves the URL cached: the
    waiter gets the 404, and a caller that retries is handed the prefetched
    text and sends no request. *)
Lemma failure_after_prefetch_leaves_url_cached :
  let w := run oneLoading [Prefetch "a.html"; Settle 1 answer; Settle 0 notFound] in
  awaitOutcome w (Shared 0) = Some (Rejected (HttpError 404 "Not Found")) /\
  _pending w !! pageURL = None /\
  _cache w !! pageURL = Some "hello" /\
  _fetchWithCache 0 pageURL w = (w, Ready "hello").
Proof. vm_compute. done. Qed.

End Scenarios.

(** * More of the code *)

(** ** The content transformer, beyond the root style and [srcset] *)

Section TransformMore.
Import Dom Transform.
Context `{Platform}.
#[local] Open Scope list_scope.

Lemma select_prune q n : List.flat_map (select q) (prune q n) = [].
Proof.
  induction n as [t a ch IH|s|s|s] using Node_forest_ind; [|done..].
  simpl. destruct (q t a) eqn:Hq; [done|]. simpl. rewrite Hq, app_nil_r. simpl.
  induction IH as [|c ch Hc _ IHch]; [done|].
  simpl. rewrite List.flat_map_app, Hc, IHch. done.
Qed.

Lemma noMatch_prune q ns : List.flat_map (select q) (List.flat_map (prune q) ns) = [].
Proof.
  induction ns as [|n ns IH]; [done|].
  simpl. by rewrite List.flat_map_app, select_prune, IH.
Qed.

Lemma select_prune_other q q' n : select q n = [] -> List.flat_map (select q) (prune q' n) = [].
Proof.
  induction n as [t a ch IH|s|s|s] using Node_forest_ind; [|done..].
  simpl. intros Hn. apply app_eq_nil in Hn as [Hq Hch].
  assert (Hq' : q t a = false) by (by destruct (q t a)).
  destruct (q' t a); [done|]. simpl. rewrite Hq', app_nil_r. simpl. clear Hq.
  induction IH as [|c ch Hc _ IHch]; [done|].
  simpl in Hch. apply app_eq_nil in Hch as [Hc1 Hch].
  simpl. rewrite List.flat_map_app, (Hc Hc1), (IHch Hch). done.
Qed.

Lemma noMatch_prune_other q q' ns : List.flat_map (select q) ns = [] -> List.flat_map (select q) (List.flat_map (prune q') ns) = [].
Proof.
  induction ns as [|n ns IH]; [done|]. simpl. intros Hn.
  apply app_eq_nil in Hn as [Hn1 Hn2].
  by rewrite List.flat_map_app, (select_prune_other q q' n Hn1), (IH Hn2).
Qed.

Lemma select_mapAttrs q f n :
  (forall t a, q t (f t a) = q t a) -> select q n = [] -> select q (mapAttrs f n) = [].
Proof.
  intros Hf. induction n as [t a ch IH|s|s|s] using Node_forest_ind; [|done..].
  simpl. intros Hn. apply app_eq_nil in Hn as [Hq Hch]. rewrite Hf.
  destruct (q t a); [done|]. simpl. clear Hq.
  induction IH as [|c ch Hc _ IHch]; [done|].
  simpl in Hch. apply app_eq_nil in Hch as [Hc1 Hch]. simpl. by rewrite (Hc Hc1), (IHch Hch).
Qed.

Lemma noMatch_map q f ns :
  (forall t a, q t (f t a) = q t a) -> List.flat_map (select q) ns = [] -> List.flat_map (select q) (List.map (mapAttrs f) ns) = [].
Proof.
  intros Hf. induction ns as [|n ns IH]; [done|]. simpl. intros Hn.
  apply app_eq_nil in Hn as [Hn1 Hn2].
  by rewrite (select_mapAttrs q f n Hf Hn1), (IH Hn2).
Qed.

Lemma noMatch_updateFirst q g ns :
  (forall t a, q t (g a) = q t a) -> List.flat_map (select q) ns = [] -> List.flat_map (select q) (updateFirstElement g ns) = [].
Proof.
  intros Hg. induction ns as [|n ns IH]; [done|].
  destruct n as [t a ch|s|s|s]; simpl; [|by apply IH..].
  rewrite Hg. intros Hn. apply app_eq_nil in Hn as [Hq Hr].
  destruct (q t a); [done|]. by rewrite Hq, Hr.
Qed.

Lemma getAttribute_remove_ne name other a :
  other <> name -> getAttribute name (removeAttribute other a) = getAttribute name a.
Proof.
  intros Hne. induction a as [|[k w] a IH]; [done|]. simpl.
  destruct (String.eqb_spec k other) as [->|Hk]; simpl.
  - destruct (String.eqb_spec other name); [congruence | exact IH].
  - destruct (String.eqb k name); [reflexivity | exact IH].
Qed.

Lemma sel_link_rewriteElement baseURL row t a :
  row.1 <> "rel" ->
  sel_stylesheet_link t (rewriteElement baseURL row t a) = sel_stylesheet_link t a.
Proof. intros Hne. unfold sel_stylesheet_link. by rewrite rewriteElement_other. Qed.

Lemma noMatch_resolve q doc baseURL :
  (forall row t a, row ∈ selectors -> q t (rewriteElement baseURL row t a) = q t a) ->
  List.flat_map (select q) (head doc) = [] -> List.flat_map (select q) (body doc) = [] ->
  List.flat_map (select q) (head (_resolveRelativeURLs doc baseURL)) = [] /\
  List.flat_map (select q) (body (_resolveRelativeURLs doc baseURL)) = [].
Proof.
  unfold _resolveRelativeURLs. generalize selectors as rows. intros rows. revert doc.
  induction rows as [|row rows IH]; intros doc Hq Hh Hb; [done|].
  simpl. apply IH.
  - intros row' t a Hin. apply Hq. by right.
  - simpl. apply noMatch_map; [|done]. intros t a. apply Hq. by left.
  - simpl. apply noMatch_map; [|done]. intros t a. apply Hq. by left.
Qed.

Lemma fragments_mapAttrs f n : fragments (mapAttrs f n) = fragments n.
Proof.
  induction n as [t a ch IH|s|s|s] using Node_forest_ind; [|reflexivity..].
  cbn [mapAttrs fragments].
  induction IH as [|c ch Hc _ IHch]; [reflexivity|]. simpl. by rewrite Hc, IHch.
Qed.

Lemma fragments_map f ns :
  List.flat_map fragments (List.map (mapAttrs f) ns) = List.flat_map fragments ns.
Proof. induction ns as [|n ns IH]; [done|]. simpl. by rewrite fragments_mapAttrs, IH. Qed.

Lemma fragments_updateFirst g ns :
  List.flat_map fragments (updateFirstElement g ns) = List.flat_map fragments ns.
Proof.
  induction ns as [|n ns IH]; [done|].
  destruct n as [t a ch|s|s|s]; simpl; [done|by rewrite IH..].
Qed.

Lemma fragments_resolve doc baseURL :
  documentFragments (_resolveRelativeURLs doc baseURL) = documentFragments doc.
Proof.
  unfold _resolveRelativeURLs. generalize selectors as rows. intros rows. revert doc.
  induction rows as [|row rows IH]; intros doc; [done|].
  cbn [List.fold_left]. rewrite IH. unfold documentFragments, mapDocument. cbn [head body].
  by rewrite !fragments_map.
Qed.

(** X1. Whatever the fragment, [querySelectorAll] finds no style block and
    no stylesheet link in the content that [_processHTML] hands on: steps
    3a and 3b take out every one that the queries reach, and the later
    steps bring none back.  What is inside the contents of a [template]
    element that stays is out of the queries' reach: it is handed on as it
    was parsed, style blocks, stylesheet links and relative references
    included. *)
Theorem content_keeps_no_style_or_stylesheet_link doc resolvedURL x :
  extract doc resolvedURL = Some x ->
  querySelectorAll sel_style (content x) = [] /\
  querySelectorAll sel_stylesheet_link (content x) = [] /\
  documentFragments (content x) =
    documentFragments (removeAll sel_stylesheet_link (removeAll sel_style doc)).
Proof.
  unfold extract. intros Hx.
  destruct (resolveLinks _ _) as [links|]; [|discriminate]. cbn [mbind option_bind] in Hx.
  injection Hx as <-. cbn [content].
  set (d1 := removeAll sel_style doc). set (d2 := removeAll sel_stylesheet_link d1).
  set (d3 := match rootStyle (body d2) with
             | Some _ => {| head := head d2;
                            body := updateFirstElement (removeAttribute "style") (body d2) |}
             | None => d2
             end).
  change (querySelectorAll sel_style (_resolveRelativeURLs d3 resolvedURL) = [] /\
          querySelectorAll sel_stylesheet_link (_resolveRelativeURLs d3 resolvedURL) = [] /\
          documentFragments (_resolveRelativeURLs d3 resolvedURL) = documentFragments d2).
  assert (Hs3 : List.flat_map (select sel_style) (head d3) = [] /\ List.flat_map (select sel_style) (body d3) = []).
  { assert (Hs2 : List.flat_map (select sel_style) (head d2) = [] /\ List.flat_map (select sel_style) (body d2) = []).
    { split; apply noMatch_prune_other, noMatch_prune. }
    unfold d3. destruct (rootStyle (body d2)); [|done]. simpl.
    split; [apply Hs2|]. apply noMatch_updateFirst; [done|apply Hs2]. }
  assert (Hl3 : List.flat_map (select sel_stylesheet_link) (head d3) = [] /\ List.flat_map (select sel_stylesheet_link) (body d3) = []).
  { assert (Hl2 : List.flat_map (select sel_stylesheet_link) (head d2) = [] /\ List.flat_map (select sel_stylesheet_link) (body d2) = []).
    { split; apply noMatch_prune. }
    unfold d3. destruct (rootStyle (body d2)); [|done]. simpl.
    split; [apply Hl2|]. apply noMatch_updateFirst; [|apply Hl2].
    intros t a. unfold sel_stylesheet_link. by rewrite getAttribute_remove_ne. }
  unfold querySelectorAll. split; [|split].
  - destruct (noMatch_resolve sel_style d3 resolvedURL) as [-> ->]; [done|apply Hs3..|done].
  - destruct (noMatch_resolve sel_stylesheet_link d3 resolvedURL) as [-> ->];
      [|apply Hl3..|done].
    intros row t a Hin. apply sel_link_rewriteElement.
    unfold selectors in Hin.
    repeat (apply elem_of_cons in Hin as [->|Hin]; [done|]). by apply elem_of_nil in Hin.
  - rewrite fragments_resolve. unfold d3. destruct (rootStyle (body d2)); [|done].
    unfold documentFragments. cbn [head body]. by rewrite fragments_updateFirst.
Qed.


Lemma select_sound q n l :
  l ∈ select q n -> exists t a ch, l = Elem t a ch /\ q t a = true.
Proof.
  revert l. induction n as [t a ch IH|s|s|s] using Node_forest_ind; intros l Hl;
    try (by apply elem_of_nil in Hl).
  cbn [select] in Hl. apply elem_of_app in Hl as [Hl|Hl].
  - destruct (q t a) eqn:Hq; [|by apply elem_of_nil in Hl].
    apply list_elem_of_singleton in Hl as ->. by exists t, a, ch.
  - induction IH as [|c ch Hc _ IHch]; [by apply elem_of_nil in Hl|].
    cbn [List.flat_map] in Hl. apply elem_of_app in Hl as [Hl|Hl]; [by apply Hc | by apply IHch].
Qed.

Lemma querySelectorAll_sound q d :
  Forall (fun l => exists t a ch, l = Elem t a ch /\ q t a = true) (querySelectorAll q d).
Proof.
  apply Forall_forall. intros l Hl. unfold querySelectorAll in Hl.
  apply elem_of_app in Hl as [Hl|Hl].
  - induction (head d) as [|n ns IH]; [by apply elem_of_nil in Hl|].
    cbn [List.flat_map] in Hl. apply elem_of_app in Hl as [Hl|Hl];
      [by apply (select_sound q n) | by apply IH].
  - induction (body d) as [|n ns IH]; [by apply elem_of_nil in Hl|].
    cbn [List.flat_map] in Hl. apply elem_of_app in Hl as [Hl|Hl];
      [by apply (select_sound q n) | by apply IH].
Qed.

Lemma resolveLinks_clones resolvedURL (q : Selector) links out :
  Forall (fun l => exists t a ch, l = Elem t a ch /\ q t a = true) links ->
  resolveLinks resolvedURL links = Some out ->
  Forall2 (fun l c => exists t a ch href u,
             l = Elem t a ch /\ q t a = true /\
             getAttribute "href" a = Some href /\ href <> "" /\
             URL_href href resolvedURL = Some u /\
             c = Elem t (setAttribute "href" u a) ch)
          (linksWithHref links) out.
Proof.
  unfold resolveLinks. intros Hq Hr.
  destruct (mapM (resolveLink resolvedURL) links) as [cloned|] eqn:Hm; [|discriminate].
  simpl in Hr. injection Hr as <-. apply mapM_Some_1 in Hm.
  induction Hm as [|l c links cloned Hl _ IH]; [constructor|].
  apply Forall_cons in Hq as [(t & a & ch & -> & Hqa) Hq]. specialize (IH Hq).
  unfold linksWithHref in *. cbn [List.filter List.concat]. unfold hasHref at 1.
  cbn [nodeAttrs resolveLink] in *.
  destruct (getAttribute "href" a) as [href|] eqn:Hh; [|injection Hl as <-; exact IH].
  destruct (String.eqb_spec href "") as [->|Hne]; [injection Hl as <-; exact IH|].
  destruct (URL_href href resolvedURL) as [u|] eqn:Hu; [|discriminate].
  simpl in Hl. injection Hl as <-. simpl. constructor; [|exact IH].
  by exists t, a, ch, href, u.
Qed.

(** X2. The stylesheet references that [_processHTML] hands on are, in
    document order, clones of the stylesheet links that the query reaches
    and that carry a non-empty [href]: each is its link, the same element
    with the same attributes at the same places and the same children,
    except that its [href] is the link's [href] resolved against the
    fragment's URL.  A link without [href] is dropped, so [linksResolved]
    counts only the links that have one. *)
Theorem stylesheet_links_resolved_in_order doc resolvedURL x :
  extract doc resolvedURL = Some x ->
  Forall2 (fun l c => exists t a ch href u,
             l = Elem t a ch /\ sel_stylesheet_link t a = true /\
             getAttribute "href" a = Some href /\ href <> "" /\
             URL_href href resolvedURL = Some u /\
             c = Elem t (setAttribute "href" u a) ch)
          (linksWithHref (querySelectorAll sel_stylesheet_link (removeAll sel_style doc)))
          (resolvedLinks x) /\
  length (resolvedLinks x) =
    length (linksWithHref (querySelectorAll sel_stylesheet_link (removeAll sel_style doc))).
Proof.
  unfold extract. intros Hx.
  destruct (resolveLinks _ _) as [links|] eqn:Hl; [|discriminate].
  cbn [mbind option_bind] in Hx. injection Hx as <-. cbn [resolvedLinks].
  pose proof (resolveLinks_clones _ _ _ _ (querySelectorAll_sound _ _) Hl) as HF.
  split; [exact HF|]. symmetry. by eapply Forall2_length.
Qed.

Lemma setAttribute_names name v a :
  is_Some (getAttribute name a) -> List.map fst (setAttribute name v a) = List.map fst a.
Proof.
  induction a as [|[k w] a IH]; simpl; [by intros [? ?]|].
  destruct (String.eqb k name); [done|]. intros Hs. simpl. by rewrite IH.
Qed.

Lemma rewriteElement_names baseURL row t a :
  List.map fst (rewriteElement baseURL row t a) = List.map fst a.
Proof.
  unfold rewriteElement, rewriteAttr. destruct (row.2 t a); [|done].
  destruct (getAttribute row.1 a) eqn:Hg; [|done].
  destruct (skipped s); [done|]. destruct (resolveValue _ _ _); [|done].
  apply setAttribute_names. by rewrite Hg.
Qed.

Lemma rewriteAll_names baseURL t a : List.map fst (rewriteAll baseURL t a) = List.map fst a.
Proof.
  unfold rewriteAll. generalize selectors as rows. intros rows. revert a.
  induction rows as [|row rows IH]; intros a; [done|].
  simpl. by rewrite IH, rewriteElement_names.
Qed.

Lemma rewriteAll_other baseURL t a name :
  name ∉ rewrittenAttributes ->
  getAttribute name (rewriteAll baseURL t a) = getAttribute name a.
Proof.
  intros Hn. unfold rewriteAll, selectors. cbn [List.fold_left].
  rewrite !rewriteElement_other; [done|..]; cbn [fst]; intros <-; apply Hn;
    unfold rewrittenAttributes; set_solver.
Qed.

(** X3. [_resolveRelativeURLs] changes values only: every element stays
    where it is with its name, its attributes keep their names and their
    order, and an attribute that is not [src], [href], [action], [srcset]
    or [poster] keeps its value. *)
Theorem resolve_changes_only_listed_values doc baseURL :
  Forall2 (fun before after =>
             after.1 = before.1 /\
             List.map fst after.2 = List.map fst before.2 /\
             forall name, name ∉ rewrittenAttributes ->
                          getAttribute name after.2 = getAttribute name before.2)
          (documentElements doc)
          (documentElements (_resolveRelativeURLs doc baseURL)).
Proof.
  rewrite resolve_elements. induction (documentElements doc) as [|[t a] l IH]; [constructor|].
  simpl. constructor; [|exact IH]. simpl.
  split; [done|]. split; [apply rewriteAll_names|]. intros name Hn. by apply rewriteAll_other.
Qed.

Lemma rewriteElement_hit baseURL attr (q : Selector) t a v u :
  q t a = true -> getAttribute attr a = Some v -> skipped v = false ->
  resolveValue attr baseURL v = Some u ->
  getAttribute attr (rewriteElement baseURL (attr, q) t a) = Some u.
Proof.
  intros Hq Hg Hs Hr. unfold rewriteElement, rewriteAttr. cbn [fst snd].
  rewrite Hq, Hg, Hs, Hr. apply getAttribute_set_eq.
Qed.

(** X4. For [src] on any element, [href] on [a] and [area], [action] on
    [form] and [poster] on [video]: a value that the guard lets through and
    that [new URL] accepts is replaced by its absolute form, on every
    element of the document, which stays where it is. *)
Theorem plain_references_made_absolute doc baseURL k t a (row : string * Selector) v u :
  row ∈ selectors -> row.1 <> "srcset" ->
  documentElements doc !! k = Some (t, a) ->
  row.2 t a = true ->
  getAttribute row.1 a = Some v ->
  skipped v = false ->
  URL_href v baseURL = Some u ->
  exists a',
    documentElements (_resolveRelativeURLs doc baseURL) !! k = Some (t, a') /\
    getAttribute row.1 a' = Some u.
Proof.
  intros Hin Hsr Hk Hq Hg Hs Hu. exists (rewriteAll baseURL t a). split.
  { rewrite resolve_elements. change (List.map ?f ?l) with (f <$> l).
    by rewrite list_lookup_fmap, Hk. }
  assert (Hr : resolveValue row.1 baseURL v = Some u).
  { unfold resolveValue. by destruct (String.eqb_spec row.1 "srcset"). }
  unfold selectors in Hin. unfold rewriteAll, selectors. cbn [List.fold_left].
  repeat (apply elem_of_cons in Hin as [->|Hin]; [|]);
    [..|by apply elem_of_nil in Hin];
    cbn [fst snd] in *; try done;
    rewrite ?rewriteElement_other by discriminate;
    (apply (rewriteElement_hit _ _ _ _ _ v); [|by rewrite ?rewriteElement_other by discriminate|done|done]);
    unfold hasAttribute in *; by rewrite ?rewriteElement_other by discriminate.
Qed.

Lemma rewriteElement_held baseURL (row : string * Selector) t a name v :
  getAttribute name a = Some v ->
  skipped v = true \/ resolveValue name baseURL v = None ->
  getAttribute name (rewriteElement baseURL row t a) = Some v.
Proof.
  intros Hg Hheld. destruct (String.eqb_spec row.1 name) as [He|Hne].
  - unfold rewriteElement, rewriteAttr. destruct (row.2 t a); [|done].
    rewrite He, Hg. destruct (skipped v) eqn:Hs; [done|].
    destruct Hheld as [?|Hr]; [done|]. by rewrite Hr.
  - by rewrite rewriteElement_other.
Qed.

(** X5. The rewriting is best effort, attribute by attribute: a value that
    the guard holds back (empty, or starting with [data:] or [#]) and a
    value that [new URL] rejects (for a [srcset], one of whose candidates it
    rejects) are left exactly as they were. *)
Theorem held_back_values_stay doc baseURL k t a name v :
  documentElements doc !! k = Some (t, a) ->
  getAttribute name a = Some v ->
  skipped v = true \/ resolveValue name baseURL v = None ->
  exists a',
    documentElements (_resolveRelativeURLs doc baseURL) !! k = Some (t, a') /\
    getAttribute name a' = Some v.
Proof.
  intros Hk Hg Hheld. exists (rewriteAll baseURL t a). split.
  { rewrite resolve_elements. change (List.map ?f ?l) with (f <$> l).
    by rewrite list_lookup_fmap, Hk. }
  clear Hk. unfold rewriteAll. generalize selectors as rows. intros rows. revert a Hg.
  induction rows as [|row rows IH]; intros a Hg; [done|].
  simpl. apply IH. by apply rewriteElement_held.
Qed.

Lemma rewriteElement_miss baseURL (row : string * Selector) t a :
  row.2 t a = false -> rewriteElement baseURL row t a = a.
Proof. intros Hq. unfold rewriteElement. by rewrite Hq. Qed.

(** X6. [href], [action] and [poster] are rewritten only on the elements
    the table names: an [href] on anything but [a] and [area] (a [link], a
    [base], an SVG [use]), an [action] outside [form] and a [poster] outside
    [video] keep their value, resolvable or not. *)
Theorem references_outside_the_queries_stay doc baseURL k t a :
  documentElements doc !! k = Some (t, a) ->
  exists a',
    documentElements (_resolveRelativeURLs doc baseURL) !! k = Some (t, a') /\
    (t <> "a" -> t <> "area" -> getAttribute "href" a' = getAttribute "href" a) /\
    (t <> "form" -> getAttribute "action" a' = getAttribute "action" a) /\
    (t <> "video" -> getAttribute "poster" a' = getAttribute "poster" a).
Proof.
  intros Hk. exists (rewriteAll baseURL t a). split.
  { rewrite resolve_elements. change (List.map ?f ?l) with (f <$> l).
    by rewrite list_lookup_fmap, Hk. }
  unfold rewriteAll, selectors. cbn [List.fold_left].
  split; [|split].
  - intros Ha Har. rewrite !(rewriteElement_other "href") by discriminate.
    rewrite rewriteElement_miss; [by rewrite rewriteElement_other|].
    cbn [snd]. destruct (String.eqb_spec t "a"); [done|].
    by destruct (String.eqb_spec t "area").
  - intros Hf. rewrite !(rewriteElement_other "action") by discriminate.
    rewrite rewriteElement_miss; [by rewrite !rewriteElement_other|].
    cbn [snd]. by destruct (String.eqb_spec t "form").
  - intros Hv. rewrite rewriteElement_miss; [by rewrite !rewriteElement_other|].
    cbn [snd]. by destruct (String.eqb_spec t "video").
Qed.

End TransformMore.

(** ** The component, beyond the claims *)

Section ComponentMore.
Import Dom Transform Component.
Context `{Platform}.
#[local] Open Scope list_scope.

(** *** The guard against double loading *)

Lemma fetchWithCache_instance i j url w x :
  instances w !! i = Some x ->
  exists x', instances (_fetchWithCache j url w).1 !! i = Some x' /\
             _hasLoaded x' = _hasLoaded x /\ attributes x' = attributes x /\
             _observer x' = _observer x /\ _isConnected x' = _isConnected x.
Proof.
  intros Hx. unfold _fetchWithCache. repeat case_match; try by (exists x).
  cbn [fst instances set_pending set_requests]. rewrite lookup_update.
  case_decide; rewrite Hx; [by eexists | by exists x].
Qed.

Lemma beginLoad_sets_guard i w x :
  instances w !! i = Some x ->
  exists x', instances (_beginLoad i w) !! i = Some x' /\ _hasLoaded x' = true /\
             _observer x' = _observer x /\ _isConnected x' = _isConnected x.
Proof.
  intros Hx. unfold _beginLoad. rewrite Hx.
  destruct (_hasLoaded x) eqn:Hl; [by exists x|].
  assert (Hx1 : instances (update i (with_hasLoaded true) w) !! i = Some (with_hasLoaded true x))
    by by apply lookup_update_eq.
  destruct (truthy _) as [src|]; [|by eexists].
  destruct (URL_href src baseURI) as [url|]; [|by eexists].
  set (w1 := setOwnAttribute i "aria-busy" "true" (update i (with_hasLoaded true) w)).
  assert (Hx2 : instances w1 !! i =
                Some (with_attributes (setAttribute "aria-busy" "true" (attributes x))
                        (with_hasLoaded true x))).
  { unfold w1, setOwnAttribute. by rewrite (lookup_update_eq _ _ _ _ Hx1). }
  destruct (fetchWithCache_instance i i url w1 _ Hx2) as (x' & Hx' & Hl' & _ & Ho' & Hc').
  destruct (_fetchWithCache i url w1) as [w2 on]. simpl in *.
  exists x'. by rewrite Hx', Hl', Ho', Hc'.
Qed.

(** X7. [_beginLoad] runs once per configuration: whatever its first call
    did (sent a request, joined one, found no [src], failed to resolve the
    URL), a second call straight after it changes nothing. *)
Theorem beginLoad_runs_once i w : _beginLoad i (_beginLoad i w) = _beginLoad i w.
Proof.
  destruct (instances w !! i) as [x|] eqn:Hx.
  - destruct (beginLoad_sets_guard i w x Hx) as (x' & Hx' & Hl' & _).
    by apply (beginLoad_guarded i _ x').
  - assert (E : _beginLoad i w = w) by (unfold _beginLoad; by rewrite Hx).
    by rewrite !E.
Qed.

(** *** The cache *)

(** X8. A retrieval that succeeds is promoted: its text is in the cache,
    its URL is no longer pending, every waiter's [await] yields the text,
    and from then on [_fetchWithCache] for that URL, by any instance, hands
    out the cached text and touches nothing: no request, no pending entry,
    no new [AbortController]. *)
Theorem fulfilled_retrieval_is_served_from_cache w rid r reply html :
  requests w !! rid = Some r -> req_origin r = ViaCache -> req_result r = None ->
  outcomeOf r reply = Fulfilled html ->
  let w' := settle rid reply w in
  _cache w' !! req_url r = Some html /\
  _pending w' !! req_url r = None /\
  awaitOutcome w' (Shared rid) = Some (Fulfilled html) /\
  forall j, _fetchWithCache j (req_url r) w' = (w', Ready html).
Proof.
  intros Hr Ho Hn Hout w'.
  assert (Haw : awaitOutcome w' (Shared rid) = Some (Fulfilled html)).
  { subst w'. by rewrite (settle_outcome rid reply w r), Hout. }
  assert (Hc : _cache w' !! req_url r = Some html).
  { subst w'. unfold settle. rewrite Hr, Hn, Ho, Hout. simpl. apply lookup_insert_eq. }
  assert (Hp : _pending w' !! req_url r = None).
  { subst w'. unfold settle. rewrite Hr, Hn, Ho, Hout. simpl. apply lookup_delete_eq. }
  repeat (split; [done|]). intros j. unfold _fetchWithCache. by rewrite Hc.
Qed.

(** X9. [clearCache] empties both maps and nothing else: requests in
    flight and suspended continuations stay.  The next [_fetchWithCache]
    for any URL sends a new request, also for a URL that was cached and for
    one whose retrieval is still in flight. *)
Theorem clearCache_forces_new_retrieval w j url :
  _cache (clearCache w) = ∅ /\ _pending (clearCache w) = ∅ /\
  requests (clearCache w) = requests w /\ tasks (clearCache w) = tasks w /\
  instances (clearCache w) = instances w /\
  (_fetchWithCache j url (clearCache w)).2 = Shared (length (requests w)) /\
  requests (_fetchWithCache j url (clearCache w)).1 = requests w ++ [freshRequest url] /\
  _pending (_fetchWithCache j url (clearCache w)).1 = {[ url := length (requests w) ]}.
Proof.
  destruct (fetchWithCache_issues j url (clearCache w)) as (w1 & -> & Hr & Hp & _);
    [apply lookup_empty..|].
  cbn [fst snd]. rewrite Hr, Hp. repeat (split; [done|]). done.
Qed.

(** X10. What [prefetch] fetched is served afterwards: once the request it
    sent is answered with a success status, the text is in the cache, and
    both [_fetchWithCache] and a second [prefetch] return it without a
    request.  A failed prefetch leaves the cache as it was. *)
Theorem prefetched_text_is_served url resolvedURL w :
  URL_href url baseURI = Some resolvedURL ->
  _cache w !! resolvedURL = None ->
  let rid := length (requests w) in
  let sent := (prefetch url w).1 in
  (forall status statusText text,
     ok status = true ->
     let w' := settle rid (Response status statusText text) sent in
     _cache w' !! resolvedURL = Some text /\
     (forall j, _fetchWithCache j resolvedURL w' = (w', Ready text)) /\
     prefetch url w' = (w', Some (Ready text))) /\
  (forall reply,
     (forall status statusText text, reply = Response status statusText text -> ok status = false) ->
     _cache (settle rid reply sent) = _cache w).
Proof.
  intros Hu Hc rid sent.
  assert (Hsent : sent = set_requests
                    (requests w ++ [{| req_url := resolvedURL; req_origin := ViaPrefetch;
                                       req_aborted := false; req_result := None |}]) w).
  { subst sent. unfold prefetch. by rewrite Hu, Hc. }
  assert (Hr : requests sent !! rid =
               Some {| req_url := resolvedURL; req_origin := ViaPrefetch;
                       req_aborted := false; req_result := None |}).
  { rewrite Hsent. simpl. by apply list_lookup_middle. }
  split.
  - intros status statusText text Hok w'.
    assert (Hc' : _cache w' !! resolvedURL = Some text).
    { subst w'. unfold settle, outcomeOf. rewrite Hr.
      cbn [req_result req_aborted req_origin req_url]. rewrite Hok. simpl.
      apply lookup_insert_eq. }
    split; [done|]. split.
    + intros j. unfold _fetchWithCache. by rewrite Hc'.
    + unfold prefetch. by rewrite Hu, Hc'.
  - intros reply Hfail. unfold settle, outcomeOf. rewrite Hr.
    cbn [req_result req_aborted req_origin req_url].
    destruct reply as [status statusText text|m].
    + rewrite (Hfail status statusText text eq_refl). simpl. by rewrite Hsent.
    + simpl. by rewrite Hsent.
Qed.

(** *** The visibility trigger *)

Lemma beginLoad_observers j w : observers (_beginLoad j w) = observers w.
Proof.
  unfold _beginLoad. repeat case_match; try done.
  match goal with E : _fetchWithCache _ ?u ?w0 = (?w1, ?a) |- _ =>
    cbn [observers set_tasks]; change w1 with (w1, a).1; rewrite <- E end.
  unfold _fetchWithCache. by repeat case_match.
Qed.

(** [connectedCallback] up to its call of [_initLoading]. *)
Lemma connected_prepares i x w :
  instances w !! i = Some x ->
  exists w3 x3,
    connectedCallback i w = _initLoading i w3 /\
    instances w3 !! i = Some x3 /\
    _isConnected x3 = true /\ shadowRoot x3 = ShadowPlaceholder /\
    _hasLoaded x3 = _hasLoaded x /\ _observer x3 = _observer x /\
    _abortController x3 = _abortController x /\
    (forall name, name <> "role" ->
                  getAttribute name (attributes x3) = getAttribute name (attributes x)) /\
    getAttribute "role" (attributes x3) =
      Some (default "presentation" (getAttribute "role" (attributes x))) /\
    requests w3 = requests w /\ tasks w3 = tasks w /\ observers w3 = observers w /\
    _cache w3 = _cache w /\ _pending w3 = _pending w /\ signals w3 = signals w.
Proof.
  intros Hx. unfold connectedCallback. rewrite Hx.
  assert (Hx1 : instances (update i (with_isConnected true) w) !! i =
                Some (with_isConnected true x)) by by apply lookup_update_eq.
  unfold hasAttribute. destruct (getAttribute "role" (attributes x)) as [role|] eqn:Hrole.
  - eexists _, _. split; [reflexivity|]. split; [by apply lookup_update_eq|]. simpl.
    by rewrite Hrole.
  - eexists _, _. split; [reflexivity|].
    split; [apply lookup_update_eq; unfold setOwnAttribute; by apply lookup_update_eq|].
    simpl. repeat (split; [done|]). split.
    + intros name Hn. by apply getAttribute_set_ne.
    + split; [apply getAttribute_set_eq|done].
Qed.

(** X11. Connecting an instance in lazy mode, where the platform has
    [IntersectionObserver], only starts to observe: one observer is
    registered for the instance, no request is sent and no pipeline starts;
    the shadow root shows the placeholder. *)
Theorem lazy_connect_only_observes i x src w :
  hasIntersectionObserver = true ->
  instances w !! i = Some x ->
  truthy (getAttribute "src" (attributes x)) = Some src ->
  default "lazy" (truthy (getAttribute "loading" (attributes x))) <> "eager" ->
  let w' := connectedCallback i w in
  requests w' = requests w /\ tasks w' = tasks w /\
  observers w' = observers w ++ [{| obs_inst := i; obs_active := true |}] /\
  exists x', instances w' !! i = Some x' /\
             _observer x' = Some (length (observers w)) /\
             _isConnected x' = true /\ _hasLoaded x' = _hasLoaded x /\
             shadowRoot x' = ShadowPlaceholder.
Proof.
  intros Hio Hx Hsrc Hmode w'. subst w'.
  destruct (connected_prepares i x w Hx)
    as (w3 & x3 & -> & Hx3 & Hc & Hsh & Hl & _ & _ & Hattr & _ & Hr & Ht & Ho & _).
  unfold _initLoading. rewrite Hx3, !Hattr by discriminate. rewrite Hsrc.
  destruct (String.eqb_spec (default "lazy" (truthy (getAttribute "loading" (attributes x))))
              "eager"); [done|].
  rewrite Hio. simpl. rewrite Hr, Ht, Ho. repeat (split; [done|]).
  eexists. split; [by apply lookup_update_eq|]. by rewrite <- Hc, <- Hl, <- Hsh.
Qed.

(** X12. The first intersection is the only trigger: the callback of the
    instance's observer disconnects it before it starts the pipeline, so
    the observer is no longer active, the instance holds none, the guard is
    set, and a later callback of the same observer does nothing. *)
Theorem first_intersection_is_the_only_trigger o ob x w :
  observers w !! o = Some ob -> obs_active ob = true ->
  instances w !! obs_inst ob = Some x -> _observer x = Some o ->
  let w' := intersect o w in
  w' = _beginLoad (obs_inst ob) (_destroyObserver (obs_inst ob) w) /\
  (obs_active <$> observers w' !! o) = Some false /\
  (exists x', instances w' !! obs_inst ob = Some x' /\
              _observer x' = None /\ _hasLoaded x' = true) /\
  intersect o w' = w'.
Proof.
  intros Hob Hact Hx Ho w'.
  assert (E : w' = _beginLoad (obs_inst ob) (_destroyObserver (obs_inst ob) w)).
  { subst w'. unfold intersect. by rewrite Hob, Hact. }
  clearbody w'. subst w'. split; [done|].
  assert (Hobs : observers (_beginLoad (obs_inst ob) (_destroyObserver (obs_inst ob) w)) !! o =
                 Some {| obs_inst := obs_inst ob; obs_active := false |}).
  { rewrite beginLoad_observers. unfold _destroyObserver. rewrite Hx, Ho. simpl.
    by rewrite list_lookup_alter_eq, Hob. }
  split; [by rewrite Hobs|]. split.
  - pose proof (destroyObserver_instance _ w x Hx) as Hx1.
    destruct (beginLoad_sets_guard _ _ _ Hx1) as (x' & Hx' & Hl' & Ho' & _).
    exists x'. by rewrite Hx', Hl', Ho'.
  - unfold intersect. by rewrite Hobs.
Qed.

(** X13. Connecting an instance in eager mode, or on a platform without
    [IntersectionObserver], starts the pipeline at once and registers no
    observer: [aria-busy] is set, and the instance awaits the cached text
    if the URL is cached (no request), otherwise the shared promise, for
    which it sends the request if none is pending. *)
Theorem eager_connect_starts_the_pipeline i x src url w :
  instances w !! i = Some x -> _hasLoaded x = false ->
  truthy (getAttribute "src" (attributes x)) = Some src ->
  default "lazy" (truthy (getAttribute "loading" (attributes x))) = "eager" \/
    hasIntersectionObserver = false ->
  URL_href src baseURI = Some url ->
  let w' := connectedCallback i w in
  observers w' = observers w /\
  hostAttribute i "aria-busy" w' = Some "true" /\
  (forall html, _cache w !! url = Some html ->
                requests w' = requests w /\
                tasks w' = tasks w ++ [AwaitFetch i src url (Ready html)]) /\
  (forall rid, _cache w !! url = None -> _pending w !! url = Some rid ->
               requests w' = requests w /\
               tasks w' = tasks w ++ [AwaitFetch i src url (Shared rid)]) /\
  (_cache w !! url = None -> _pending w !! url = None ->
   requests w' = requests w ++ [freshRequest url] /\
   tasks w' = tasks w ++ [AwaitFetch i src url (Shared (length (requests w)))]).
Proof.
  intros Hx Hl Hsrc Hmode Hu w'. subst w'.
  destruct (connected_prepares i x w Hx)
    as (w3 & x3 & -> & Hx3 & Hc & Hsh & Hl3 & _ & _ & Hattr & _ & Hr & Ht & Ho & Hca & Hpe & _).
  assert (E : _initLoading i w3 = _beginLoad i w3).
  { unfold _initLoading. rewrite Hx3, !Hattr by discriminate. rewrite Hsrc.
    destruct Hmode as [Hm | Hm]; rewrite Hm; [done|]. by destruct (String.eqb _ "eager"). }
  rewrite E, beginLoad_observers.
  rewrite (beginLoad_runs i w3 x3 src url) by (rewrite ?Hattr by discriminate; congruence).
  set (w4 := setOwnAttribute i "aria-busy" "true" (update i (with_hasLoaded true) w3)).
  assert (Hx4 : instances w4 !! i =
                Some (with_attributes (setAttribute "aria-busy" "true" (attributes x3))
                        (with_hasLoaded true x3))).
  { unfold w4, setOwnAttribute.
    rewrite (lookup_update_eq _ _ _ (with_hasLoaded true x3)); [done|].
    by apply lookup_update_eq. }
  assert (Hbusy : hostAttribute i "aria-busy"
                    (set_tasks (tasks (_fetchWithCache i url w4).1 ++
                                  [AwaitFetch i src url (_fetchWithCache i url w4).2])
                               (_fetchWithCache i url w4).1) = Some "true").
  { destruct (fetchWithCache_instance i i url w4 _ Hx4) as (x' & Hx' & _ & Ha' & _).
    unfold hostAttribute. simpl. rewrite Hx'. simpl. rewrite Ha'. simpl.
    apply getAttribute_set_eq. }
  split; [done|]. split; [exact Hbusy|].
  assert (Hc4 : _cache w4 = _cache w) by (by unfold w4).
  assert (Hp4 : _pending w4 = _pending w) by (by unfold w4).
  assert (Hr4 : requests w4 = requests w) by (by unfold w4).
  assert (Ht4 : tasks w4 = tasks w) by (by unfold w4).
  pose proof (fetchWithCache_tasks i url w4) as Htk. rewrite Ht4 in Htk.
  split; [|split].
  - intros html Hhit.
    assert (Ef : _fetchWithCache i url w4 = (w4, Ready html)).
    { unfold _fetchWithCache. by rewrite Hc4, Hhit. }
    rewrite Ef. cbn [fst snd requests tasks set_tasks]. by rewrite Hr4, Ht4.
  - intros rid Hmiss Hpend. rewrite (fetchWithCache_joins i url w4 rid) by congruence.
    cbn [fst snd requests tasks set_tasks]. by rewrite Hr4, Ht4.
  - intros Hmiss Hpend.
    destruct (fetchWithCache_issues i url w4) as (w5 & E5 & Hr5 & _); [congruence..|].
    rewrite E5 in Htk |- *. cbn [fst snd requests tasks set_tasks] in Htk |- *.
    by rewrite Hr5, Htk, Hr4.
Qed.

Lemma abortFetch_observers j w : observers (_abortFetch j w) = observers w.
Proof. unfold _abortFetch. by repeat case_match. Qed.

Lemma disconnected_instance i x w :
  instances w !! i = Some x ->
  instances (disconnectedCallback i w) !! i =
    Some (with_abortController None (with_observer None (with_isConnected false x))).
Proof.
  intros Hx. unfold disconnectedCallback.
  apply abortFetch_instance, destroyObserver_instance. by apply lookup_update_eq.
Qed.

(** X14. Disconnecting does not clear the guard: an instance that has
    started a load and is taken out of the document and put back sends no
    request and starts no pipeline when it is connected again. *)
Theorem reconnecting_does_not_reload i x w :
  instances w !! i = Some x -> _hasLoaded x = true ->
  let w' := connectedCallback i (disconnectedCallback i w) in
  requests w' = requests (disconnectedCallback i w) /\
  length (requests w') = length (requests w) /\
  tasks w' = tasks w /\
  exists x', instances w' !! i = Some x' /\ _hasLoaded x' = true /\ _isConnected x' = true.
Proof.
  intros Hx Hl w'. subst w'.
  pose proof (disconnected_instance i x w Hx) as Hx1.
  destruct (connected_prepares i _ _ Hx1)
    as (w3 & x3 & -> & Hx3 & Hc & _ & Hl3 & _ & _ & _ & _ & Hr & Ht & _).
  simpl in Hl3. rewrite Hl in Hl3.
  destruct (initLoading_guarded i w3 x3 Hx3 Hl3) as (Hr' & Ht' & (x' & Hx' & Hl' & _) & _).
  rewrite Hr', Ht', Hr, Ht.
  assert (Htd : tasks (disconnectedCallback i w) = tasks w).
  { unfold disconnectedCallback.
    destruct (abortFetch_requests i (_destroyObserver i (update i (with_isConnected false) w)) _
                (destroyObserver_instance i _ _ (lookup_update_eq i _ w x Hx))) as [_ ->].
    by destruct (destroyObserver_rest i (update i (with_isConnected false) w)) as [_ ->]. }
  assert (Hrd : length (requests (disconnectedCallback i w)) = length (requests w)).
  { unfold disconnectedCallback.
    destruct (abortFetch_requests i (_destroyObserver i (update i (with_isConnected false) w)) _
                (destroyObserver_instance i _ _ (lookup_update_eq i _ w x Hx))) as [-> _].
    destruct (destroyObserver_rest i (update i (with_isConnected false) w)) as [-> _].
    simpl. destruct (_abortController x); [apply length_alter | done]. }
  repeat (split; [done|]).
  exists x'. split; [done|]. split; [done|].
  (* [_initLoading] leaves [_isConnected] alone *)
  pose proof (initLoading_rendering i i w3) as Hren. unfold rendering in Hren.
  rewrite Hx', Hx3 in Hren. simpl in Hren. congruence.
Qed.

(** X15. Disconnecting an instance that is still observing ends the
    observation for good: its observer is disconnected, the instance holds
    neither observer nor controller, no pipeline has started, and a late
    callback of that observer does nothing. *)
Theorem disconnect_ends_observation i x o ob w :
  instances w !! i = Some x -> _observer x = Some o -> observers w !! o = Some ob ->
  let w' := disconnectedCallback i w in
  (obs_active <$> observers w' !! o) = Some false /\
  tasks w' = tasks w /\
  intersect o w' = w' /\
  exists x', instances w' !! i = Some x' /\ _isConnected x' = false /\
             _observer x' = None /\ _abortController x' = None.
Proof.
  intros Hx Ho Hob w'. subst w'.
  assert (Hobs : observers (disconnectedCallback i w) !! o =
                 Some {| obs_inst := obs_inst ob; obs_active := false |}).
  { unfold disconnectedCallback. rewrite abortFetch_observers. unfold _destroyObserver.
    rewrite (lookup_update_eq i _ w x Hx). cbn [_observer with_isConnected]. rewrite Ho.
    simpl. by rewrite list_lookup_alter_eq, Hob. }
  split; [by rewrite Hobs|]. split.
  { unfold disconnectedCallback.
    destruct (abortFetch_requests i (_destroyObserver i (update i (with_isConnected false) w)) _
                (destroyObserver_instance i _ _ (lookup_update_eq i _ w x Hx))) as [_ ->].
    by destruct (destroyObserver_rest i (update i (with_isConnected false) w)) as [_ ->]. }
  split; [unfold intersect; by rewrite Hobs|].
  eexists. split; [by apply disconnected_instance|]. done.
Qed.

(** *** The end of the pipeline *)

Lemma hostAttribute_own i name v w x :
  instances w !! i = Some x -> hostAttribute i name (setOwnAttribute i name v w) = Some v.
Proof.
  intros Hx. unfold hostAttribute, setOwnAttribute.
  rewrite (lookup_update_eq i _ w x Hx). simpl. apply getAttribute_set_eq.
Qed.

Lemma hostAttribute_own_ne i j name other v w :
  other <> name -> hostAttribute i name (setOwnAttribute j other v w) = hostAttribute i name w.
Proof.
  intros Hne. unfold hostAttribute, setOwnAttribute. rewrite lookup_update.
  case_decide; [|done]. destruct (instances w !! i); [|done]. simpl.
  by apply getAttribute_set_ne.
Qed.

(** X16. A load that fails for another reason than cancellation (a
    transport failure, a status that is not a success) is reported once:
    the continuation dispatches one [templastic-error] with the error and
    the [src] the load started with, sets [aria-busy] to "false" and
    [data-state] to "error", schedules no frame and leaves the shadow root
    as it is.  The instance need not be connected for that. *)
Theorem failed_load_is_reported tid i src url on e x w :
  tasks w !! tid = Some (AwaitFetch i src url on) ->
  awaitOutcome w on = Some (Rejected e) ->
  error_name e <> "AbortError" ->
  instances w !! i = Some x ->
  let w' := resume tid w in
  signals w' = signals w ++ [Errored i e src] /\
  tasks w' = <[tid := Finished]> (tasks w) /\
  hostAttribute i "aria-busy" w' = Some "false" /\
  hostAttribute i "data-state" w' = Some "error" /\
  rendering i w' = rendering i w.
Proof.
  intros Ht Ho He Hx w'. subst w'. unfold resume. rewrite Ht, Ho. cbn [afterFetch].
  set (w1 := set_tasks (<[tid := Finished]> (tasks w)) w).
  assert (Hx1 : instances w1 !! i = Some x) by done.
  split; [|split; [|split; [|split]]].
  - unfold failed. destruct (String.eqb_spec (error_name e) "AbortError"); done.
  - unfold failed. destruct (String.eqb_spec (error_name e) "AbortError"); done.
  - unfold failed. destruct (String.eqb_spec (error_name e) "AbortError"); [done|].
    change (hostAttribute i "aria-busy"
              (setOwnAttribute i "data-state" "error" (setOwnAttribute i "aria-busy" "false" w1))
            = Some "false").
    rewrite hostAttribute_own_ne by discriminate. by apply (hostAttribute_own _ _ _ _ x).
  - unfold failed. destruct (String.eqb_spec (error_name e) "AbortError"); [done|].
    change (hostAttribute i "data-state"
              (setOwnAttribute i "data-state" "error" (setOwnAttribute i "aria-busy" "false" w1))
            = Some "error").
    eapply hostAttribute_own. unfold setOwnAttribute. by apply lookup_update_eq.
  - by rewrite failed_rendering.
Qed.

(** X17. The same happens when the text arrived but the extraction throws
    (a stylesheet link whose [href] [new URL] rejects): the connected
    instance dispatches [templastic-error] with a [TypeError], marks itself
    as failed and schedules no frame. *)
Theorem failed_extraction_is_reported tid i src url on raw x w :
  tasks w !! tid = Some (AwaitFetch i src url on) ->
  awaitOutcome w on = Some (Fulfilled raw) ->
  instances w !! i = Some x -> _isConnected x = true ->
  extract (parseFromString raw) url = None ->
  let w' := resume tid w in
  (exists message, signals w' = signals w ++ [Errored i (TypeError message) src]) /\
  tasks w' = <[tid := Finished]> (tasks w) /\
  hostAttribute i "data-state" w' = Some "error" /\
  rendering i w' = rendering i w.
Proof.
  intros Ht Ho Hx Hc Hex w'. subst w'. unfold resume. rewrite Ht, Ho. cbn [afterFetch].
  set (w1 := set_tasks (<[tid := Finished]> (tasks w)) w).
  assert (Hx1 : instances w1 !! i = Some x) by done.
  rewrite Hx1, Hc. cbn [negb]. unfold _processHTML. rewrite Hex. cbn [mbind option_bind].
  split; [by eexists|]. split; [done|]. split; [|by rewrite failed_rendering].
  change (hostAttribute i "data-state"
            (setOwnAttribute i "data-state" "error" (setOwnAttribute i "aria-busy" "false" w1))
          = Some "error").
  eapply hostAttribute_own. unfold setOwnAttribute. by apply lookup_update_eq.
Qed.

Lemma hostAttribute_update i j name f w :
  (forall x, attributes (f x) = attributes x) ->
  hostAttribute i name (update j f w) = hostAttribute i name w.
Proof.
  intros Hf. unfold hostAttribute. rewrite lookup_update. case_decide; [|done].
  destruct (instances w !! i); [|done]. simpl. by rewrite Hf.
Qed.

Lemma hostAttribute_frame i name w w' :
  instances w' = instances w -> hostAttribute i name w' = hostAttribute i name w.
Proof. unfold hostAttribute. by intros ->. Qed.

Lemma rootStyle_truthy ns : truthy (rootStyle ns) = rootStyle ns.
Proof.
  unfold rootStyle. repeat case_match; try done. simpl.
  match goal with E : negb (String.eqb ?s "") && _ = true |- _ =>
    apply andb_true_iff in E as [E _]; apply negb_true_iff in E; by rewrite E end.
Qed.

Lemma animationFrame_connected tid i css links html hs x w :
  tasks w !! tid = Some (Frame i css links html hs) ->
  instances w !! i = Some x -> _isConnected x = true ->
  animationFrame tid w =
    _injectIntoShadow i css links html hs (set_tasks (<[tid := Finished]> (tasks w)) w).
Proof.
  intros Ht Hx Hc. unfold animationFrame. rewrite Ht. cbn [instances set_tasks].
  by rewrite Hx, Hc.
Qed.

Lemma injectIntoShadow_commits i css links html hs x w :
  instances w !! i = Some x ->
  let w' := _injectIntoShadow i css links html hs w in
  signals w' = signals w ++
               [Loaded i (getAttribute "src" (attributes x)) (length css) (length links)
                       (match truthy hs with Some _ => true | None => false end)] /\
  (shadowRoot <$> instances w' !! i) =
    Some (ShadowInjected
            (match css with [] => None | _ => Some (JsString.join newline2 css) end)
            (List.map (fun n => match n with
                                | Elem t a ch =>
                                    Elem t (setAttribute "data-templastic" "external" a) ch
                                | _ => n
                                end) links)
            html) /\
  hostAttribute i "aria-busy" w' = Some "false" /\
  hostAttribute i "data-state" w' = Some "loaded".
Proof.
  intros Hx w'. subst w'. unfold _injectIntoShadow. rewrite Hx.
  set (sh := ShadowInjected _ _ _).
  set (w3 := match truthy hs with
             | Some s => setOwnAttribute i "style" _ _
             | None => update i (with_shadow sh) w
             end).
  assert (Hx3 : exists x3, instances w3 !! i = Some x3 /\ shadowRoot x3 = sh).
  { unfold w3. destruct (truthy hs).
    - eexists. split; [unfold setOwnAttribute; by do 2 apply lookup_update_eq|]. done.
    - eexists. split; [by apply lookup_update_eq|]. done. }
  destruct Hx3 as (x3 & Hx3 & Hsh).
  assert (Hs3 : signals w3 = signals w) by (unfold w3; by destruct (truthy hs)).
  split; [|split; [|split]].
  - cbn [signals dispatchEvent setOwnAttribute update set_instances]. by rewrite Hs3.
  - transitivity (shadowRoot <$> instances
        (setOwnAttribute i "data-state" "loaded" (setOwnAttribute i "aria-busy" "false" w3)) !! i);
      [done|].
    unfold setOwnAttribute.
    rewrite (lookup_update_eq i _ _ _ (lookup_update_eq i _ w3 x3 Hx3)). simpl.
    by rewrite Hsh.
  - rewrite (hostAttribute_frame i _
               (setOwnAttribute i "data-state" "loaded" (setOwnAttribute i "aria-busy" "false" w3)))
      by done.
    rewrite hostAttribute_own_ne by discriminate. by apply (hostAttribute_own _ _ _ _ x3).
  - rewrite (hostAttribute_frame i _
               (setOwnAttribute i "data-state" "loaded" (setOwnAttribute i "aria-busy" "false" w3)))
      by done.
    eapply hostAttribute_own. unfold setOwnAttribute. by apply lookup_update_eq.
Qed.

(** X18. A load that succeeds on a connected instance is committed in two
    steps.  The continuation only hands the extracted parts to
    [requestAnimationFrame]: nothing of the instance changes and nothing is
    dispatched.  The frame callback then replaces the shadow root by the
    joined style text, the tagged stylesheet links and the content, sets
    [aria-busy] to "false" and [data-state] to "loaded", and dispatches one
    [templastic-loaded] that carries the instance's [src], the number of
    style blocks, the number of resolved links and whether a host style was
    found. *)
Theorem fulfilled_load_is_injected_in_a_frame tid i src url on raw x ex w :
  tasks w !! tid = Some (AwaitFetch i src url on) ->
  awaitOutcome w on = Some (Fulfilled raw) ->
  instances w !! i = Some x -> _isConnected x = true ->
  extract (parseFromString raw) url = Some ex ->
  let w1 := resume tid w in
  let w2 := animationFrame (length (tasks w)) w1 in
  tasks w1 = <[tid := Finished]> (tasks w) ++
             [Frame i (extractedCSS ex) (resolvedLinks ex)
                    (innerHTML (body (content ex))) (hostInlineStyle ex)] /\
  signals w1 = signals w /\ instances w1 = instances w /\
  signals w2 = signals w ++
               [Loaded i (getAttribute "src" (attributes x)) (length (extractedCSS ex))
                       (length (resolvedLinks ex))
                       (match hostInlineStyle ex with Some _ => true | None => false end)] /\
  (shadowRoot <$> instances w2 !! i) =
    Some (ShadowInjected
            (match extractedCSS ex with
             | [] => None
             | _ => Some (JsString.join newline2 (extractedCSS ex))
             end)
            (List.map (fun n => match n with
                                | Elem t a ch =>
                                    Elem t (setAttribute "data-templastic" "external" a) ch
                                | _ => n
                                end) (resolvedLinks ex))
            (innerHTML (body (content ex)))) /\
  hostAttribute i "aria-busy" w2 = Some "false" /\
  hostAttribute i "data-state" w2 = Some "loaded".
Proof.
  intros Ht Ho Hx Hc Hex w1 w2.
  set (frame := Frame i (extractedCSS ex) (resolvedLinks ex)
                      (innerHTML (body (content ex))) (hostInlineStyle ex)).
  assert (E1 : w1 = set_tasks (<[tid := Finished]> (tasks w) ++ [frame]) w).
  { subst w1. unfold resume. rewrite Ht, Ho. cbn [afterFetch].
    cbn [instances set_tasks]. rewrite Hx, Hc. cbn [negb].
    unfold _processHTML. rewrite Hex. reflexivity. }
  assert (Hhost : truthy (hostInlineStyle ex) = hostInlineStyle ex).
  { unfold extract in Hex. destruct (resolveLinks _ _); [|discriminate].
    cbn [mbind option_bind] in Hex. injection Hex as <-. apply rootStyle_truthy. }
  assert (Hf : tasks w1 !! length (tasks w) = Some frame).
  { rewrite E1. cbn [tasks set_tasks]. apply list_lookup_middle. by rewrite length_insert. }
  split; [by rewrite E1|]. split; [by rewrite E1|]. split; [by rewrite E1|].
  assert (Hx1 : instances w1 !! i = Some x) by (rewrite E1; exact Hx).
  subst w2. rewrite (animationFrame_connected _ _ _ _ _ _ _ _ Hf Hx1 Hc).
  match goal with |- context [_injectIntoShadow i ?c ?l ?h ?s ?w0] =>
    destruct (injectIntoShadow_commits i c l h s x w0 Hx1) as (Hs & Hsh & Hb & Hd) end.
  rewrite Hhost in Hs.
  change (signals (set_tasks (<[length (tasks w) := Finished]> (tasks w1)) w1))
    with (signals w1) in Hs.
  replace (signals w1) with (signals w) in Hs by (by rewrite E1).
  by repeat split.
Qed.

(** *** Attributes *)

(** X19. A change of an attribute starts or cancels something only when
    the instance is connected, the attribute is [src] or [loading], and the
    value is new: otherwise the attribute is written and that is all. *)
Theorem attribute_change_without_effect i x name v w :
  instances w !! i = Some x ->
  name ∉ observedAttributes \/ _isConnected x = false \/
    getAttribute name (attributes x) = v ->
  changeAttribute i name v w =
    update i (with_attributes
                match v with
                | Some s => setAttribute name s (attributes x)
                | None => removeAttribute name (attributes x)
                end) w.
Proof.
  intros Hx Hcase. unfold changeAttribute. rewrite Hx.
  destruct (bool_decide (name ∈ observedAttributes)) eqn:Hobs; [|done].
  apply bool_decide_eq_true in Hobs.
  destruct Hcase as [Hn|[Hc|Hsame]]; [done| |].
  - unfold attributeChangedCallback. case_decide; [done|].
    rewrite (lookup_update_eq i _ w x Hx). cbn [_isConnected with_attributes]. rewrite Hc.
    by rewrite !andb_false_r.
  - unfold attributeChangedCallback. by rewrite decide_True.
Qed.

Lemma fetchWithCache_hostAttribute i j name url w :
  hostAttribute i name (_fetchWithCache j url w).1 = hostAttribute i name w.
Proof.
  unfold _fetchWithCache. repeat case_match; try done. cbn [fst].
  rewrite (hostAttribute_frame i name (update j (with_abortController (Some (length (requests w)))) w))
    by done.
  by apply hostAttribute_update.
Qed.

Lemma beginLoad_hostAttribute i j name w :
  name <> "aria-busy" -> hostAttribute i name (_beginLoad j w) = hostAttribute i name w.
Proof.
  intros Hn. unfold _beginLoad. repeat case_match; try done;
    try by apply hostAttribute_update.
  match goal with E : _fetchWithCache _ _ _ = (?w1, ?a) |- _ =>
    rewrite (hostAttribute_frame i name w1) by done;
    change w1 with (w1, a).1; rewrite <- E end.
  rewrite fetchWithCache_hostAttribute, hostAttribute_own_ne by done.
  by apply hostAttribute_update.
Qed.

Lemma initLoading_hostAttribute i j name w :
  name <> "aria-busy" -> hostAttribute i name (_initLoading j w) = hostAttribute i name w.
Proof.
  intros Hn. unfold _initLoading. repeat case_match; try done;
    try by apply beginLoad_hostAttribute.
  rewrite hostAttribute_update by done. by apply hostAttribute_frame.
Qed.

(** X20. [connectedCallback] gives the host the role "presentation" only
    when the page gave it none: a role that is there when the instance is
    connected is still there afterwards, whatever the connection starts. *)
Theorem connect_keeps_the_role_of_the_page i x w :
  instances w !! i = Some x ->
  hostAttribute i "role" (connectedCallback i w) =
    Some (default "presentation" (getAttribute "role" (attributes x))).
Proof.
  intros Hx.
  destruct (connected_prepares i x w Hx) as (w3 & x3 & -> & Hx3 & _ & _ & _ & _ & _ & _ & Hrole & _).
  rewrite initLoading_hostAttribute by discriminate.
  unfold hostAttribute. by rewrite Hx3.
Qed.

(** *** The maps over whole runs *)

Lemma fetchWithCache_cache j url w : _cache (_fetchWithCache j url w).1 = _cache w.
Proof. unfold _fetchWithCache. by repeat case_match. Qed.

Lemma beginLoad_cache j w : _cache (_beginLoad j w) = _cache w.
Proof.
  unfold _beginLoad. repeat case_match; try done.
  match goal with E : _fetchWithCache _ _ _ = (?w1, ?a) |- _ =>
    change (_cache w1 = _cache w); change w1 with (w1, a).1; rewrite <- E end.
  by rewrite fetchWithCache_cache.
Qed.

Lemma initLoading_cache j w : _cache (_initLoading j w) = _cache w.
Proof. unfold _initLoading. repeat case_match; try done; by rewrite beginLoad_cache. Qed.

Lemma attributeChanged_cache j name old new w :
  _cache (attributeChangedCallback j name old new w) = _cache w.
Proof.
  unfold attributeChangedCallback. repeat case_match; try done;
    rewrite ?initLoading_cache, ?(proj1 (destroyObserver_maps _ _)), ?initLoading_cache,
      ?(proj1 (abortFetch_maps _ _)); done.
Qed.

Lemma step_cache e url w :
  e <> ClearCache -> (forall i, e <> Reload i) ->
  is_Some (_cache w !! url) -> is_Some (_cache (step w e) !! url).
Proof.
  intros Hc Hr Hu. destruct e; cbn [step]; try done.
  - unfold changeAttribute. repeat case_match; try done. by rewrite attributeChanged_cache.
  - unfold changeAttribute. repeat case_match; try done. by rewrite attributeChanged_cache.
  - unfold connectedCallback. repeat case_match; try done; by rewrite initLoading_cache.
  - unfold disconnectedCallback.
    by rewrite (proj1 (abortFetch_maps _ _)), (proj1 (destroyObserver_maps _ _)).
  - unfold intersect. repeat case_match; try done.
    by rewrite beginLoad_cache, (proj1 (destroyObserver_maps _ _)).
  - by destruct (Hr i).
  - unfold prefetch. by repeat case_match.
  - unfold settle. repeat case_match; try done; cbn [_cache set_pending set_cache set_requests];
      (destruct (decide (req_url r = url)) as [->|Hne];
       [rewrite lookup_insert_eq; by eexists | by rewrite lookup_insert_ne]).
  - by rewrite (proj1 (resume_maps _ _)).
  - by rewrite (proj1 (animationFrame_maps _ _)).
Qed.

(** X21. The cache only shrinks on request: a URL whose text is cached
    stays cached through every run that holds no [reload] and no
    [clearCache], whatever instances connect, change, disconnect, prefetch
    or fail in between.  (The text itself can be replaced by a later answer
    for the same URL.) *)
Theorem cached_url_stays_until_evicted es url w :
  Forall (fun e => e <> ClearCache /\ forall i, e <> Reload i) es ->
  is_Some (_cache w !! url) -> is_Some (_cache (run w es) !! url).
Proof.
  intros Hes. revert w. induction Hes as [|e es [Hc Hr] _ IH]; intros w Hu; [done|].
  cbn [run List.fold_left]. apply IH. by apply step_cache.
Qed.

(** X22. Single flight over whole runs: started from the empty page, and
    as long as [clearCache] is not called, two different retrievals that
    [_fetchWithCache] sent and that are both still unanswered are for
    different URLs. *)
Theorem one_unanswered_retrieval_per_url es rid1 rid2 r1 r2 :
  ClearCache ∉ es ->
  requests (run initial es) !! rid1 = Some r1 -> req_origin r1 = ViaCache ->
  req_result r1 = None ->
  requests (run initial es) !! rid2 = Some r2 -> req_origin r2 = ViaCache ->
  req_result r2 = None ->
  rid1 <> rid2 -> req_url r1 <> req_url r2.
Proof.
  intros Hes H1 Ho1 Hn1 H2 Ho2 Hn2 Hne Hu. apply Hne.
  apply (singleFlight_unique (run initial es) rid1 rid2 r1 r2); try done.
  apply run_singleFlight; [done|].
  intros rid r Hr. cbn in Hr. by rewrite lookup_nil in Hr.
Qed.

End ComponentMore.

(** ** More scenarios *)

Section MoreScenarios.
Import Dom Transform Component Samples.
#[local] Existing Instance examplePlatform.
#[local] Open Scope list_scope.

Lemma content_keeps_no_style_or_stylesheet_link_witness :
  exists x,
    extract styledDocument pageURL = Some x /\
    extractedCSS x = ["p{}"; "b{}"] /\
    querySelectorAll sel_style (content x) = [] /\
    querySelectorAll sel_stylesheet_link (content x) = [].
Proof.
  eexists. split; [reflexivity|]. split; [reflexivity|].
  destruct (@content_keeps_no_style_or_stylesheet_link examplePlatform styledDocument pageURL _
              ltac:(reflexivity))
    as (Hs & Hl & _).
  split; [exact Hs|exact Hl].
Defined.

(** The contents of a [template] element are handed on as they were
    parsed: the style block and the stylesheet link inside are not
    extracted, the image inside keeps its relative reference, the image
    beside the template is made absolute. *)
Example template_contents_are_handed_on :
  extract templateDocument pageURL =
    Some {| extractedCSS := []; resolvedLinks := []; hostInlineStyle := None;
            content :=
              {| head := [];
                 body := [Elem "div" []
                            [Elem "template" []
                               [Contents [Elem "style" [] [Text "p{}"];
                                          Elem "link" [("rel", "stylesheet"); ("href", "a.css")] [];
                                          Elem "img" [("src", "in.png")] []]];
                             Elem "img" [("src", "https://x/out.png")] []]] |} |}.
Proof. reflexivity. Qed.

Lemma stylesheet_links_resolved_in_order_witness :
  exists x,
    extract styledDocument pageURL = Some x /\
    resolvedLinks x = [Elem "link" [("rel", "stylesheet"); ("href", "https://x/a.css")] []] /\
    length (resolvedLinks x) = 1.
Proof.
  eexists. split; [reflexivity|]. split; [reflexivity|].
  apply (proj2 (@stylesheet_links_resolved_in_order examplePlatform styledDocument pageURL _
                  ltac:(reflexivity))).
Defined.

Lemma plain_references_made_absolute_witness :
  exists a',
    documentElements (_resolveRelativeURLs styledDocument pageURL) !! 5 = Some ("img", a') /\
    getAttribute "src" a' = Some "https://x/pic.png".
Proof.
  apply (@plain_references_made_absolute examplePlatform styledDocument pageURL 5 "img"
           [("src", "pic.png"); ("alt", "")] ("src", fun _ a => hasAttribute "src" a)
           "pic.png" "https://x/pic.png").
  - constructor.
  - discriminate.
  - reflexivity.
  - reflexivity.
  - reflexivity.
  - reflexivity.
  - reflexivity.
Defined.

Lemma held_back_values_stay_witness :
  exists a',
    documentElements (_resolveRelativeURLs styledDocument pageURL) !! 6 = Some ("a", a') /\
    getAttribute "href" a' = Some "#top".
Proof.
  apply (@held_back_values_stay examplePlatform styledDocument pageURL 6 "a"
           [("href", "#top")] "href" "#top").
  - reflexivity.
  - reflexivity.
  - left. reflexivity.
Defined.

Lemma references_outside_the_queries_stay_witness :
  exists a',
    documentElements (_resolveRelativeURLs styledDocument pageURL) !! 1 = Some ("link", a') /\
    getAttribute "href" a' = Some "a.css".
Proof.
  destruct (@references_outside_the_queries_stay examplePlatform styledDocument pageURL 1 "link"
              [("rel", "stylesheet"); ("href", "a.css")] ltac:(reflexivity))
    as (a' & Hk & Hhref & _).
  exists a'. split; [exact Hk|]. apply Hhref; discriminate.
Defined.

Lemma fulfilled_retrieval_is_served_from_cache_witness :
  let w' := settle 0 answer oneLoading in
  _cache w' !! pageURL = Some "hello" /\ _pending w' !! pageURL = None /\
  _fetchWithCache 1 pageURL w' = (w', Ready "hello").
Proof.
  destruct (fulfilled_retrieval_is_served_from_cache oneLoading 0 (freshRequest pageURL) answer
              "hello" ltac:(reflexivity) ltac:(reflexivity) ltac:(reflexivity)
              ltac:(reflexivity))
    as (Hc & Hp & _ & Hf).
  split; [exact Hc|]. split; [exact Hp|exact (Hf 1)].
Defined.

Lemma prefetched_text_is_served_witness :
  let w' := settle 0 answer (prefetch "a.html" initial).1 in
  _cache w' !! pageURL = Some "hello" /\
  prefetch "a.html" w' = (w', Some (Ready "hello")).
Proof.
  destruct (proj1 (@prefetched_text_is_served examplePlatform "a.html" pageURL initial
                     ltac:(reflexivity) ltac:(reflexivity))
              200%N "OK" "hello" ltac:(reflexivity))
    as (Hc & _ & Hp).
  split; [exact Hc|exact Hp].
Defined.

Lemma lazy_connect_only_observes_witness :
  let w' := connectedCallback 0 idleWithSource in
  requests w' = [] /\ tasks w' = [] /\
  observers w' = [{| obs_inst := 0; obs_active := true |}].
Proof.
  destruct (@lazy_connect_only_observes examplePlatform 0 _ "a.html" idleWithSource
              ltac:(reflexivity) ltac:(reflexivity) ltac:(reflexivity)
              ltac:(vm_compute; discriminate))
    as (Hr & Ht & Ho & _).
  split; [exact Hr|]. split; [exact Ht|exact Ho].
Defined.

Lemma first_intersection_is_the_only_trigger_witness :
  let w' := intersect 0 lazyObserving in
  (obs_active <$> observers w' !! 0) = Some false /\
  requests w' = [freshRequest pageURL] /\
  intersect 0 w' = w'.
Proof.
  destruct (@first_intersection_is_the_only_trigger examplePlatform 0 _ _ lazyObserving
              ltac:(reflexivity) ltac:(reflexivity) ltac:(reflexivity) ltac:(reflexivity))
    as (_ & Ho & _ & Hi).
  split; [exact Ho|]. split; [reflexivity|exact Hi].
Defined.

Lemma eager_connect_starts_the_pipeline_witness :
  let w' := connectedCallback 0 eagerIdle in
  observers w' = [] /\ hostAttribute 0 "aria-busy" w' = Some "true" /\
  requests w' = [freshRequest pageURL] /\
  tasks w' = [AwaitFetch 0 "a.html" pageURL (Shared 0)].
Proof.
  destruct (@eager_connect_starts_the_pipeline examplePlatform 0 _ "a.html" pageURL eagerIdle
              ltac:(reflexivity) ltac:(reflexivity) ltac:(reflexivity)
              ltac:(left; reflexivity) ltac:(reflexivity))
    as (Ho & Hb & _ & _ & Hsend).
  destruct (Hsend ltac:(reflexivity) ltac:(reflexivity)) as [Hr Ht].
  split; [exact Ho|]. split; [exact Hb|]. split; [exact Hr|exact Ht].
Defined.

Lemma reconnecting_does_not_reload_witness :
  let w' := connectedCallback 0 (disconnectedCallback 0 oneLoading) in
  length (requests w') = 1 /\ tasks w' = tasks oneLoading.
Proof.
  destruct (@reconnecting_does_not_reload examplePlatform 0 _ oneLoading
              ltac:(reflexivity) ltac:(reflexivity))
    as (_ & Hl & Ht & _).
  split; [exact Hl|exact Ht].
Defined.

Lemma disconnect_ends_observation_witness :
  let w' := disconnectedCallback 0 lazyObserving in
  (obs_active <$> observers w' !! 0) = Some false /\ tasks w' = [] /\
  intersect 0 w' = w'.
Proof.
  destruct (@disconnect_ends_observation examplePlatform 0 _ 0 _ lazyObserving
              ltac:(reflexivity) ltac:(reflexivity) ltac:(reflexivity))
    as (Ho & Ht & Hi & _).
  split; [exact Ho|]. split; [exact Ht|exact Hi].
Defined.

Lemma failed_load_is_reported_witness :
  let w' := resume 0 oneFailed in
  signals w' = [Errored 0 (HttpError 404 "Not Found") "a.html"] /\
  hostAttribute 0 "aria-busy" w' = Some "false" /\
  hostAttribute 0 "data-state" w' = Some "error".
Proof.
  destruct (@failed_load_is_reported examplePlatform 0 0 "a.html" pageURL (Shared 0)
              (HttpError 404 "Not Found") _ oneFailed
              ltac:(reflexivity) ltac:(reflexivity) ltac:(vm_compute; discriminate)
              ltac:(reflexivity))
    as (Hs & _ & Hb & Hd & _).
  split; [exact Hs|]. split; [exact Hb|exact Hd].
Defined.

Lemma failed_extraction_is_reported_witness :
  let w' := @resume fragmentPlatform 0 (oneAnswered "broken") in
  (exists message, signals w' = [Errored 0 (TypeError message) "a.html"]) /\
  hostAttribute 0 "data-state" w' = Some "error".
Proof.
  destruct (@failed_extraction_is_reported fragmentPlatform 0 0 "a.html" pageURL (Shared 0)
              "broken" _ (oneAnswered "broken")
              ltac:(reflexivity) ltac:(reflexivity) ltac:(reflexivity) ltac:(reflexivity)
              ltac:(reflexivity))
    as (Hs & _ & Hd & _).
  split; [exact Hs|exact Hd].
Defined.

Lemma fulfilled_load_is_injected_in_a_frame_witness :
  let w2 := animationFrame 1 (@resume fragmentPlatform 0 (oneAnswered "styled")) in
  signals w2 = [Loaded 0 (Some "a.html") 2 1 false] /\
  hostAttribute 0 "aria-busy" w2 = Some "false" /\
  hostAttribute 0 "data-state" w2 = Some "loaded".
Proof.
  destruct (@fulfilled_load_is_injected_in_a_frame fragmentPlatform 0 0 "a.html" pageURL
              (Shared 0) "styled" _ _ (oneAnswered "styled")
              ltac:(reflexivity) ltac:(reflexivity) ltac:(reflexivity) ltac:(reflexivity)
              ltac:(reflexivity))
    as (_ & _ & _ & Hs & _ & Hb & Hd).
  split; [exact Hs|]. split; [exact Hb|exact Hd].
Defined.

Lemma attribute_change_without_effect_witness :
  requests (changeAttribute 0 "title" (Some "x") oneLoading) = requests oneLoading /\
  tasks (changeAttribute 0 "title" (Some "x") oneLoading) = tasks oneLoading.
Proof.
  rewrite (@attribute_change_without_effect examplePlatform 0 _ "title" (Some "x") oneLoading
             ltac:(reflexivity)).
  - split; reflexivity.
  - left. intros Hin. repeat (apply elem_of_cons in Hin as [Hin|Hin]; [discriminate Hin|]).
    by apply elem_of_nil in Hin.
Defined.

Lemma connect_keeps_the_role_of_the_page_witness :
  hostAttribute 0 "role" (connectedCallback 0 withRole) = Some "region".
Proof.
  apply (@connect_keeps_the_role_of_the_page examplePlatform 0 _ withRole ltac:(reflexivity)).
Defined.

Lemma cached_url_stays_until_evicted_witness :
  is_Some (_cache (run oneCached [Construct; Connect 1; Disconnect 0; Prefetch "b.html"])
             !! pageURL).
Proof.
  apply (@cached_url_stays_until_evicted examplePlatform).
  - repeat (constructor; [split; [discriminate | intros i; discriminate]|]). constructor.
  - eexists. reflexivity.
Defined.

Lemma one_unanswered_retrieval_per_url_witness :
  requests (run initial twoSources) =
    [freshRequest pageURL; freshRequest "https://x/b.html"] /\
  pageURL <> "https://x/b.html".
Proof.
  split; [reflexivity|].
  apply (@one_unanswered_retrieval_per_url examplePlatform twoSources 0 1
           (freshRequest pageURL) (freshRequest "https://x/b.html")).
  - intros Hin. repeat (apply elem_of_cons in Hin as [Hin|Hin]; [discriminate Hin|]).
    by apply elem_of_nil in Hin.
  - reflexivity.
  - reflexivity.
  - reflexivity.
  - reflexivity.
  - reflexivity.
  - reflexivity.
  - discriminate.
Defined.

End MoreScenarios.
